(** * SCMP: the tiered memory engine, embedded and checked

    A shallow embedding of the [SCMP] class (version 2.1.0) and of the
    [MemoryRecord] and [IndexedDBStore] classes it is built on.

    - JavaScript numbers that hold counts, handles and millisecond clocks
      are [Z] or [nat]; numbers that hold weights, scores and vector
      components are idealised as real numbers [R].
    - Every [async] method is a computation in the monad [M]: it receives
      the engine, returns a value or a thrown error, and returns the engine
      as the method left it.  A thrown error does not roll the engine back.
    - [setImmediate] callbacks are not run by the method that schedules
      them; they are appended to the [pending] queue of the engine.
    - The encoder, the generator, the hash functions, the float16 codec,
      the agglomerative clustering and the nearest-neighbour ranking are
      external collaborators, gathered in the record [Env]. *)

From Stdlib Require Import String.
From Stdlib Require Import List ZArith Reals Lra Lia Bool Sorted.
Import ListNotations.

Set Implicit Arguments.

(* ====================================================================== *)
(** ** Results and the engine monad *)
(* ====================================================================== *)

(** A method either returns a value or throws an [Error] with a message. *)
Inductive Res (A : Type) : Type :=
| Ok (a : A)
| Err (msg : string).

Arguments Ok {A} a.
Arguments Err {A} msg.

Definition isOk {A} (r : Res A) : bool :=
  match r with Ok _ => true | Err _ => false end.

Definition M (S A : Type) : Type := S -> Res A * S.

Definition ret {S A} (a : A) : M S A := fun s => (Ok a, s).

Definition throw {S A} (msg : string) : M S A := fun s => (Err msg, s).

Definition bind {S A B} (m : M S A) (k : A -> M S B) : M S B :=
  fun s => match m s with
           | (Ok a, s') => k a s'
           | (Err e, s') => (Err e, s')
           end.

Definition gets {S A} (f : S -> A) : M S A := fun s => (Ok (f s), s).

Definition modify {S} (f : S -> S) : M S unit := fun s => (Ok tt, f s).

(** [try { body } catch (error) { handler }] *)
Definition tryCatch {S A} (body : M S A) (handler : string -> M S A) : M S A :=
  fun s => match body s with
           | (Ok a, s') => (Ok a, s')
           | (Err e, s') => handler e s'
           end.

(** [try { body } finally { cleanup }]: the cleanup runs on both exits. *)
Definition tryFinally {S A} (body : M S A) (cleanup : S -> S) : M S A :=
  fun s => let (r, s') := body s in (r, cleanup s').

Declare Scope monad_scope.
Delimit Scope monad_scope with monad.
Notation "x <- m ;; k" := (bind m (fun x => k))
  (at level 61, m at next level, right associativity) : monad_scope.
Notation "m ;;; k" := (bind m (fun _ => k))
  (at level 61, right associativity) : monad_scope.
Open Scope monad_scope.

(** [for (const x of l) { await f(x) }] *)
Fixpoint forEach {S A} (f : A -> M S unit) (l : list A) : M S unit :=
  match l with
  | [] => ret tt
  | x :: rest => f x ;;; forEach f rest
  end.

(** A loop that collects one value per element. *)
Fixpoint mapM {S A B} (f : A -> M S B) (l : list A) : M S (list B) :=
  match l with
  | [] => ret []
  | x :: rest => y <- f x ;; ys <- mapM f rest ;; ret (y :: ys)
  end.

(** A loop that threads a local variable. *)
Fixpoint foldM {S A B} (f : B -> A -> M S B) (acc : B) (l : list A) : M S B :=
  match l with
  | [] => ret acc
  | x :: rest => acc' <- f acc x ;; foldM f acc' rest
  end.

Definition when {S} (b : bool) (m : M S unit) : M S unit :=
  if b then m else ret tt.

(* ====================================================================== *)
(** ** Real-number tests *)
(* ====================================================================== *)

Definition Rleb (x y : R) : bool := if Rle_dec x y then true else false.
Definition Rltb (x y : R) : bool := if Rlt_dec x y then true else false.
Definition Reqb (x y : R) : bool := if Req_dec_T x y then true else false.

(* ====================================================================== *)
(** ** IndexedDBStore *)
(* ====================================================================== *)

(** One object store with key path [id].  [rows] is kept in ascending key
    order, the order in which [getAll] and a cursor enumerate it.
    [isOpen] is the field of the class.  [healthy] is the disposition of
    the underlying database: when it is [false] every request fires
    [onerror] (quota exceeded, I/O failure) instead of [onsuccess]. *)
Record Store (K V : Type) : Type := mkStore {
  isOpen : bool;
  healthy : bool;
  rows : list (K * V)
}.

Module IndexedDBStore.
Section Ops.
Variables K V : Type.
Variable cmp : K -> K -> comparison.

Definition keqb (a b : K) : bool :=
  match cmp a b with Eq => true | _ => false end.

Fixpoint insertRow (k : K) (v : V) (l : list (K * V)) : list (K * V) :=
  match l with
  | [] => [(k, v)]
  | (k', v') :: rest =>
      match cmp k k' with
      | Eq => (k, v) :: rest
      | Lt => (k, v) :: l
      | Gt => (k', v') :: insertRow k v rest
      end
  end.

Definition lookupRow (k : K) (l : list (K * V)) : option V :=
  match find (fun kv => keqb k (fst kv)) l with
  | Some kv => Some (snd kv)
  | None => None
  end.

Definition removeRow (k : K) (l : list (K * V)) : list (K * V) :=
  filter (fun kv => negb (keqb k (fst kv))) l.

(** The guard every method starts with, then the outcome of the request. *)
Definition request {A} (failure : string) (st : Store K V) (a : A) : Res A :=
  if negb (isOpen st) then Err "Store not open"
  else if negb (healthy st) then Err failure
  else Ok a.

Definition open (st : Store K V) : Res (Store K V) :=
  if isOpen st then Ok st
  else if healthy st then Ok (mkStore true (healthy st) (rows st))
  else Err "Failed to open".

Definition put (k : K) (v : V) (st : Store K V) : Res (Store K V) :=
  request "Put failed" st
    (mkStore (isOpen st) (healthy st) (insertRow k v (rows st))).

Definition get (k : K) (st : Store K V) : Res (option V) :=
  request "Get failed" st (lookupRow k (rows st)).

Definition getAll (st : Store K V) : Res (list V) :=
  request "GetAll failed" st (map snd (rows st)).

(** [iterateChunks] is an async generator whose body returns a promise and
    contains no [yield]: a [for await] loop over it receives no chunk. *)
Definition iterateChunks (chunkSize : Z) (st : Store K V) : Res (list (list V)) :=
  request "Cursor iteration failed" st [].

Definition delete (k : K) (st : Store K V) : Res (Store K V) :=
  request "Delete failed" st
    (mkStore (isOpen st) (healthy st) (removeRow k (rows st))).

Definition count (st : Store K V) : Res Z :=
  request "Count failed" st (Z.of_nat (length (rows st))).

Definition clear (st : Store K V) : Res (Store K V) :=
  request "Clear failed" st (mkStore (isOpen st) (healthy st) []).

Definition usable (st : Store K V) : Prop :=
  isOpen st = true /\ healthy st = true.

End Ops.
End IndexedDBStore.

(* ====================================================================== *)
(** ** Codec *)
(* ====================================================================== *)

(** Vector components are finite numbers, modelled as real numbers: the
    products, sums, quotients and square roots below are the exact ones,
    where the source rounds each to the nearest binary64 number.  That
    rounding is not modelled. *)

(** [Math.round]: the nearest integer, halves rounded up. *)
Definition Math_round (x : R) : Z := Int_part (x + / 2).

Definition quantizeInt8 (vec : list R) : list Z :=
  map (fun v => Z.max (-128) (Z.min 127 (Math_round (v * 127)))) vec.

Definition dequantizeInt8 (packed : list Z) : list R :=
  map (fun v => (IZR v / 127)%R) packed.

(** What a JavaScript expression of type number evaluates to. *)
Inductive Number : Type :=
| Finite (x : R)
| Infinity (negative : bool)
| NaN.

Module Float16.
Local Open Scope Z_scope.

(** An element as a [Uint16Array] stores it. *)
Definition toUint16 (x : Z) : Z := x mod 65536.

(** The callback of [quantizeFloat16] for one component, started from
    [bits], the 32 bits that [new Uint32Array(f32.buffer)[0]] reads off
    the single-precision value of the component. *)
Definition quantizeBits (bits : Z) : Z :=
  let sign := Z.land (Z.shiftr bits 31) 1 in
  let exp := Z.land (Z.shiftr bits 23) 255 in
  let frac := Z.land bits 8388607 in
  toUint16
    (if exp =? 255 then
       Z.lor (Z.lor (Z.shiftl sign 15) 31744) (if frac =? 0 then 0 else 512)
     else if exp =? 0 then Z.shiftl sign 15
     else
       let exp := exp - 127 + 15 in
       if 31 <=? exp then Z.lor (Z.shiftl sign 15) 31744
       else if exp <=? 0 then
         if exp <? -10 then Z.shiftl sign 15
         else
           let frac := Z.shiftr (Z.lor frac 8388608) (1 - exp) in
           Z.lor (Z.shiftl sign 15) (Z.shiftr frac 13)
       else
         Z.lor (Z.lor (Z.shiftl sign 15) (Z.shiftl exp 10)) (Z.shiftr frac 13)).

(** The callback of [dequantizeFloat16] for one element. *)
Definition dequantizeHalf (h : Z) : Number :=
  let sign := if Z.land h 32768 =? 0 then 1 else (-1) in
  let exp := Z.land (Z.shiftr h 10) 31 in
  let frac := Z.land h 1023 in
  if exp =? 0 then
    Finite (IZR sign * powerRZ 2 (-14) * (IZR frac / 1024))
  else if exp =? 31 then
    (if frac =? 0 then Infinity (sign <? 0) else NaN)
  else
    Finite (IZR sign * powerRZ 2 (exp - 15) * (1 + IZR frac / 1024)).

End Float16.

(** The three running sums of [cosineSimilarity]. *)
Fixpoint cosineSums (a b : list R) (dot normA normB : R) : R * R * R :=
  match a, b with
  | x :: a', y :: b' =>
      cosineSums a' b' (dot + x * y)%R (normA + x * x)%R (normB + y * y)%R
  | _, _ => (dot, normA, normB)
  end.

Definition cosineSimilarity (a b : list R) : Res R :=
  if negb (Nat.eqb (length a) (length b)) then Err "Vector dimension mismatch"
  else
    let '(dot, normA, normB) := cosineSums a b 0%R 0%R 0%R in
    let denom := (sqrt normA * sqrt normB)%R in
    Ok (if Rltb (1 / 1000000000) denom then (dot / denom)%R else 0%R).

(* ====================================================================== *)
(** ** Memory records *)
(* ====================================================================== *)

Inductive Tier : Type := HOT | WARM | COLD | UNKNOWN.

(** Values of the free-form metadata bag. *)
Inductive JSValue : Type :=
| JStr (s : string)
| JNum (z : Z)
| JBool (b : bool).

Definition Metadata : Type := list (string * JSValue).

Definition metadataGet (key : string) (m : Metadata) : option JSValue :=
  match find (fun kv => String.eqb key (fst kv)) m with
  | Some kv => Some (snd kv)
  | None => None
  end.

(** The object [toJSON] returns: the record without its embedding and
    without its embedding hash.  [j_currentTier] is optional because the
    object [_updateRecord] writes back has no such property. *)
Record RecordJSON : Type := mkJSON {
  j_id : string;
  j_text : string;
  j_timestamp : Z;
  j_lastAccessed : Z;
  j_episodic : bool;
  j_importance : R;
  j_usage_count : Z;
  j_semantic_cluster_id : option string;
  j_integrity_hash : string;
  j_currentTier : option Tier;
  j_metadata : Metadata;
  j_hnswHotId : option nat;
  j_hnswWarmId : option nat
}.

Record MemoryRecord : Type := mkRecord {
  id : string;
  embedding : list R;
  text : string;
  timestamp : Z;
  lastAccessed : Z;
  episodic : bool;
  importance : R;
  usage_count : Z;
  semantic_cluster_id : option string;
  integrity_hash : string;
  currentTier : Tier;
  embeddingHash : option string;
  metadata : Metadata;
  hnswHotId : option nat;
  hnswWarmId : option nat
}.

Definition setImportance (x : R) (r : MemoryRecord) : MemoryRecord :=
  mkRecord (id r) (embedding r) (text r) (timestamp r) (lastAccessed r)
    (episodic r) x (usage_count r) (semantic_cluster_id r)
    (integrity_hash r) (currentTier r) (embeddingHash r) (metadata r)
    (hnswHotId r) (hnswWarmId r).

Definition setUsage (u last : Z) (r : MemoryRecord) : MemoryRecord :=
  mkRecord (id r) (embedding r) (text r) (timestamp r) last
    (episodic r) (importance r) u (semantic_cluster_id r)
    (integrity_hash r) (currentTier r) (embeddingHash r) (metadata r)
    (hnswHotId r) (hnswWarmId r).

Definition setCluster (c : option string) (r : MemoryRecord) : MemoryRecord :=
  mkRecord (id r) (embedding r) (text r) (timestamp r) (lastAccessed r)
    (episodic r) (importance r) (usage_count r) c
    (integrity_hash r) (currentTier r) (embeddingHash r) (metadata r)
    (hnswHotId r) (hnswWarmId r).

Definition setTier (t : Tier) (r : MemoryRecord) : MemoryRecord :=
  mkRecord (id r) (embedding r) (text r) (timestamp r) (lastAccessed r)
    (episodic r) (importance r) (usage_count r) (semantic_cluster_id r)
    (integrity_hash r) t (embeddingHash r) (metadata r)
    (hnswHotId r) (hnswWarmId r).

Definition setHotId (h : option nat) (r : MemoryRecord) : MemoryRecord :=
  mkRecord (id r) (embedding r) (text r) (timestamp r) (lastAccessed r)
    (episodic r) (importance r) (usage_count r) (semantic_cluster_id r)
    (integrity_hash r) (currentTier r) (embeddingHash r) (metadata r)
    h (hnswWarmId r).

Definition setWarmId (h : option nat) (r : MemoryRecord) : MemoryRecord :=
  mkRecord (id r) (embedding r) (text r) (timestamp r) (lastAccessed r)
    (episodic r) (importance r) (usage_count r) (semantic_cluster_id r)
    (integrity_hash r) (currentTier r) (embeddingHash r) (metadata r)
    (hnswHotId r) h.

(** [Math.max(0, Math.min(1, importance))] for a finite [importance]; the
    other numbers are the matter of [constructedImportance] below. *)
Definition clamp01 (x : R) : R := Rmax 0 (Rmin 1 x).

(** [new MemoryRecord(fields)]: [fields] is the argument object after its
    defaults were filled in; the constructor copies every field and clamps
    the importance. *)
Definition newMemoryRecord (fields : MemoryRecord) : MemoryRecord :=
  setImportance (clamp01 (importance fields)) fields.

Definition HALF_LIFE : Z := 14 * 24 * 60 * 60 * 1000.
Definition SCALE : Z := 7 * 24 * 60 * 60 * 1000.

(** The getters read the clock; [now] is what [Date.now()] returns.  They
    are computed over the real numbers, where [exp] is never 0; the
    [Math.exp] of the source answers 0 once the age exceeds about 745
    half-lives. *)
Definition age (now : Z) (r : MemoryRecord) : R := IZR (now - timestamp r).

Definition decay_score (now : Z) (r : MemoryRecord) : R :=
  exp (- age now r / IZR HALF_LIFE).

Definition temporal_weight (now : Z) (r : MemoryRecord) : R :=
  (1 / (1 + age now r / IZR SCALE))%R.

Definition effective_weight (now : Z) (r : MemoryRecord) : R :=
  (importance r * decay_score now r * temporal_weight now r)%R.

(** The importance handed to the constructor is any JavaScript number.
    [Math.min] and [Math.max] answer NaN as soon as an argument is NaN. *)
Definition Math_min (a b : Number) : Number :=
  match a, b with
  | NaN, _ => NaN
  | _, NaN => NaN
  | Infinity true, _ => Infinity true
  | _, Infinity true => Infinity true
  | Infinity false, y => y
  | x, Infinity false => x
  | Finite x, Finite y => Finite (Rmin x y)
  end.

Definition Math_max (a b : Number) : Number :=
  match a, b with
  | NaN, _ => NaN
  | _, NaN => NaN
  | Infinity false, _ => Infinity false
  | _, Infinity false => Infinity false
  | Infinity true, y => y
  | x, Infinity true => x
  | Finite x, Finite y => Finite (Rmax x y)
  end.

(** The product of two numbers. *)
Definition times (a b : Number) : Number :=
  match a, b with
  | NaN, _ => NaN
  | _, NaN => NaN
  | Finite x, Finite y => Finite (x * y)
  | Infinity n, Finite y =>
      if Reqb y 0 then NaN else Infinity (xorb n (Rltb y 0))
  | Finite x, Infinity m =>
      if Reqb x 0 then NaN else Infinity (xorb (Rltb x 0) m)
  | Infinity n, Infinity m => Infinity (xorb n m)
  end.

(** [this.importance] as the constructor leaves it:
    [Math.max(0, Math.min(1, importance))]. *)
Definition constructedImportance (importance : Number) : Number :=
  Math_max (Finite 0) (Math_min (Finite 1) importance).

(** The getter [effective_weight] of a record whose [importance] field
    holds the number [importance]. *)
Definition effective_weight_of (importance : Number) (now : Z)
    (r : MemoryRecord) : Number :=
  times (times importance (Finite (decay_score now r)))
        (Finite (temporal_weight now r)).

(** A number of the interval [0,1]; NaN and the infinities are none. *)
Definition inUnitInterval (n : Number) : Prop :=
  match n with
  | Finite x => (0 <= x <= 1)%R
  | _ => False
  end.

Definition access (simulate : bool) (now : Z) (r : MemoryRecord) : MemoryRecord :=
  if simulate then r else setUsage (usage_count r + 1) now r.

Definition toJSON (r : MemoryRecord) : RecordJSON :=
  mkJSON (id r) (text r) (timestamp r) (lastAccessed r) (episodic r)
    (importance r) (usage_count r) (semantic_cluster_id r)
    (integrity_hash r) (Some (currentTier r)) (metadata r)
    (hnswHotId r) (hnswWarmId r).

(** The argument object [{...json, embedding, currentTier}]. *)
Definition fieldsOfJSON (j : RecordJSON) (emb : list R) (tier : Tier) : MemoryRecord :=
  mkRecord (j_id j) emb (j_text j) (j_timestamp j) (j_lastAccessed j)
    (j_episodic j) (j_importance j) (j_usage_count j)
    (j_semantic_cluster_id j) (j_integrity_hash j) tier None (j_metadata j)
    (j_hnswHotId j) (j_hnswWarmId j).

(** A row of the WARM or COLD store: [{...record.toJSON(), embedding}] with
    the embedding packed as float16 (WARM) or int8 (COLD) integers. *)
Record Row : Type := mkRow {
  r_json : RecordJSON;
  r_embedding : list Z
}.

Record JournalEntry : Type := mkEntry {
  e_id : Z;
  e_timestamp : Z;
  e_record : RecordJSON
}.

(** Rows of the meta store: [{id, jwk}] and [{id, value}]. *)
Inductive MetaRow : Type :=
| MetaJwk (jwk : string)
| MetaString (value : string)
| MetaNumber (value : Z).

(* ====================================================================== *)
(** ** The approximate-nearest-neighbour index *)
(* ====================================================================== *)

(** Modelled from the spec: the ANN index of section 4.3, which the engine
    imports from the package [edgevec]; the package is not part of the
    repository.  [insertWithMetadata] returns a stable handle,
    [softDelete] removes a node logically, [compact] removes soft-deleted
    nodes physically, [getAllMetadata] lists the metadata of the live
    nodes and [searchBQ] never returns a soft-deleted node.  Which live
    nodes a query ranks first, and with which score, is left to the
    ranking function [ann] of the environment. *)
Record Node (Meta : Type) : Type := mkNode {
  n_handle : nat;
  n_vector : list R;
  n_meta : Meta;
  n_deleted : bool
}.

Record Index (Meta : Type) : Type := mkIndex {
  nodes : list (Node Meta);
  nextHandle : nat
}.

Record Hit (Meta : Type) : Type := mkHit {
  hit_metadata : Meta;
  hit_score : R;
  hit_embedding : option (list R)
}.

Module EdgeVec.
Section Ops.
Variable Meta : Type.

Definition create : Index Meta := mkIndex [] 0.

Definition insertWithMetadata (v : list R) (m : Meta) (idx : Index Meta)
  : nat * Index Meta :=
  (nextHandle idx,
   mkIndex (nodes idx ++ [mkNode (nextHandle idx) v m false])
           (S (nextHandle idx))).

Definition softDelete (h : nat) (idx : Index Meta) : Index Meta :=
  mkIndex
    (map (fun n => if Nat.eqb (n_handle n) h
                   then mkNode (n_handle n) (n_vector n) (n_meta n) true
                   else n) (nodes idx))
    (nextHandle idx).

Definition updateMetadata (h : nat) (m : Meta) (idx : Index Meta) : Index Meta :=
  mkIndex
    (map (fun n => if Nat.eqb (n_handle n) h
                   then mkNode (n_handle n) (n_vector n) m (n_deleted n)
                   else n) (nodes idx))
    (nextHandle idx).

Definition live (idx : Index Meta) : list (Node Meta) :=
  filter (fun n => negb (n_deleted n)) (nodes idx).

Definition compact (idx : Index Meta) : Index Meta :=
  mkIndex (live idx) (nextHandle idx).

Definition getAllMetadata (idx : Index Meta) : list Meta :=
  map (@n_meta Meta) (live idx).

Definition nodeOf (idx : Index Meta) (h : nat) : option (Node Meta) :=
  find (fun n => Nat.eqb (n_handle n) h) (live idx).

Definition searchBQ (ann : list R -> list (nat * list R) -> list (nat * R))
    (carry : bool) (idx : Index Meta) (query : list R) (k : nat)
  : list (Hit Meta) :=
  let ranked := ann query (map (fun n => (n_handle n, n_vector n)) (live idx)) in
  firstn k
    (flat_map (fun hs =>
       match nodeOf idx (fst hs) with
       | Some n => [mkHit (n_meta n) (snd hs)
                      (if carry then Some (n_vector n) else None)]
       | None => []
       end) ranked).

End Ops.
End EdgeVec.

(* ====================================================================== *)
(** ** External collaborators *)
(* ====================================================================== *)

Record Env : Type := mkEnv {
  (** [crypto.subtle.digest('SHA-256', ...)] rendered in hexadecimal *)
  sha256 : string -> string;
  (** [v.toFixed(8)] *)
  toFixed8 : R -> string;
  (** the Ollama embedding request, after its retries *)
  fetchEmbedding : string -> Res (list R);
  (** the Ollama generation request, after its retries *)
  generate : string -> Res string;
  (** [hcluster(vectors, 'cosine', 'average')]: the leaves of each cluster *)
  hcluster : list (list R) -> list (list (list R));
  (** the ranking of the live nodes of an index for a query *)
  ann : list R -> list (nat * list R) -> list (nat * R);
  (** whether a search hit of the index carries the stored vector *)
  hitsCarryVectors : bool;
  (** the IEEE-754 half-precision codec of the WARM tier *)
  quantizeFloat16 : list R -> list Z;
  dequantizeFloat16 : list Z -> list R;
  (** [crypto.randomUUID()] and the exported [generateKey] result *)
  randomUUID : string;
  generateKey : string;
  (** the text of a number and of one draw of [Math.random()] *)
  showNumber : Z -> string;
  mathRandom : string
}.

Definition newline : string := String (Ascii.ascii_of_nat 10) EmptyString.

Fixpoint join (sep : string) (l : list string) : string :=
  match l with
  | [] => ""
  | [x] => x
  | x :: rest => x ++ sep ++ join sep rest
  end.

Definition hashEmbedding (env : Env) (emb : list R) : string :=
  sha256 env (join "," (map (toFixed8 env) emb)).

(** [OllamaBrowserSafe.embed] *)
Definition ollama_embed (env : Env) (text : string) : Res (list R) :=
  if String.eqb text "" then Err "Invalid text for embedding"
  else fetchEmbedding env text.

(* ====================================================================== *)
(** ** The Ollama client *)
(* ====================================================================== *)

(** How one [fetch] ends: with a response, whose body [response.json()]
    parses or rejects; with the abort of the timeout; or with another
    error.  [embedding] is [data.embedding] when it is an array. *)
Inductive FetchOutcome : Type :=
| Answered (ok : bool) (status : string) (embedding : Res (option (list R)))
| Aborted
| Failed (msg : string).

(** The network as the client meets it: the outcomes of the requests to
    come, the requests made so far and the delays slept so far. *)
Record Net : Type := mkNet {
  outcomes : list FetchOutcome;
  requested : list string;
  slept : list Z
}.

Module OllamaBrowserSafe.
Local Open Scope Z_scope.

Definition REQUEST_TIMEOUT_MS : Z := 30000.
Definition MAX_RETRIES : nat := 3.
Definition RETRY_DELAY_MS : Z := 1000.

Definition sleep (ms : Z) : M Net unit :=
  modify (fun n => mkNet (outcomes n) (requested n) (slept n ++ [ms])).

(** [fetch(url, ...)]: the next outcome; a network without outcomes left
    refuses the connection. *)
Definition fetch (body : string) : M Net FetchOutcome :=
  fun n => match outcomes n with
           | o :: rest => (Ok o, mkNet rest (requested n ++ [body]) (slept n))
           | [] => (Ok (Failed "Failed to fetch"),
                    mkNet [] (requested n ++ [body]) (slept n))
           end.

Section Client.
Variable showZ : Z -> string.

Definition _fetchWithTimeout (body : string)
  : M Net (bool * string * Res (option (list R))) :=
  o <- fetch body ;;
  match o with
  | Answered ok status data => ret (ok, status, data)
  | Aborted =>
      throw ("Request timeout after " ++ showZ REQUEST_TIMEOUT_MS ++ "ms")
  | Failed msg => throw msg
  end.

(** The loop of [_retryableRequest] from [attempt] on, with
    [remaining = retries - attempt] rounds to go. *)
Fixpoint retryLoop {A} (requestFn : M Net A) (retries remaining : nat)
    (lastError : option string) : M Net A :=
  match remaining with
  | O =>
      match lastError with
      | Some msg =>
          throw ("Request failed after " ++ showZ (Z.of_nat retries)
                   ++ " attempts: " ++ msg)
      | None => throw "Cannot read properties of undefined"
      end
  | S rest =>
      let attempt := (retries - remaining)%nat in
      tryCatch requestFn
        (fun error =>
           when (Nat.ltb attempt (retries - 1))
                (sleep (RETRY_DELAY_MS * 2 ^ Z.of_nat attempt)) ;;;
           retryLoop requestFn retries rest (Some error))
  end.

Definition _retryableRequest {A} (requestFn : M Net A) (retries : nat)
  : M Net A :=
  retryLoop requestFn retries retries None.

(** The request function of [embed]. *)
Definition embedRequest (text : string) : M Net (list R) :=
  response <- _fetchWithTimeout text ;;
  let '(ok, status, data) := response in
  if negb ok then throw ("Ollama embed failed: " ++ status)
  else
    match data with
    | Err e => throw e
    | Ok None => throw "Invalid embedding response from Ollama"
    | Ok (Some embedding) => ret embedding
    end.

Definition embed (text : string) : M Net (list R) :=
  if String.eqb text "" then throw "Invalid text for embedding"
  else _retryableRequest (embedRequest text) MAX_RETRIES.

End Client.
End OllamaBrowserSafe.

(* ====================================================================== *)
(** ** The engine *)
(* ====================================================================== *)

Record Config : Type := mkConfig {
  U_hot : Z;
  I_hot : R;
  D_warm : R;
  epsilon : R;
  consolidationInterval : Z;
  consolidationChunkSize : Z;
  journalRotationSize : Z;
  coldSearchChunkSize : Z;
  demotionUsageThreshold : Z;
  compactionThreshold : Z;
  mutationBatchSize : Z;
  useAdvancedClustering : bool;
  advancedClusteringThreshold : Z;
  clusterDiameter : R;
  maxClustersPerPass : Z
}.

Definition defaultConfig : Config :=
  mkConfig 10 (8 / 10) (1 / 10) (1 / 100) 100 500 10000 1000 2 100 10
           true 5000 (3 / 10) 100.

(** A callback handed to [setImmediate]. *)
Inductive Task : Type :=
| TaskConsolidate
| TaskRotateJournal
| TaskSave
| TaskCompact.

Inductive StoreName : Type := WarmDB | ColdDB | JournalDB | MetaDB.

Inductive StoreOp : Type :=
| OpPut | OpGet | OpGetAll | OpIterateChunks | OpDelete | OpCount | OpClear.

(** One call of a store method: whether the request succeeded, how many
    rows it handed back to the engine, and the integer it wrote when it
    wrote one (the id of a journal entry, the value of a counter row). *)
Record IOEvent : Type := mkIO {
  io_store : StoreName;
  io_op : StoreOp;
  io_ok : bool;
  io_rows : nat;
  io_num : option Z
}.

(** The fields of an [SCMP] instance.  The four stores and the two saved
    indexes are the persistent state; [savedHot] and [savedWarm] are what
    [EdgeVec.load] finds.  [pending] is the [setImmediate] queue and
    [ioLog] records the store methods called so far.  The [core] store is
    reserved and never read or written, so it is left out. *)
Record SCMP : Type := mkSCMP {
  config : Config;
  warmStore : Store string Row;
  coldStore : Store string Row;
  journalStore : Store Z JournalEntry;
  metaStore : Store string MetaRow;
  hnswHot : Index RecordJSON;
  hnswWarm : Index RecordJSON;
  savedHot : option (Index RecordJSON);
  savedWarm : option (Index RecordJSON);
  initialized : bool;
  salt : string;
  journalCounter : Z;
  recordsSinceConsolidation : Z;
  deletionsSinceCompaction : Z;
  mutationsSinceLastSave : Z;
  lock_search : bool;
  lock_consolidate : bool;
  lock_prune : bool;
  lock_compact : bool;
  pending : list Task;
  ioLog : list IOEvent
}.

Definition set_config (v : Config) (s : SCMP) : SCMP :=
  mkSCMP v (warmStore s) (coldStore s) (journalStore s) (metaStore s)
    (hnswHot s) (hnswWarm s) (savedHot s) (savedWarm s) (initialized s)
    (salt s) (journalCounter s) (recordsSinceConsolidation s)
    (deletionsSinceCompaction s) (mutationsSinceLastSave s) (lock_search s)
    (lock_consolidate s) (lock_prune s) (lock_compact s) (pending s)
    (ioLog s).

Definition set_warmStore (v : Store string Row) (s : SCMP) : SCMP :=
  mkSCMP (config s) v (coldStore s) (journalStore s) (metaStore s)
    (hnswHot s) (hnswWarm s) (savedHot s) (savedWarm s) (initialized s)
    (salt s) (journalCounter s) (recordsSinceConsolidation s)
    (deletionsSinceCompaction s) (mutationsSinceLastSave s) (lock_search s)
    (lock_consolidate s) (lock_prune s) (lock_compact s) (pending s)
    (ioLog s).

Definition set_coldStore (v : Store string Row) (s : SCMP) : SCMP :=
  mkSCMP (config s) (warmStore s) v (journalStore s) (metaStore s)
    (hnswHot s) (hnswWarm s) (savedHot s) (savedWarm s) (initialized s)
    (salt s) (journalCounter s) (recordsSinceConsolidation s)
    (deletionsSinceCompaction s) (mutationsSinceLastSave s) (lock_search s)
    (lock_consolidate s) (lock_prune s) (lock_compact s) (pending s)
    (ioLog s).

Definition set_journalStore (v : Store Z JournalEntry) (s : SCMP) : SCMP :=
  mkSCMP (config s) (warmStore s) (coldStore s) v (metaStore s) (hnswHot s)
    (hnswWarm s) (savedHot s) (savedWarm s) (initialized s) (salt s)
    (journalCounter s) (recordsSinceConsolidation s)
    (deletionsSinceCompaction s) (mutationsSinceLastSave s) (lock_search s)
    (lock_consolidate s) (lock_prune s) (lock_compact s) (pending s)
    (ioLog s).

Definition set_metaStore (v : Store string MetaRow) (s : SCMP) : SCMP :=
  mkSCMP (config s) (warmStore s) (coldStore s) (journalStore s) v
    (hnswHot s) (hnswWarm s) (savedHot s) (savedWarm s) (initialized s)
    (salt s) (journalCounter s) (recordsSinceConsolidation s)
    (deletionsSinceCompaction s) (mutationsSinceLastSave s) (lock_search s)
    (lock_consolidate s) (lock_prune s) (lock_compact s) (pending s)
    (ioLog s).

Definition set_hnswHot (v : Index RecordJSON) (s : SCMP) : SCMP :=
  mkSCMP (config s) (warmStore s) (coldStore s) (journalStore s)
    (metaStore s) v (hnswWarm s) (savedHot s) (savedWarm s) (initialized s)
    (salt s) (journalCounter s) (recordsSinceConsolidation s)
    (deletionsSinceCompaction s) (mutationsSinceLastSave s) (lock_search s)
    (lock_consolidate s) (lock_prune s) (lock_compact s) (pending s)
    (ioLog s).

Definition set_hnswWarm (v : Index RecordJSON) (s : SCMP) : SCMP :=
  mkSCMP (config s) (warmStore s) (coldStore s) (journalStore s)
    (metaStore s) (hnswHot s) v (savedHot s) (savedWarm s) (initialized s)
    (salt s) (journalCounter s) (recordsSinceConsolidation s)
    (deletionsSinceCompaction s) (mutationsSinceLastSave s) (lock_search s)
    (lock_consolidate s) (lock_prune s) (lock_compact s) (pending s)
    (ioLog s).

Definition set_savedHot (v : option (Index RecordJSON)) (s : SCMP) : SCMP :=
  mkSCMP (config s) (warmStore s) (coldStore s) (journalStore s)
    (metaStore s) (hnswHot s) (hnswWarm s) v (savedWarm s) (initialized s)
    (salt s) (journalCounter s) (recordsSinceConsolidation s)
    (deletionsSinceCompaction s) (mutationsSinceLastSave s) (lock_search s)
    (lock_consolidate s) (lock_prune s) (lock_compact s) (pending s)
    (ioLog s).

Definition set_savedWarm (v : option (Index RecordJSON)) (s : SCMP) : SCMP :=
  mkSCMP (config s) (warmStore s) (coldStore s) (journalStore s)
    (metaStore s) (hnswHot s) (hnswWarm s) (savedHot s) v (initialized s)
    (salt s) (journalCounter s) (recordsSinceConsolidation s)
    (deletionsSinceCompaction s) (mutationsSinceLastSave s) (lock_search s)
    (lock_consolidate s) (lock_prune s) (lock_compact s) (pending s)
    (ioLog s).

Definition set_initialized (v : bool) (s : SCMP) : SCMP :=
  mkSCMP (config s) (warmStore s) (coldStore s) (journalStore s)
    (metaStore s) (hnswHot s) (hnswWarm s) (savedHot s) (savedWarm s) v
    (salt s) (journalCounter s) (recordsSinceConsolidation s)
    (deletionsSinceCompaction s) (mutationsSinceLastSave s) (lock_search s)
    (lock_consolidate s) (lock_prune s) (lock_compact s) (pending s)
    (ioLog s).

Definition set_salt (v : string) (s : SCMP) : SCMP :=
  mkSCMP (config s) (warmStore s) (coldStore s) (journalStore s)
    (metaStore s) (hnswHot s) (hnswWarm s) (savedHot s) (savedWarm s)
    (initialized s) v (journalCounter s) (recordsSinceConsolidation s)
    (deletionsSinceCompaction s) (mutationsSinceLastSave s) (lock_search s)
    (lock_consolidate s) (lock_prune s) (lock_compact s) (pending s)
    (ioLog s).

Definition set_journalCounter (v : Z) (s : SCMP) : SCMP :=
  mkSCMP (config s) (warmStore s) (coldStore s) (journalStore s)
    (metaStore s) (hnswHot s) (hnswWarm s) (savedHot s) (savedWarm s)
    (initialized s) (salt s) v (recordsSinceConsolidation s)
    (deletionsSinceCompaction s) (mutationsSinceLastSave s) (lock_search s)
    (lock_consolidate s) (lock_prune s) (lock_compact s) (pending s)
    (ioLog s).

Definition set_recordsSinceConsolidation (v : Z) (s : SCMP) : SCMP :=
  mkSCMP (config s) (warmStore s) (coldStore s) (journalStore s)
    (metaStore s) (hnswHot s) (hnswWarm s) (savedHot s) (savedWarm s)
    (initialized s) (salt s) (journalCounter s) v
    (deletionsSinceCompaction s) (mutationsSinceLastSave s) (lock_search s)
    (lock_consolidate s) (lock_prune s) (lock_compact s) (pending s)
    (ioLog s).

Definition set_deletionsSinceCompaction (v : Z) (s : SCMP) : SCMP :=
  mkSCMP (config s) (warmStore s) (coldStore s) (journalStore s)
    (metaStore s) (hnswHot s) (hnswWarm s) (savedHot s) (savedWarm s)
    (initialized s) (salt s) (journalCounter s)
    (recordsSinceConsolidation s) v (mutationsSinceLastSave s)
    (lock_search s) (lock_consolidate s) (lock_prune s) (lock_compact s)
    (pending s) (ioLog s).

Definition set_mutationsSinceLastSave (v : Z) (s : SCMP) : SCMP :=
  mkSCMP (config s) (warmStore s) (coldStore s) (journalStore s)
    (metaStore s) (hnswHot s) (hnswWarm s) (savedHot s) (savedWarm s)
    (initialized s) (salt s) (journalCounter s)
    (recordsSinceConsolidation s) (deletionsSinceCompaction s) v
    (lock_search s) (lock_consolidate s) (lock_prune s) (lock_compact s)
    (pending s) (ioLog s).

Definition set_lock_search (v : bool) (s : SCMP) : SCMP :=
  mkSCMP (config s) (warmStore s) (coldStore s) (journalStore s)
    (metaStore s) (hnswHot s) (hnswWarm s) (savedHot s) (savedWarm s)
    (initialized s) (salt s) (journalCounter s)
    (recordsSinceConsolidation s) (deletionsSinceCompaction s)
    (mutationsSinceLastSave s) v (lock_consolidate s) (lock_prune s)
    (lock_compact s) (pending s) (ioLog s).

Definition set_lock_consolidate (v : bool) (s : SCMP) : SCMP :=
  mkSCMP (config s) (warmStore s) (coldStore s) (journalStore s)
    (metaStore s) (hnswHot s) (hnswWarm s) (savedHot s) (savedWarm s)
    (initialized s) (salt s) (journalCounter s)
    (recordsSinceConsolidation s) (deletionsSinceCompaction s)
    (mutationsSinceLastSave s) (lock_search s) v (lock_prune s)
    (lock_compact s) (pending s) (ioLog s).

Definition set_lock_prune (v : bool) (s : SCMP) : SCMP :=
  mkSCMP (config s) (warmStore s) (coldStore s) (journalStore s)
    (metaStore s) (hnswHot s) (hnswWarm s) (savedHot s) (savedWarm s)
    (initialized s) (salt s) (journalCounter s)
    (recordsSinceConsolidation s) (deletionsSinceCompaction s)
    (mutationsSinceLastSave s) (lock_search s) (lock_consolidate s) v
    (lock_compact s) (pending s) (ioLog s).

Definition set_lock_compact (v : bool) (s : SCMP) : SCMP :=
  mkSCMP (config s) (warmStore s) (coldStore s) (journalStore s)
    (metaStore s) (hnswHot s) (hnswWarm s) (savedHot s) (savedWarm s)
    (initialized s) (salt s) (journalCounter s)
    (recordsSinceConsolidation s) (deletionsSinceCompaction s)
    (mutationsSinceLastSave s) (lock_search s) (lock_consolidate s)
    (lock_prune s) v (pending s) (ioLog s).

Definition set_pending (v : list Task) (s : SCMP) : SCMP :=
  mkSCMP (config s) (warmStore s) (coldStore s) (journalStore s)
    (metaStore s) (hnswHot s) (hnswWarm s) (savedHot s) (savedWarm s)
    (initialized s) (salt s) (journalCounter s)
    (recordsSinceConsolidation s) (deletionsSinceCompaction s)
    (mutationsSinceLastSave s) (lock_search s) (lock_consolidate s)
    (lock_prune s) (lock_compact s) v (ioLog s).

Definition set_ioLog (v : list IOEvent) (s : SCMP) : SCMP :=
  mkSCMP (config s) (warmStore s) (coldStore s) (journalStore s)
    (metaStore s) (hnswHot s) (hnswWarm s) (savedHot s) (savedWarm s)
    (initialized s) (salt s) (journalCounter s)
    (recordsSinceConsolidation s) (deletionsSinceCompaction s)
    (mutationsSinceLastSave s) (lock_search s) (lock_consolidate s)
    (lock_prune s) (lock_compact s) (pending s) v.


Definition Eng : Type -> Type := M SCMP.

Definition liftRes {A} (r : Res A) : Eng A := fun s => (r, s).

Definition logIO (ev : IOEvent) (s : SCMP) : SCMP :=
  set_ioLog (ioLog s ++ [ev]) s.

(** A store method that reads: the engine changes in its log only. *)
Definition readStore {K V A} (name : StoreName) (op : StoreOp)
    (proj : SCMP -> Store K V) (f : Store K V -> Res A) (size : A -> nat)
  : Eng A :=
  fun s => match f (proj s) with
           | Ok a => (Ok a, logIO (mkIO name op true (size a) None) s)
           | Err e => (Err e, logIO (mkIO name op false 0 None) s)
           end.

(** A store method that writes. *)
Definition writeStore {K V} (name : StoreName) (op : StoreOp)
    (proj : SCMP -> Store K V) (inj : Store K V -> SCMP -> SCMP)
    (f : Store K V -> Res (Store K V)) (num : option Z)
  : Eng unit :=
  fun s => match f (proj s) with
           | Ok st => (Ok tt, logIO (mkIO name op true 0 num) (inj st s))
           | Err e => (Err e, logIO (mkIO name op false 0 num) s)
           end.

Definition found {A} (o : option A) : nat :=
  match o with Some _ => 1 | None => 0 end.

Definition isSome {A} (o : option A) : bool :=
  match o with Some _ => true | None => false end.

Definition warm_get (k : string) : Eng (option Row) :=
  readStore WarmDB OpGet warmStore (IndexedDBStore.get String.compare k) found.
Definition warm_getAll : Eng (list Row) :=
  readStore WarmDB OpGetAll warmStore (@IndexedDBStore.getAll _ _) (@length _).
Definition warm_count : Eng Z :=
  readStore WarmDB OpCount warmStore (@IndexedDBStore.count _ _) (fun _ => 0).
Definition warm_put (row : Row) : Eng unit :=
  writeStore WarmDB OpPut warmStore set_warmStore
    (IndexedDBStore.put String.compare (j_id (r_json row)) row) None.
Definition warm_delete (k : string) : Eng unit :=
  writeStore WarmDB OpDelete warmStore set_warmStore
    (IndexedDBStore.delete String.compare k) None.

Definition cold_get (k : string) : Eng (option Row) :=
  readStore ColdDB OpGet coldStore (IndexedDBStore.get String.compare k) found.
Definition cold_getAll : Eng (list Row) :=
  readStore ColdDB OpGetAll coldStore (@IndexedDBStore.getAll _ _) (@length _).
Definition cold_count : Eng Z :=
  readStore ColdDB OpCount coldStore (@IndexedDBStore.count _ _) (fun _ => 0).
Definition cold_put (row : Row) : Eng unit :=
  writeStore ColdDB OpPut coldStore set_coldStore
    (IndexedDBStore.put String.compare (j_id (r_json row)) row) None.
Definition cold_delete (k : string) : Eng unit :=
  writeStore ColdDB OpDelete coldStore set_coldStore
    (IndexedDBStore.delete String.compare k) None.

Definition warm_clear : Eng unit :=
  writeStore WarmDB OpClear warmStore set_warmStore
    (@IndexedDBStore.clear _ _) None.
Definition cold_clear : Eng unit :=
  writeStore ColdDB OpClear coldStore set_coldStore
    (@IndexedDBStore.clear _ _) None.

Definition journal_put (e : JournalEntry) : Eng unit :=
  writeStore JournalDB OpPut journalStore set_journalStore
    (IndexedDBStore.put Z.compare (e_id e) e) (Some (e_id e)).
Definition journal_count : Eng Z :=
  readStore JournalDB OpCount journalStore (@IndexedDBStore.count _ _) (fun _ => 0).
Definition journal_clear : Eng unit :=
  writeStore JournalDB OpClear journalStore set_journalStore
    (@IndexedDBStore.clear _ _) None.

Definition meta_get (k : string) : Eng (option MetaRow) :=
  readStore MetaDB OpGet metaStore (IndexedDBStore.get String.compare k) found.
Definition meta_put (k : string) (row : MetaRow) : Eng unit :=
  writeStore MetaDB OpPut metaStore set_metaStore
    (IndexedDBStore.put String.compare k row)
    (match row with MetaNumber v => Some v | _ => None end).

Definition schedule (t : Task) : Eng unit :=
  modify (fun s => set_pending (pending s ++ [t]) s).

(** [counterData.value] of the row stored under ['journal_counter'] *)
Definition metaNumber (row : MetaRow) : Z :=
  match row with MetaNumber v => v | _ => 0 end.

(** [for (i = 0; i < l.length; i += size) l.slice(i, i + size)].  The loop
    of the source does not end when [size < 1]; the definition is meant
    for [1 <= size]. *)
Fixpoint chunksFrom {A} (fuel size : nat) (l : list A) : list (list A) :=
  match fuel, l with
  | S fuel', _ :: _ => firstn size l :: chunksFrom fuel' size (skipn size l)
  | _, _ => []
  end.

Definition chunks {A} (size : Z) (l : list A) : list (list A) :=
  chunksFrom (length l) (Z.to_nat size) l.

(** [list.sort((a, b) => b.score - a.score)]: stable, best score first. *)
Fixpoint insertByScore {A} (score : A -> R) (x : A) (l : list A) : list A :=
  match l with
  | [] => [x]
  | y :: rest =>
      if Rleb (score y) (score x) then x :: l
      else y :: insertByScore score x rest
  end.

Fixpoint sortByScore {A} (score : A -> R) (l : list A) : list A :=
  match l with
  | [] => []
  | x :: rest => insertByScore score x (sortByScore score rest)
  end.

(** [ids.sort()] *)
Fixpoint insertString (x : string) (l : list string) : list string :=
  match l with
  | [] => [x]
  | y :: rest => if String.leb x y then x :: l else y :: insertString x rest
  end.

Definition sortStrings (l : list string) : list string :=
  fold_right insertString [] l.

(** One entry of the array [search] returns. *)
Record SearchResult : Type := mkResult {
  sr_record : RecordJSON;
  sr_score : R;
  sr_simulatedTier : Tier;
  sr_similarity : R
}.

(** The [filters] option of [search]: the two properties the method reads
    and every other property of the object. *)
Record Filters : Type := mkFilters {
  f_episodic : option bool;
  f_minImportance : option R;
  f_others : Metadata
}.

Record CreateOptions : Type := mkOptions {
  o_episodic : option bool;
  o_importance : option R;
  o_metadata : option Metadata
}.

Definition orDefault {A} (o : option A) (d : A) : A :=
  match o with Some a => a | None => d end.

(** The object [meta] that [_updateRecord] builds: no [currentTier]. *)
Definition metaOf (j : RecordJSON) : RecordJSON :=
  mkJSON (j_id j) (j_text j) (j_timestamp j) (j_lastAccessed j)
    (j_episodic j) (j_importance j) (j_usage_count j)
    (j_semantic_cluster_id j) (j_integrity_hash j) None (j_metadata j)
    (j_hnswHotId j) (j_hnswWarmId j).

(** [{...row, ...meta}] *)
Definition mergeRow (row : Row) (meta : RecordJSON) : Row :=
  mkRow (mkJSON (j_id meta) (j_text meta) (j_timestamp meta)
           (j_lastAccessed meta) (j_episodic meta) (j_importance meta)
           (j_usage_count meta) (j_semantic_cluster_id meta)
           (j_integrity_hash meta) (j_currentTier (r_json row))
           (j_metadata meta) (j_hnswHotId meta) (j_hnswWarmId meta))
        (r_embedding row).

Section Engine.

Variable env : Env.

(** What [Date.now()] returns while the method runs. *)
Variable now : Z.

Definition ensureInitialized : Eng unit :=
  fun s => if initialized s then (Ok tt, s)
           else (Err "SCMP not initialized. Call await scmp.initialize() first.", s).

Definition _hash (t : string) : Eng string :=
  gets (fun s => sha256 env (t ++ salt s)).

Definition _loadJournalCounter : Eng unit :=
  counterData <- meta_get "journal_counter" ;;
  modify (set_journalCounter
            (match counterData with Some row => metaNumber row | None => 0%Z end)).

Definition _incrementJournalCounter : Eng Z :=
  modify (fun s => set_journalCounter (journalCounter s + 1) s) ;;;
  c <- gets journalCounter ;;
  meta_put "journal_counter" (MetaNumber c) ;;;
  gets journalCounter.

Definition appendJournal (record : MemoryRecord) : Eng unit :=
  ensureInitialized ;;;
  tryCatch
    (journalId <- _incrementJournalCounter ;;
     journal_put (mkEntry journalId now (toJSON record)) ;;;
     count <- journal_count ;;
     rotation <- gets (fun s => journalRotationSize (config s)) ;;
     when (rotation <=? count)%Z (schedule TaskRotateJournal))
    (fun _ => ret tt).

Definition rotateJournal : Eng unit :=
  ensureInitialized ;;;
  tryCatch
    (count <- journal_count ;;
     rotation <- gets (fun s => journalRotationSize (config s)) ;;
     if (count <? rotation)%Z then ret tt else journal_clear)
    (fun _ => ret tt).

Definition save : Eng unit :=
  ensureInitialized ;;;
  modify (fun s => set_savedWarm (Some (hnswWarm s))
                     (set_savedHot (Some (hnswHot s)) s)).

Definition _trackMutation : Eng unit :=
  modify (fun s => set_mutationsSinceLastSave (mutationsSinceLastSave s + 1) s) ;;;
  m <- gets mutationsSinceLastSave ;;
  batch <- gets (fun s => mutationBatchSize (config s)) ;;
  when (batch <=? m)%Z (schedule TaskSave).

(** [this.hnswHot.insertWithMetadata(new Float32Array(v), m)].  The node
    keeps the components it is handed; their rounding to single precision
    by [Float32Array] is not modelled. *)
Definition hot_insert (v : list R) (m : RecordJSON) : Eng nat :=
  fun s => let (h, idx) := EdgeVec.insertWithMetadata v m (hnswHot s) in
           (Ok h, set_hnswHot idx s).

Definition warmIndex_insert (v : list R) (m : RecordJSON) : Eng nat :=
  fun s => let (h, idx) := EdgeVec.insertWithMetadata v m (hnswWarm s) in
           (Ok h, set_hnswWarm idx s).

Definition hot_softDelete (h : nat) : Eng unit :=
  modify (fun s => set_hnswHot (EdgeVec.softDelete h (hnswHot s)) s).

Definition warmIndex_softDelete (h : nat) : Eng unit :=
  modify (fun s => set_hnswWarm (EdgeVec.softDelete h (hnswWarm s)) s).

(** [storeWarm] assigns [record.hnswWarmId]; the record it leaves behind
    is returned. *)
Definition storeWarm (record : MemoryRecord) : Eng MemoryRecord :=
  ensureInitialized ;;;
  tryCatch
    (let float16 := quantizeFloat16 env (embedding record) in
     hnswId <- warmIndex_insert (embedding record) (toJSON record) ;;
     let record' := setWarmId (Some hnswId) record in
     warm_put (mkRow (toJSON record') float16) ;;;
     ret record')
    (fun e => throw e).

Definition storeCold (record : MemoryRecord) : Eng unit :=
  ensureInitialized ;;;
  tryCatch
    (cold_put (mkRow (toJSON record) (quantizeInt8 (embedding record))))
    (fun e => throw e).

Definition createMemoryRecord (t : string) (options : CreateOptions)
  : Eng MemoryRecord :=
  ensureInitialized ;;;
  if String.eqb t "" then throw "Invalid text for memory record"
  else
    tryCatch
      (newId <- _hash (t ++ showNumber env now ++ mathRandom env) ;;
       emb <- liftRes (ollama_embed env t) ;;
       integrity <- _hash t ;;
       let embHash := hashEmbedding env emb in
       let record := newMemoryRecord
         (mkRecord newId emb t now now
            (orDefault (o_episodic options) true)
            (orDefault (o_importance options) (/ 2)%R)
            0 None integrity WARM (Some embHash)
            (orDefault (o_metadata options) []) None None) in
       appendJournal record ;;;
       record' <- storeWarm record ;;
       modify (fun s => set_recordsSinceConsolidation
                          (recordsSinceConsolidation s + 1) s) ;;;
       _trackMutation ;;;
       n <- gets recordsSinceConsolidation ;;
       interval <- gets (fun s => consolidationInterval (config s)) ;;
       when (interval <=? n)%Z (schedule TaskConsolidate) ;;;
       ret record')
      (fun e => throw ("Memory creation failed: " ++ e)).

(** [OllamaBrowserSafe.embedBatch].  The batch fails exactly when one of
    its texts cannot be embedded.  When several texts fail, which error
    the [Promise.all] of the source reports depends on which request is
    rejected first; the model reports the one of the first failing text,
    and no statement below depends on which one is reported. *)
Fixpoint embedBatch (texts : list string) : Res (list (list R)) :=
  match texts with
  | [] => Ok []
  | t :: rest =>
      match ollama_embed env t with
      | Err e => Err e
      | Ok v =>
          match embedBatch rest with
          | Err e => Err e
          | Ok vs => Ok (v :: vs)
          end
      end
  end.

(** [createMemoryRecords] starts every [appendJournal] inside
    [Promise.all(records.map(...))] before it awaits any of them.  A call
    runs up to its first [await], the [metaStore.put] request inside
    [_incrementJournalCounter], before [map] starts the next call.
    [appendJournal_issue] is that first part; it returns how the request
    went. *)
Definition appendJournal_issue : Eng (Res unit) :=
  ensureInitialized ;;;
  modify (fun s => set_journalCounter (journalCounter s + 1) s) ;;;
  c <- gets journalCounter ;;
  tryCatch (meta_put "journal_counter" (MetaNumber c) ;;; ret (Ok tt))
           (fun e => ret (Err e)).

(** The rest of the call, run when the request has settled:
    [return this.journalCounter] reads the field as it is by then. *)
Definition appendJournal_resume (settled : Res unit) (record : MemoryRecord)
  : Eng unit :=
  tryCatch
    (liftRes settled ;;;
     journalId <- gets journalCounter ;;
     journal_put (mkEntry journalId now (toJSON record)) ;;;
     count <- journal_count ;;
     rotation <- gets (fun s => journalRotationSize (config s)) ;;
     when (rotation <=? count)%Z (schedule TaskRotateJournal))
    (fun _ => ret tt).

(** [await Promise.all(records.map(r => this.appendJournal(r)))] *)
Definition appendJournalAll (records : list MemoryRecord) : Eng unit :=
  settled <- mapM (fun _ => appendJournal_issue) records ;;
  forEach (fun sr => appendJournal_resume (fst sr) (snd sr))
          (combine settled records).

Definition createMemoryRecords (texts : list string) (options : CreateOptions)
  : Eng (list MemoryRecord) :=
  ensureInitialized ;;;
  tryCatch
    (embeddings <- liftRes (embedBatch texts) ;;
     records <- mapM
       (fun ite =>
          let i := fst (fst ite) in
          let t := snd (fst ite) in
          let emb := snd ite in
          newId <- _hash (t ++ showNumber env now
                            ++ showNumber env (Z.of_nat i) ++ mathRandom env) ;;
          integrity <- _hash t ;;
          ret (newMemoryRecord
                 (mkRecord newId emb t now now
                    (orDefault (o_episodic options) true)
                    (orDefault (o_importance options) (/ 2)%R)
                    0 None integrity WARM (Some (hashEmbedding env emb))
                    (orDefault (o_metadata options) []) None None)))
       (combine (combine (seq 0 (length texts)) texts) embeddings) ;;
     appendJournalAll records ;;;
     stored <- mapM storeWarm records ;;
     modify (fun s => set_recordsSinceConsolidation
                        (recordsSinceConsolidation s
                         + Z.of_nat (length stored)) s) ;;;
     _trackMutation ;;;
     ret stored)
    (fun e => throw ("Batch memory creation failed: " ++ e)).

(* ---------------------------------------------------------------------- *)
(** *** Promotion and demotion *)

Definition shouldPromote (cfg : Config) (record : MemoryRecord) : bool :=
  Rleb (I_hot cfg) (effective_weight now record)
  || (U_hot cfg <=? usage_count record)%Z.

Definition shouldDemote (cfg : Config) (record : MemoryRecord) : bool :=
  Rltb (decay_score now record) (D_warm cfg)
  && (usage_count record <? demotionUsageThreshold cfg)%Z.

(** The methods mutate [record]; they return it next to their result. *)
(** The [try] block of [applyPromotion]. *)
Definition applyPromotion_try (record : MemoryRecord)
  : Eng (option Tier * MemoryRecord) :=
  tryCatch
    (warmRecord <- warm_get (id record) ;;
     when (isSome warmRecord) (warm_delete (id record)) ;;;
     coldRecord <- cold_get (id record) ;;
     when (isSome coldRecord) (cold_delete (id record)) ;;;
     hnswId <- hot_insert (embedding record) (toJSON record) ;;
     let record1 := setHotId (Some hnswId) record in
     match hnswWarmId record1 with
     | Some h => warmIndex_softDelete h
     | None => ret tt
     end ;;;
     ret (Some HOT, setTier HOT record1))
    (fun e => throw e).

Definition applyPromotion (record : MemoryRecord) (simulate : bool)
  : Eng (option Tier * MemoryRecord) :=
  ensureInitialized ;;;
  cfg <- gets config ;;
  if negb (shouldPromote cfg record) then ret (None, record)
  else if simulate then ret (Some HOT, record)
  else applyPromotion_try record.

Definition applyDemotion (record : MemoryRecord) (simulate : bool)
  : Eng (option Tier * MemoryRecord) :=
  ensureInitialized ;;;
  cfg <- gets config ;;
  if negb (shouldDemote cfg record) then ret (None, record)
  else if simulate then ret (Some WARM, record)
  else
    tryCatch
      (match hnswHotId record with
       | Some h => hot_softDelete h
       | None => ret tt
       end ;;;
       record1 <- storeWarm record ;;
       ret (Some WARM, setTier WARM record1))
      (fun e => throw e).

Definition determineSimulatedTier (record : MemoryRecord) (simulate : bool)
  : Eng (Tier * MemoryRecord) :=
  p <- applyPromotion record simulate ;;
  match fst p with
  | Some t => ret (t, snd p)
  | None =>
      d <- applyDemotion (snd p) simulate ;;
      match fst d with
      | Some t => ret (t, snd d)
      | None =>
          let record' := snd d in
          if simulate then ret (currentTier record', record')
          else
            w <- warm_get (id record') ;;
            if isSome w then ret (WARM, record')
            else
              c <- cold_get (id record') ;;
              if isSome c then ret (COLD, record')
              else ret (UNKNOWN, record')
      end
  end.

(* ---------------------------------------------------------------------- *)
(** *** Search *)

Definition _reconstructEmbedding (recordId : string) (tier : option Tier)
  : Eng (list R) :=
  tryCatch
    (match tier with
     | Some WARM =>
         warmRec <- warm_get recordId ;;
         match warmRec with
         | Some row => ret (dequantizeFloat16 env (r_embedding row))
         | None => throw "Could not reconstruct embedding"
         end
     | Some COLD =>
         coldRec <- cold_get recordId ;;
         match coldRec with
         | Some row => ret (dequantizeInt8 (r_embedding row))
         | None => throw "Could not reconstruct embedding"
         end
     | _ => throw "Could not reconstruct embedding"
     end)
    (fun e => throw e).

(** The body of the inner loop of [_chunkedColdSearch] for one row. *)
Definition scoreColdRow (simulate : bool) (queryVec : list R) (r : Row)
  : Res (Hit RecordJSON) :=
  let record := access simulate now
    (newMemoryRecord
       (fieldsOfJSON (r_json r) (dequantizeInt8 (r_embedding r)) COLD)) in
  match cosineSimilarity queryVec (embedding record) with
  | Err e => Err e
  | Ok similarity =>
      Ok (mkHit (toJSON record)
                (similarity * effective_weight now record)%R
                (Some (embedding record)))
  end.

Fixpoint scoreColdChunk (simulate : bool) (queryVec : list R) (chunk : list Row)
  : Res (list (Hit RecordJSON)) :=
  match chunk with
  | [] => Ok []
  | r :: rest =>
      match scoreColdRow simulate queryVec r with
      | Err e => Err e
      | Ok h =>
          match scoreColdChunk simulate queryVec rest with
          | Err e => Err e
          | Ok hs => Ok (h :: hs)
          end
      end
  end.

(** The outer loop: one chunk after the other, left as soon as the pool
    holds [limit * 5] entries.  Both exits sort and slice the pool. *)
Fixpoint scanColdChunks (simulate : bool) (queryVec : list R) (limit : nat)
    (cs : list (list Row)) (scored : list (Hit RecordJSON))
  : Res (list (Hit RecordJSON)) :=
  match cs with
  | [] => Ok scored
  | chunk :: rest =>
      match scoreColdChunk simulate queryVec chunk with
      | Err e => Err e
      | Ok hs =>
          let scored' := scored ++ hs in
          if Nat.leb (limit * 5) (length scored') then Ok scored'
          else scanColdChunks simulate queryVec limit rest scored'
      end
  end.

Definition _chunkedColdSearch (queryVec : list R) (limit : nat) (simulate : bool)
  : Eng (list (Hit RecordJSON)) :=
  chunkSize <- gets (fun s => coldSearchChunkSize (config s)) ;;
  _ <- cold_count ;;
  allRecords <- cold_getAll ;;
  scored <- liftRes (scanColdChunks simulate queryVec limit
                       (chunks chunkSize allRecords) []) ;;
  ret (firstn limit (sortByScore (@hit_score _) scored)).

Definition hot_updateMetadata (h : nat) (m : RecordJSON) : Eng unit :=
  modify (fun s => set_hnswHot (EdgeVec.updateMetadata h m (hnswHot s)) s).

Definition warmIndex_updateMetadata (h : nat) (m : RecordJSON) : Eng unit :=
  modify (fun s => set_hnswWarm (EdgeVec.updateMetadata h m (hnswWarm s)) s).

Definition _updateRecord (recordData : RecordJSON) : Eng unit :=
  ensureInitialized ;;;
  tryCatch
    (let meta := metaOf recordData in
     match j_hnswHotId recordData, j_hnswWarmId recordData with
     | Some h, _ => hot_updateMetadata h meta
     | None, Some h => warmIndex_updateMetadata h meta
     | None, None =>
         w <- warm_get (j_id recordData) ;;
         if isSome w then
           warmRec <- warm_get (j_id recordData) ;;
           match warmRec with
           | Some row => warm_put (mergeRow row meta)
           | None => warm_put (mkRow meta [])
           end
         else
           c <- cold_get (j_id recordData) ;;
           if isSome c then
             coldRec <- cold_get (j_id recordData) ;;
             match coldRec with
             | Some row => cold_put (mergeRow row meta)
             | None => cold_put (mkRow meta [])
             end
           else ret tt
     end)
    (fun _ => ret tt).

(** [_waitForLock('search')].  No other task runs while a method of this
    model runs, so a lock that is held stays held until the wait gives up. *)
Definition _waitForLock_search : Eng unit :=
  fun s => if lock_search s then (Err "Lock timeout for search", s)
           else (Ok tt, s).

Definition passesFilters (filters : Filters) (record : MemoryRecord) : bool :=
  match f_episodic filters with
  | Some e => Bool.eqb (episodic record) e
  | None => true
  end
  &&
  match f_minImportance filters with
  | Some m => negb (negb (Reqb m 0) && Rltb (importance record) m)
  | None => true
  end.

(** The body of the rescoring loop for one candidate; [None] stands for
    [continue]. *)
Definition rescore (simulate : bool) (filters : Filters) (res : Hit RecordJSON)
  : Eng (option SearchResult) :=
  let meta := hit_metadata res in
  emb <- match hit_embedding res with
         | Some (x :: v) => ret (x :: v)
         | _ => _reconstructEmbedding (j_id meta) (j_currentTier meta)
         end ;;
  let record := access simulate now
    (newMemoryRecord
       (fieldsOfJSON meta emb (orDefault (j_currentTier meta) HOT))) in
  tr <- determineSimulatedTier record simulate ;;
  let record' := snd tr in
  let score := (hit_score res * effective_weight now record')%R in
  if passesFilters filters record'
  then ret (Some (mkResult (toJSON record') score (fst tr) (hit_score res)))
  else ret None.

Fixpoint rescoreAll (simulate : bool) (filters : Filters)
    (results : list (Hit RecordJSON)) : Eng (list SearchResult) :=
  match results with
  | [] => ret []
  | res :: rest =>
      o <- rescore simulate filters res ;;
      more <- rescoreAll simulate filters rest ;;
      ret (match o with Some e => e :: more | None => more end)
  end.

Definition searchBody (queryText : string) (k : nat) (simulate : bool)
    (filters : Filters) : Eng (list SearchResult) :=
  queryVec <- liftRes (ollama_embed env queryText) ;;
  hot <- gets (fun s => EdgeVec.searchBQ (ann env) (hitsCarryVectors env)
                          (hnswHot s) queryVec (k * 2)) ;;
  results1 <-
    (if Nat.ltb (length hot) (k * 2) then
       warmResults <- gets (fun s =>
         EdgeVec.searchBQ (ann env) (hitsCarryVectors env)
           (hnswWarm s) queryVec (k * 2 - length hot)) ;;
       ret (hot ++ warmResults)
     else ret hot) ;;
  results2 <-
    (if Nat.ltb (length results1) (k * 2) then
       coldFallback <- _chunkedColdSearch queryVec
                         (k * 2 - length results1) simulate ;;
       ret (results1 ++ coldFallback)
     else ret results1) ;;
  rescored <- rescoreAll simulate filters results2 ;;
  let sorted := sortByScore sr_score rescored in
  when (negb simulate)
       (forEach (fun e => _updateRecord (sr_record e)) (firstn k sorted)) ;;;
  ret (firstn k sorted).

Definition search (queryText : string) (k : nat) (simulate : bool)
    (filters : Filters) : Eng (list SearchResult) :=
  ensureInitialized ;;;
  held <- gets lock_search ;;
  when (held && negb simulate) _waitForLock_search ;;;
  when (negb simulate) (modify (set_lock_search true)) ;;;
  tryFinally
    (tryCatch (searchBody queryText k simulate filters)
              (fun e => throw ("Search failed: " ++ e)))
    (fun s => if simulate then s else set_lock_search false s).

(* ---------------------------------------------------------------------- *)
(** *** Compaction *)

Definition _compactHNSW : Eng unit :=
  held <- gets lock_compact ;;
  if held then ret tt
  else
    modify (set_lock_compact true) ;;;
    tryFinally
      (tryCatch
         (modify (fun s => set_hnswWarm (EdgeVec.compact (hnswWarm s))
                             (set_hnswHot (EdgeVec.compact (hnswHot s)) s)) ;;;
          modify (set_deletionsSinceCompaction 0) ;;;
          save)
         (fun _ => ret tt))
      (set_lock_compact false).

(* ---------------------------------------------------------------------- *)
(** *** Consolidation *)

Definition memberOf (x : string) (l : list string) : bool :=
  existsb (String.eqb x) l.

(** The inner loop of [_hnswBasedClustering] over the neighbours of one
    record. *)
Definition gatherNeighbours (threshold : R)
    (idToRecord : string -> option MemoryRecord)
    (neighbors : list (Hit string))
    (start : list MemoryRecord * list string)
  : list MemoryRecord * list string :=
  fold_left
    (fun (acc : list MemoryRecord * list string) (neighbor : Hit string) =>
       let mid := hit_metadata neighbor in
       if memberOf mid (snd acc) then acc
       else if Rleb (1 - threshold) (hit_score neighbor) then
         match idToRecord mid with
         | Some r => (fst acc ++ [r], snd acc ++ [mid])
         | None => acc
         end
       else acc)
    neighbors start.

Fixpoint clusterLoop (cfg : Config) (tempIndex : Index string)
    (idToRecord : string -> option MemoryRecord)
    (records : list MemoryRecord) (processed : list string)
    (clusters : list (list MemoryRecord)) : list (list MemoryRecord) :=
  match records with
  | [] => clusters
  | record :: rest =>
      if memberOf (id record) processed
      then clusterLoop cfg tempIndex idToRecord rest processed clusters
      else
        let neighbors :=
          EdgeVec.searchBQ (ann env) true tempIndex (embedding record) 50 in
        let gathered :=
          gatherNeighbours (clusterDiameter cfg) idToRecord neighbors
            ([record], processed ++ [id record]) in
        let clusters' :=
          if Nat.leb 2 (length (fst gathered))
          then clusters ++ [fst gathered] else clusters in
        if (maxClustersPerPass cfg <=? Z.of_nat (length clusters'))%Z
        then clusters'
        else clusterLoop cfg tempIndex idToRecord rest (snd gathered) clusters'
  end.

Definition _hnswBasedClustering (cfg : Config) (records : list MemoryRecord)
  : list (list MemoryRecord) :=
  let tempIndex :=
    fold_left (fun idx r =>
                 snd (EdgeVec.insertWithMetadata (embedding r) (id r) idx))
              records (EdgeVec.create string) in
  let idToRecord := fun i =>
    find (fun r => String.eqb (id r) i) (rev records) in
  clusterLoop cfg tempIndex idToRecord records [] [].

(** The component-wise mean of the member embeddings; a component that a
    shorter member lacks counts as [0]. *)
Definition centroidOf (clusterRecords : list MemoryRecord) : list R :=
  let dim := length (embedding (hd (mkRecord "" [] "" 0 0 true 0 0 None ""
                                      UNKNOWN None [] None None)
                                   clusterRecords)) in
  map (fun i =>
         (fold_left (fun sum r => (sum + nth i (embedding r) 0)%R)
                    clusterRecords 0%R
          / INR (length clusterRecords))%R)
      (seq 0 dim).

(** The loop of [_processCluster] over the members, for one member. *)
Definition linkMember (clusterId : string) (simulate : bool) (r : MemoryRecord)
  : Eng RecordJSON :=
  let r1 := access simulate now r in
  let r2 := setCluster (Some clusterId) r1 in
  let r3 := setImportance (importance r2 * (8 / 10))%R r2 in
  p <- applyPromotion r3 simulate ;;
  applyDemotion (snd p) simulate ;;;
  ret (toJSON r3).

Definition _processCluster (clusterRecords : list MemoryRecord) (simulate : bool)
  : Eng (list RecordJSON) :=
  if Nat.ltb (length clusterRecords) 2 then ret []
  else
    summary <- liftRes (generate env
      ("Briefly summarize these related memories in one sentence:"
         ++ newline ++ join newline (map (@text) clusterRecords))) ;;
    let sortedIds := join "" (sortStrings (map (@id) clusterRecords)) in
    clusterId <- _hash (summary ++ sortedIds) ;;
    semanticId <- _hash (summary ++ showNumber env now) ;;
    integrity <- _hash summary ;;
    let semanticRecord :=
      setCluster (Some clusterId)
        (newMemoryRecord
           (mkRecord semanticId (centroidOf clusterRecords) summary now now
              false (7 / 10)%R 0 None integrity WARM None
              [("cluster_id"%string, JStr clusterId);
               ("member_count"%string,
                JNum (Z.of_nat (length clusterRecords)))]
              None None)) in
    appendJournal semanticRecord ;;;
    stored <- (if simulate then ret semanticRecord
               else storeWarm semanticRecord) ;;
    members <- mapM (linkMember clusterId simulate) clusterRecords ;;
    ret (toJSON stored :: members).

(** [new MemoryRecord({...r, embedding: dequantizeFloat16(...), currentTier: 'WARM'})] *)
Definition warmRecordOf (r : Row) : MemoryRecord :=
  newMemoryRecord
    (fieldsOfJSON (r_json r) (dequantizeFloat16 env (r_embedding r)) WARM).

(** [r.getEmbeddingHash()] *)
Definition getEmbeddingHash (r : MemoryRecord) : string :=
  match embeddingHash r with
  | Some h => if String.eqb h "" then hashEmbedding env (embedding r) else h
  | None => hashEmbedding env (embedding r)
  end.

Definition _consolidateChunk (records : list MemoryRecord) (simulate : bool)
  : Eng (list RecordJSON) :=
  if Nat.ltb (length records) 2 then ret []
  else
    let embeddingHashToRecord := fun h =>
      find (fun r => String.eqb (getEmbeddingHash r) h) (rev records) in
    let clusters := hcluster env (map (@embedding) records) in
    foldM
      (fun updatedRecords clusterLeaves =>
         if Nat.ltb (length clusterLeaves) 2 then ret updatedRecords
         else
           let clusterRecords :=
             flat_map (fun leaf =>
                         match embeddingHashToRecord (hashEmbedding env leaf) with
                         | Some r => [r]
                         | None => []
                         end) clusterLeaves in
           if Nat.ltb (length clusterRecords) 2 then ret updatedRecords
           else
             updated <- _processCluster clusterRecords simulate ;;
             ret (updatedRecords ++ updated))
      [] clusters.

Definition consolidateBody (simulate : bool) : Eng (list RecordJSON) :=
  warmCount <- warm_count ;;
  if (warmCount <? 2)%Z then ret []
  else
    cfg <- gets config ;;
    warmRaw <- warm_getAll ;;
    allUpdated <-
      (if useAdvancedClustering cfg
          && (advancedClusteringThreshold cfg <=? warmCount)%Z
       then
         foldM (fun acc clusterRecords =>
                  updated <- _processCluster clusterRecords simulate ;;
                  ret (acc ++ updated))
               [] (_hnswBasedClustering cfg (map warmRecordOf warmRaw))
       else
         foldM (fun acc chunk =>
                  updated <- _consolidateChunk (map warmRecordOf chunk) simulate ;;
                  ret (acc ++ updated))
               [] (chunks (consolidationChunkSize cfg) warmRaw)) ;;
    when (negb simulate) (forEach _updateRecord allUpdated) ;;;
    modify (set_recordsSinceConsolidation 0) ;;;
    ret allUpdated.

Definition consolidate (simulate : bool) : Eng (list RecordJSON) :=
  ensureInitialized ;;;
  held <- gets lock_consolidate ;;
  if held then ret []
  else
    modify (set_lock_consolidate true) ;;;
    tryFinally
      (tryCatch (consolidateBody simulate)
                (fun e => throw ("Consolidation failed: " ++ e)))
      (set_lock_consolidate false).

(* ---------------------------------------------------------------------- *)
(** *** Pruning *)

(** [new MemoryRecord({...r, embedding: dequantizeInt8(...), currentTier: 'COLD'})] *)
Definition coldRecordOf (r : Row) : MemoryRecord :=
  newMemoryRecord
    (fieldsOfJSON (r_json r) (dequantizeInt8 (r_embedding r)) COLD).

Definition prunable (cfg : Config) (record : MemoryRecord) : bool :=
  Rltb (effective_weight now record) (epsilon cfg)
  && (usage_count record =? 0)%Z.

Definition pruneStep (simulate : bool) (prunedIds : list string)
    (record : MemoryRecord) : Eng (list string) :=
  cfg <- gets config ;;
  if prunable cfg record then
    when (negb simulate)
         (cold_delete (id record) ;;;
          modify (fun s => set_deletionsSinceCompaction
                             (deletionsSinceCompaction s + 1) s)) ;;;
    ret (prunedIds ++ [id record])
  else ret prunedIds.

Definition pruneBody (simulate : bool) : Eng (list string) :=
  coldRaw <- cold_getAll ;;
  let coldRecords := map coldRecordOf coldRaw in
  prunedIds <- foldM (pruneStep simulate) [] coldRecords ;;
  when (negb simulate && Nat.ltb 0 (length prunedIds))
       (d <- gets deletionsSinceCompaction ;;
        threshold <- gets (fun s => compactionThreshold (config s)) ;;
        when (threshold <=? d)%Z _compactHNSW ;;;
        _trackMutation) ;;;
  ret prunedIds.

Definition prune (simulate : bool) : Eng (list string) :=
  ensureInitialized ;;;
  held <- gets lock_prune ;;
  if held then ret []
  else
    modify (set_lock_prune true) ;;;
    tryFinally
      (tryCatch (pruneBody simulate)
                (fun e => throw ("Pruning failed: " ++ e)))
      (set_lock_prune false).

(* ---------------------------------------------------------------------- *)
(** *** Integrity *)

(** The objects [getAllRecords] returns carry an embedding only when they
    come from the COLD store; [verifyIntegrity] reads their [id], [text]
    and [integrity_hash]. *)
Definition withTier (t : Tier) (j : RecordJSON) : RecordJSON :=
  mkJSON (j_id j) (j_text j) (j_timestamp j) (j_lastAccessed j)
    (j_episodic j) (j_importance j) (j_usage_count j)
    (j_semantic_cluster_id j) (j_integrity_hash j) (Some t) (j_metadata j)
    (j_hnswHotId j) (j_hnswWarmId j).

Definition getAllRecords : Eng (list (RecordJSON * option (list R))) :=
  ensureInitialized ;;;
  hotMeta <- gets (fun s => map (fun m => (withTier HOT m, None))
                              (EdgeVec.getAllMetadata (hnswHot s))) ;;
  warmMeta <- gets (fun s => map (fun m => (withTier WARM m, None))
                               (EdgeVec.getAllMetadata (hnswWarm s))) ;;
  coldRaw <- cold_getAll ;;
  let cold := map (fun r => (withTier COLD (r_json r),
                             Some (dequantizeInt8 (r_embedding r)))) coldRaw in
  ret (hotMeta ++ warmMeta ++ cold).

Definition quarantine (recordId : string) : Eng unit :=
  ensureInitialized ;;;
  tryCatch
    (warmRec <- warm_get recordId ;;
     match warmRec with
     | Some row =>
         match j_hnswWarmId (r_json row) with
         | Some h => warmIndex_softDelete h
         | None => ret tt
         end ;;;
         warm_delete recordId
     | None => ret tt
     end ;;;
     coldRec <- cold_get recordId ;;
     when (isSome coldRec) (cold_delete recordId) ;;;
     hotMeta <- gets (fun s => EdgeVec.getAllMetadata (hnswHot s)) ;;
     match find (fun m => String.eqb (j_id m) recordId && isSome (j_hnswHotId m))
                hotMeta with
     | Some m =>
         match j_hnswHotId m with
         | Some h => hot_softDelete h
         | None => ret tt
         end
     | None => ret tt
     end ;;;
     modify (fun s => set_deletionsSinceCompaction
                        (deletionsSinceCompaction s + 1) s) ;;;
     d <- gets deletionsSinceCompaction ;;
     threshold <- gets (fun s => compactionThreshold (config s)) ;;
     when (threshold <=? d)%Z (schedule TaskCompact))
    (fun _ => ret tt).

(** The body of the loop of [verifyIntegrity] for one record. *)
Definition verifyStep (corrupted : list string)
    (record : RecordJSON * option (list R)) : Eng (list string) :=
  let j := fst record in
  currentHash <- _hash (j_text j) ;;
  if String.eqb currentHash (j_integrity_hash j) then ret corrupted
  else
    tryCatch
      (quarantine (j_id j) ;;; ret (corrupted ++ [j_id j]))
      (fun _ => ret (corrupted ++ [j_id j; j_id j])).

Definition verifyIntegrity : Eng (list string) :=
  ensureInitialized ;;;
  records <- getAllRecords ;;
  foldM verifyStep [] records.

(* ---------------------------------------------------------------------- *)
(** *** Start-up *)

(** One [open()] of the [Promise.all] of [initialize]: every store is
    asked to open, whatever becomes of the others. *)
Definition openStore {K V} (proj : SCMP -> Store K V)
    (inj : Store K V -> SCMP -> SCMP) : Eng bool :=
  fun s => match IndexedDBStore.open (proj s) with
           | Ok st => (Ok true, inj st s)
           | Err e => (Ok false, s)
           end.

Definition openAll : Eng unit :=
  w <- openStore warmStore set_warmStore ;;
  c <- openStore coldStore set_coldStore ;;
  j <- openStore journalStore set_journalStore ;;
  m <- openStore metaStore set_metaStore ;;
  if w && c && j && m then ret tt else throw "Failed to open".

Definition _loadOrCreateKey : Eng unit :=
  keyData <- meta_get "encryption_key" ;;
  match keyData with
  | Some _ => ret tt
  | None => meta_put "encryption_key" (MetaJwk (generateKey env))
  end.

Definition _loadOrCreateSalt : Eng unit :=
  saltData <- meta_get "salt" ;;
  match saltData with
  | Some (MetaString v) => modify (set_salt v)
  | Some _ => modify (set_salt "")
  | None =>
      modify (set_salt (randomUUID env)) ;;;
      meta_put "salt" (MetaString (randomUUID env))
  end.

Definition initialize : Eng unit :=
  done <- gets initialized ;;
  if done then ret tt
  else
    tryCatch
      (openAll ;;;
       _loadOrCreateKey ;;;
       _loadOrCreateSalt ;;;
       _loadJournalCounter ;;;
       modify (fun s => set_hnswHot
                          (orDefault (savedHot s) (EdgeVec.create _)) s) ;;;
       modify (fun s => set_hnswWarm
                          (orDefault (savedWarm s) (EdgeVec.create _)) s) ;;;
       modify (set_initialized true))
      (fun e => throw ("Failed to initialize SCMP: " ++ e)).

(* ---------------------------------------------------------------------- *)
(** *** Memory pressure, reset and shutdown *)

(** The loop of [_handleCriticalMemoryPressure] over the HOT metadata, for
    one entry. *)
Definition demoteIdle (meta : RecordJSON) : Eng unit :=
  if (j_usage_count meta <? 5)%Z then
    embedding <- _reconstructEmbedding (j_id meta) (Some HOT) ;;
    applyDemotion (newMemoryRecord (fieldsOfJSON meta embedding HOT)) false ;;;
    ret tt
  else ret tt.

Definition _handleCriticalMemoryPressure : Eng unit :=
  tryCatch
    (prune false ;;;
     hotMeta <- gets (fun s => EdgeVec.getAllMetadata (hnswHot s)) ;;
     forEach demoteIdle hotMeta ;;;
     _compactHNSW ;;;
     rotateJournal)
    (fun _ => ret tt).

Definition _handleWarningMemoryPressure : Eng unit :=
  tryCatch
    (pruned <- prune false ;;
     when (Nat.ltb 0 (length pruned)) _compactHNSW)
    (fun _ => ret tt).

Definition clear : Eng unit :=
  ensureInitialized ;;;
  warm_clear ;;;
  cold_clear ;;;
  journal_clear ;;;
  modify (fun s => set_hnswWarm (EdgeVec.create _)
                     (set_hnswHot (EdgeVec.create _) s)) ;;;
  modify (set_recordsSinceConsolidation 0) ;;;
  modify (set_journalCounter 0) ;;;
  modify (set_deletionsSinceCompaction 0) ;;;
  modify (set_mutationsSinceLastSave 0) ;;;
  meta_put "journal_counter" (MetaNumber 0).

Definition shutdown : Eng unit :=
  m <- gets mutationsSinceLastSave ;;
  when (0 <? m)%Z save.

End Engine.

Definition closeStore {K V} (st : Store K V) : Store K V :=
  mkStore false (healthy st) (rows st).

(** A new page load: [new SCMP(config)] over the databases and saved
    indexes that the previous instance left behind. *)
Definition reopen (s : SCMP) : SCMP :=
  mkSCMP (config s)
    (closeStore (warmStore s)) (closeStore (coldStore s))
    (closeStore (journalStore s)) (closeStore (metaStore s))
    (EdgeVec.create _) (EdgeVec.create _) (savedHot s) (savedWarm s)
    false "" 0 0 0 0 false false false false [] (ioLog s).

Definition restart (env : Env) (s : SCMP) : Res unit * SCMP :=
  initialize env (reopen s).

(** [new SCMP(config)] on a profile whose databases do not exist yet. *)
Definition newSCMP (cfg : Config) : SCMP :=
  mkSCMP cfg
    (mkStore false true []) (mkStore false true [])
    (mkStore false true []) (mkStore false true [])
    (EdgeVec.create _) (EdgeVec.create _) None None
    false "" 0 0 0 0 false false false false [] [].

(* ====================================================================== *)
(** ** Vocabulary of the statements *)
(* ====================================================================== *)

(** The assignments the engine makes to a record after the constructor
    ran: [record.access(simulate)], [r.importance *= 0.8],
    [r.semantic_cluster_id = ...], [record.currentTier = ...],
    [record.hnswHotId = ...] and [record.hnswWarmId = ...]. *)
Inductive Mutation : Type :=
| MutAccess (simulate : bool) (now : Z)
| MutAttenuate
| MutCluster (c : option string)
| MutTier (t : Tier)
| MutHotId (h : option nat)
| MutWarmId (h : option nat).

Definition mutate (r : MemoryRecord) (m : Mutation) : MemoryRecord :=
  match m with
  | MutAccess simulate now => access simulate now r
  | MutAttenuate => setImportance (importance r * (8 / 10))%R r
  | MutCluster c => setCluster c r
  | MutTier t => setTier t r
  | MutHotId h => setHotId h r
  | MutWarmId h => setWarmId h r
  end.

(** The message of [ensureInitialized]. *)
Definition notInitialized : string :=
  "SCMP not initialized. Call await scmp.initialize() first.".


(** The message with which the request function of [embed] throws on an
    outcome, if it throws. *)
Definition failureOf (showZ : Z -> string) (o : FetchOutcome) : option string :=
  match o with
  | Answered false status _ => Some ("Ollama embed failed: " ++ status)%string
  | Answered true _ (Err e) => Some e
  | Answered true _ (Ok None) =>
      Some "Invalid embedding response from Ollama"%string
  | Answered true _ (Ok (Some _)) => None
  | Aborted =>
      Some ("Request timeout after "
              ++ showZ OllamaBrowserSafe.REQUEST_TIMEOUT_MS ++ "ms")%string
  | Failed msg => Some msg
  end.

(** The delays slept after the failed attempts [first], [first + 1], ...,
    [count] of them. *)
Definition backoff (first count : nat) : list Z :=
  map (fun i => (OllamaBrowserSafe.RETRY_DELAY_MS * 2 ^ Z.of_nat i)%Z)
      (seq first count).

(** A computation that leaves the live entries of the HOT index as they
    are. *)
Definition keepsHot {A} (m : Eng A) : Prop :=
  forall s,
    EdgeVec.getAllMetadata (hnswHot (snd (m s)))
    = EdgeVec.getAllMetadata (hnswHot s).

(** The COLD rows left when the keys [ids] were deleted one by one. *)
Definition removeRows (ids : list string) (l : list (string * Row))
  : list (string * Row) :=
  fold_left (fun acc k => IndexedDBStore.removeRow String.compare k acc) ids l.

Definition deleteEvents (ids : list string) : list IOEvent :=
  map (fun _ => mkIO ColdDB OpDelete true 0 None) ids.

(** The rows of an object store are in strictly ascending key order. *)
Definition ascendingKeys {V} (l : list (string * V)) : Prop :=
  StronglySorted (fun a b => String.compare (fst a) (fst b) = Lt) l.

(** An object store with key path [id] holds at most one row per key, and
    the key of a row is the [id] of the row. *)
Definition keyedById (st : Store string Row) : Prop :=
  NoDup (map fst (rows st))
  /\ forall k v, In (k, v) (rows st) -> k = j_id (r_json v).

(** The engine can journal: it is initialized and its journal and meta
    stores answer. *)
Definition journalReady (s : SCMP) : Prop :=
  initialized s = true
  /\ IndexedDBStore.usable (journalStore s)
  /\ IndexedDBStore.usable (metaStore s).

(** The counter row of the meta store. *)
Definition persistedCounter (s : SCMP) : option MetaRow :=
  IndexedDBStore.lookupRow String.compare "journal_counter"%string
    (rows (metaStore s)).

(** What a pass of a simulated consolidation did to the journal counter,
    given the list [before] of updated records it started from and the
    list [after] it ended with. *)
Definition journalAdvance (before after : list RecordJSON) (s s' : SCMP) : Prop :=
  (after = before /\ journalCounter s' = journalCounter s
   /\ metaStore s' = metaStore s)
  \/ (after <> []
      /\ (journalCounter s < journalCounter s')%Z
      /\ persistedCounter s' = Some (MetaNumber (journalCounter s'))).

(** The record with metadata [m] is the only live entry of the HOT index,
    it is in no other tier, its metadata has no HOT handle and its text no
    longer hashes to its integrity hash. *)
Definition corruptedInHot (env : Env) (m : RecordJSON) (s : SCMP) : Prop :=
  initialized s = true
  /\ IndexedDBStore.usable (warmStore s)
  /\ IndexedDBStore.usable (coldStore s)
  /\ EdgeVec.getAllMetadata (hnswHot s) = [m]
  /\ EdgeVec.getAllMetadata (hnswWarm s) = []
  /\ rows (coldStore s) = []
  /\ IndexedDBStore.lookupRow String.compare (j_id m) (rows (warmStore s))
     = None
  /\ j_hnswHotId m = None
  /\ sha256 env (j_text m ++ salt s) <> j_integrity_hash m.

(** Every result carries, under every key of the filter object other than
    [episodic] and [minImportance], the value the filter asks for. *)
Definition honoursMetadataFilters (filters : Filters)
    (results : list SearchResult) : Prop :=
  forall e key v,
    In e results -> In (key, v) (f_others filters) ->
    metadataGet key (j_metadata (sr_record e)) = Some v.

(** Every result passes the two filters that [search] reads.  A
    [minImportance] of zero is falsy and filters nothing. *)
Definition honoursNamedFilters (filters : Filters)
    (results : list SearchResult) : Prop :=
  forall e, In e results ->
    (forall b, f_episodic filters = Some b -> j_episodic (sr_record e) = b)
    /\ (forall m, f_minImportance filters = Some m -> m <> 0%R ->
          (m <= j_importance (sr_record e))%R).

(** The ids of the journal entries written so far, oldest first: the
    successful [journalStore.put] requests of the log. *)
Definition journalPut (ev : IOEvent) : option Z :=
  match io_store ev, io_op ev, io_ok ev with
  | JournalDB, OpPut, true => io_num ev
  | _, _, _ => None
  end.

Fixpoint journalPuts (log : list IOEvent) : list Z :=
  match log with
  | [] => []
  | ev :: rest =>
      match journalPut ev with
      | Some n => n :: journalPuts rest
      | None => journalPuts rest
      end
  end.

(** The counter as the meta store holds it; [0] when there is no row. *)
Definition persistedValue (s : SCMP) : Z :=
  match persistedCounter s with
  | Some row => metaNumber row
  | None => 0%Z
  end.

(** What happens to an engine between two observations: a call of
    [appendJournal] that is awaited, a page reload followed by
    [initialize], another call of [initialize], or a database that starts
    or stops rejecting requests. *)
Inductive Step : Type :=
| StepAppend (now : Z) (record : MemoryRecord)
| StepRestart
| StepInitialize
| StepHealth (db : StoreName) (ok : bool).

Definition setHealthy {K V} (ok : bool) (st : Store K V) : Store K V :=
  mkStore (isOpen st) ok (rows st).

Definition setHealth (db : StoreName) (ok : bool) (s : SCMP) : SCMP :=
  match db with
  | WarmDB => set_warmStore (setHealthy ok (warmStore s)) s
  | ColdDB => set_coldStore (setHealthy ok (coldStore s)) s
  | JournalDB => set_journalStore (setHealthy ok (journalStore s)) s
  | MetaDB => set_metaStore (setHealthy ok (metaStore s)) s
  end.

Definition step (env : Env) (s : SCMP) (st : Step) : SCMP :=
  match st with
  | StepAppend now record => snd (appendJournal now record s)
  | StepRestart => snd (restart env s)
  | StepInitialize => snd (initialize env s)
  | StepHealth db ok => setHealth db ok s
  end.

Definition run (env : Env) (steps : list Step) (s : SCMP) : SCMP :=
  fold_left (step env) steps s.

(** The journal ids written so far increase strictly, none exceeds the
    persisted counter, and the counter in memory of an initialized engine
    is not behind the persisted one. *)
Definition journalInvariant (s : SCMP) : Prop :=
  StronglySorted Z.lt (journalPuts (ioLog s))
  /\ Forall (fun i => (i <= persistedValue s)%Z) (journalPuts (ioLog s))
  /\ (initialized s = true -> (persistedValue s <= journalCounter s)%Z).

(** A computation that writes no journal entry and leaves the counter
    alone, in memory and in the meta store. *)
Definition journalQuiet {A} (m : Eng A) : Prop :=
  forall s,
    journalPuts (ioLog (snd (m s))) = journalPuts (ioLog s)
    /\ persistedCounter (snd (m s)) = persistedCounter s
    /\ initialized (snd (m s)) = initialized s
    /\ journalCounter (snd (m s)) = journalCounter s.

(** The engine without its record of store calls, and a computation that
    changes nothing else. *)
Definition forgetLog (s : SCMP) : SCMP := set_ioLog [] s.

Definition readOnly {A} (m : Eng A) : Prop :=
  forall s, forgetLog (snd (m s)) = forgetLog s.

Definition journalSize (s : SCMP) : Z :=
  Z.of_nat (length (rows (journalStore s))).

(** Unfolds the monad and the store primitives so that a method applied to
    an engine in constructor form computes. *)
Ltac eng_unfold :=
  cbv beta iota delta
    [tryCatch tryFinally bind ret throw gets modify when liftRes
     readStore writeStore logIO schedule ensureInitialized
     warm_get warm_getAll warm_count warm_put warm_delete
     cold_get cold_getAll cold_count cold_put cold_delete
     journal_put journal_count journal_clear meta_get meta_put
     hot_insert warmIndex_insert hot_softDelete warmIndex_softDelete
     hot_updateMetadata warmIndex_updateMetadata
     IndexedDBStore.put IndexedDBStore.get IndexedDBStore.getAll
     IndexedDBStore.delete IndexedDBStore.count IndexedDBStore.clear
     IndexedDBStore.request negb isSome found
     EdgeVec.insertWithMetadata e_id
     isOpen healthy rows
     config warmStore coldStore journalStore metaStore hnswHot hnswWarm
     savedHot savedWarm initialized salt journalCounter
     recordsSinceConsolidation deletionsSinceCompaction
     mutationsSinceLastSave lock_search lock_consolidate lock_prune
     lock_compact pending ioLog
     set_config set_warmStore set_coldStore set_journalStore set_metaStore
     set_hnswHot set_hnswWarm set_savedHot set_savedWarm set_initialized
     set_salt set_journalCounter set_recordsSinceConsolidation
     set_deletionsSinceCompaction set_mutationsSinceLastSave
     set_lock_search set_lock_consolidate set_lock_prune set_lock_compact
     set_pending set_ioLog];
  cbn [fst snd].


(* ====================================================================== *)
(** ** A small installation *)
(* ====================================================================== *)

(** Stand-ins for the collaborators: the digest returns its input, the
    encoder answers every text with the same unit vector, the generator
    answers ["SUMMARY"], the clustering puts all vectors in one cluster
    and the index ranks every live node with similarity [1]. *)
Definition demoEnv : Env :=
  mkEnv (fun t => t)
        (fun _ => "0"%string)
        (fun _ => Ok [1%R; 0%R])
        (fun _ => Ok "SUMMARY"%string)
        (fun vectors => [vectors])
        (fun _ candidates => map (fun c => (fst c, 1%R)) candidates)
        true
        (map (fun _ => 15360%Z))
        (map (fun _ => 1%R))
        "salt"%string
        "jwk"%string
        (fun _ => "0"%string)
        "5"%string.

(** The same collaborators while the Ollama server cannot be reached. *)
Definition deafEnv : Env :=
  mkEnv (sha256 demoEnv) (toFixed8 demoEnv)
        (fun _ => Err "Request failed after 3 attempts: Failed to fetch")
        (generate demoEnv) (hcluster demoEnv) (ann demoEnv)
        (hitsCarryVectors demoEnv)
        (quantizeFloat16 demoEnv) (dequantizeFloat16 demoEnv)
        (randomUUID demoEnv) (generateKey demoEnv)
        (showNumber demoEnv) (mathRandom demoEnv).

(** The same collaborators with an index whose hits carry no vector. *)
Definition bareEnv : Env :=
  mkEnv (sha256 demoEnv) (toFixed8 demoEnv) (fetchEmbedding demoEnv)
        (generate demoEnv) (hcluster demoEnv) (ann demoEnv)
        false
        (quantizeFloat16 demoEnv) (dequantizeFloat16 demoEnv)
        (randomUUID demoEnv) (generateKey demoEnv)
        (showNumber demoEnv) (mathRandom demoEnv).

Definition demoOptions : CreateOptions := mkOptions None None None.

Definition demoStart : SCMP := snd (initialize demoEnv (newSCMP defaultConfig)).

(** Two records written one after the other. *)
Definition demoOne : SCMP :=
  snd (createMemoryRecord demoEnv 1000 "alpha" demoOptions demoStart).

Definition demoTwo : SCMP :=
  snd (createMemoryRecord demoEnv 2000 "beta" demoOptions demoOne).

(** The same installation with a journal that rotates at two entries. *)
Definition rotatingConfig : Config :=
  mkConfig 10 (8 / 10) (1 / 10) (1 / 100) 100 500 2 1000 2 100 10
           true 5000 (3 / 10) 100.

Definition demoRotating : SCMP := set_config rotatingConfig demoTwo.

(** The same installation while the journal database rejects requests. *)
Definition demoBrokenJournal : SCMP :=
  set_journalStore (mkStore true false (rows (journalStore demoStart)))
    demoStart.

(** A record that was never read and whose importance is zero, and a
    record that was read ten times. *)
Definition forgotten : MemoryRecord :=
  newMemoryRecord
    (mkRecord "forgotten" [1%R; 0%R] "old note" 0 0 true 0%R 0 None
       "old notesalt" COLD None [] None None).

Definition popular : MemoryRecord :=
  newMemoryRecord
    (mkRecord "popular" [1%R; 0%R] "daily note" 0 0 true (1 / 2)%R 10 None
       "daily notesalt" WARM None [] None (Some 0)).

(** The installation with both records in the COLD store. *)
Definition demoCold : SCMP :=
  snd (storeCold popular (snd (storeCold forgotten demoStart))).

(** The installation with [popular] filed in the WARM store, under the
    WARM handle 0 of its own node, and in the COLD store. *)
Definition demoShelved : SCMP :=
  snd (storeCold popular
         (snd (storeWarm demoEnv (setWarmId None popular) demoStart))).

(** The installation with the record that was never used in the HOT
    index. *)
Definition demoIdleHot : SCMP :=
  snd (applyPromotion_try forgotten demoStart).

(** The text of a stored record rewritten behind the back of the engine. *)
Definition rewriteText (t : string) (j : RecordJSON) : RecordJSON :=
  mkJSON (j_id j) t (j_timestamp j) (j_lastAccessed j) (j_episodic j)
    (j_importance j) (j_usage_count j) (j_semantic_cluster_id j)
    (j_integrity_hash j) (j_currentTier j) (j_metadata j)
    (j_hnswHotId j) (j_hnswWarmId j).

(** [popular] after [applyPromotion] moved it to the HOT index, and the
    same installation after the text held by the HOT index was rewritten. *)
Definition demoPromoted : SCMP :=
  snd (applyPromotion_try popular demoStart).

Definition demoCorrupted : SCMP :=
  set_hnswHot
    (EdgeVec.updateMetadata 0 (rewriteText "forged" (toJSON popular))
       (hnswHot demoPromoted))
    demoPromoted.

(** One record tagged [type = "note"], and a search that asks for
    [type = "fact"]. *)
Definition demoTagged : SCMP :=
  snd (createMemoryRecord demoEnv 1000 "alpha"
         (mkOptions None None (Some [("type"%string, JStr "note")]))
         demoStart).

Definition factsOnly : Filters :=
  mkFilters None None [("type"%string, JStr "fact")].
(* ====================================================================== *)
(** * Properties *)
(* ====================================================================== *)

(** ** Preliminaries *)

Unset Implicit Arguments.

Lemma Rleb_true x y : Rleb x y = true <-> (x <= y)%R.
Proof. unfold Rleb; destruct (Rle_dec x y); split; intros; try easy. Qed.

Lemma Rltb_true x y : Rltb x y = true <-> (x < y)%R.
Proof. unfold Rltb; destruct (Rlt_dec x y); split; intros; try easy. Qed.


Lemma Rltb_false x y : Rltb x y = false <-> (y <= x)%R.
Proof.
  unfold Rltb; destruct (Rlt_dec x y); split; intros; try easy; lra.
Qed.

Lemma usable_inv {K V} (st : Store K V) :
  IndexedDBStore.usable st -> exists l, st = mkStore true true l.
Proof.
  destruct st as [o h l]; unfold IndexedDBStore.usable; simpl.
  intros [-> ->]; eauto.
Qed.

(** Brings a store that is known to be usable into constructor form. *)
Ltac concrete_store H :=
  let l := fresh "rows" in
  apply usable_inv in H; destruct H as [l H]; simpl in H; subst.

(** ** Journal rotation *)

Lemma rotateJournal_run (s : SCMP) :
  initialized s = true ->
  IndexedDBStore.usable (journalStore s) ->
  rotateJournal s =
  (Ok tt,
   if (journalSize s <? journalRotationSize (config s))%Z
   then logIO (mkIO JournalDB OpCount true 0 None) s
   else logIO (mkIO JournalDB OpClear true 0 None)
          (set_journalStore (mkStore true true [])
             (logIO (mkIO JournalDB OpCount true 0 None) s))).
Proof.
  destruct s as [cfg warm cold journal meta hot warmI sh sw ini slt jc rsc dsc
                 msl ls lc lp lk pend log].
  simpl. intros Hini Hj. subst ini. concrete_store Hj.
  unfold rotateJournal, journalSize. eng_unfold.
  destruct (_ <? _)%Z; reflexivity.
Qed.

Lemma lookupRow_insertRow_same {K V} (cmp : K -> K -> comparison) k (v : V) l :
  cmp k k = Eq ->
  IndexedDBStore.lookupRow cmp k (IndexedDBStore.insertRow cmp k v l) = Some v.
Proof.
  intros Hrefl. unfold IndexedDBStore.lookupRow.
  induction l as [|[k' v'] rest IH]; simpl.
  - unfold IndexedDBStore.keqb; simpl; rewrite Hrefl; reflexivity.
  - destruct (cmp k k') eqn:E; simpl.
    + unfold IndexedDBStore.keqb; simpl; rewrite Hrefl; reflexivity.
    + unfold IndexedDBStore.keqb; simpl; rewrite Hrefl; reflexivity.
    + unfold IndexedDBStore.keqb at 1; simpl; rewrite E. exact IH.
Qed.

Lemma String_compare_refl k : String.compare k k = Eq.
Proof. induction k as [|a k IH]; simpl; [reflexivity|].
  assert (Ha : Ascii.compare a a = Eq).
  { unfold Ascii.compare. apply N.compare_refl. }
  rewrite Ha; exact IH.
Qed.

(** What one successful [appendJournal] leaves behind. *)
Lemma appendJournal_run (now : Z) (record : MemoryRecord) (s : SCMP) :
  initialized s = true ->
  IndexedDBStore.usable (journalStore s) ->
  IndexedDBStore.usable (metaStore s) ->
  let n := (journalCounter s + 1)%Z in
  let s' := snd (appendJournal now record s) in
  fst (appendJournal now record s) = Ok tt
  /\ journalCounter s' = n
  /\ rows (journalStore s')
     = IndexedDBStore.insertRow Z.compare n (mkEntry n now (toJSON record))
         (rows (journalStore s))
  /\ rows (metaStore s')
     = IndexedDBStore.insertRow String.compare "journal_counter"%string
         (MetaNumber n) (rows (metaStore s))
  /\ ioLog s' = ioLog s ++
       [mkIO MetaDB OpPut true 0 (Some n);
        mkIO JournalDB OpPut true 0 (Some n);
        mkIO JournalDB OpCount true 0 None]
  /\ warmStore s' = warmStore s /\ coldStore s' = coldStore s
  /\ hnswHot s' = hnswHot s /\ hnswWarm s' = hnswWarm s.
Proof.
  destruct s as [cfg warm cold journal meta hot warmI sh sw ini slt jc rsc dsc
                 msl ls lc lp lk pend log].
  simpl. intros Hini Hj Hm. subst ini. concrete_store Hj. concrete_store Hm.
  unfold appendJournal, _incrementJournalCounter. eng_unfold.
  destruct (_ <=? _)%Z; eng_unfold; simpl;
    rewrite <- !app_assoc; simpl; repeat split; reflexivity.
Qed.

(** C10.  When the journal holds at least [journalRotationSize] entries,
    [rotateJournal] leaves it empty; when it holds fewer, the journal is
    left as it was.  In both cases the counter in memory, the meta store
    and every other store and index are unchanged, and the next
    [appendJournal] stores its entry under the id that follows the
    counter. *)
Theorem rotateJournal_discards_whole_log (s : SCMP) :
  initialized s = true ->
  IndexedDBStore.usable (journalStore s) ->
  IndexedDBStore.usable (metaStore s) ->
  let s' := snd (rotateJournal s) in
  fst (rotateJournal s) = Ok tt
  /\ (if (journalRotationSize (config s) <=? journalSize s)%Z
      then rows (journalStore s') = []
      else journalStore s' = journalStore s)
  /\ journalCounter s' = journalCounter s
  /\ metaStore s' = metaStore s
  /\ warmStore s' = warmStore s /\ coldStore s' = coldStore s
  /\ hnswHot s' = hnswHot s /\ hnswWarm s' = hnswWarm s
  /\ forall now record,
       let s'' := snd (appendJournal now record s') in
       IndexedDBStore.lookupRow Z.compare (journalCounter s + 1)%Z
         (rows (journalStore s''))
       = Some (mkEntry (journalCounter s + 1)%Z now (toJSON record))
       /\ IndexedDBStore.lookupRow String.compare "journal_counter"%string
            (rows (metaStore s''))
          = Some (MetaNumber (journalCounter s + 1)%Z).
Proof.
  intros Hini Hj Hm s'. subst s'.
  rewrite (rotateJournal_run s Hini Hj).
  assert (Hcmp : (journalRotationSize (config s) <=? journalSize s)%Z
                 = negb (journalSize s <? journalRotationSize (config s))%Z).
  { rewrite Z.ltb_antisym, negb_involutive; reflexivity. }
  rewrite Hcmp.
  destruct s as [cfg warm cold journal meta hot warmI sh sw ini slt jc rsc dsc
                 msl ls lc lp lk pend log].
  simpl in *. subst ini. concrete_store Hj. concrete_store Hm.
  destruct (journalSize _ <? _)%Z;
    (repeat split; try reflexivity);
    match goal with
    | |- context [appendJournal ?t ?r ?st] =>
        generalize (@appendJournal_run t r st eq_refl
                      (conj eq_refl eq_refl) (conj eq_refl eq_refl));
        cbv zeta; intros (_ & _ & Hjr & Hmr & _);
        rewrite ?Hjr, ?Hmr;
        apply lookupRow_insertRow_same;
        first [apply Z.compare_refl | apply String_compare_refl]
    end.
Qed.

(** ** The derived weights *)

Lemma clamp01_bounds x : (0 <= clamp01 x <= 1)%R.
Proof.
  unfold clamp01, Rmax, Rmin.
  destruct (Rle_dec 1 x); destruct (Rle_dec 0 _); lra.
Qed.

Lemma mutate_timestamp r m : timestamp (mutate r m) = timestamp r.
Proof. destruct m; simpl; try reflexivity. unfold access; destruct simulate; reflexivity. Qed.

Lemma mutate_importance r m :
  (0 <= importance r <= 1)%R -> (0 <= importance (mutate r m) <= 1)%R.
Proof.
  intros H; destruct m; simpl; try assumption.
  - unfold access; destruct simulate; simpl; assumption.
  - lra.
Qed.

Lemma mutations_keep fields ms :
  let r := fold_left mutate ms (newMemoryRecord fields) in
  timestamp r = timestamp fields /\ (0 <= importance r <= 1)%R.
Proof.
  cbv zeta.
  assert (G : forall r0, timestamp r0 = timestamp fields ->
                         (0 <= importance r0 <= 1)%R ->
                         timestamp (fold_left mutate ms r0) = timestamp fields
                         /\ (0 <= importance (fold_left mutate ms r0) <= 1)%R).
  { induction ms as [|m ms IH]; intros r0 Ht Hi; simpl; [tauto|].
    apply IH; [rewrite mutate_timestamp; exact Ht | apply mutate_importance; exact Hi]. }
  apply G; [reflexivity | simpl; apply clamp01_bounds].
Qed.

Lemma age_nonneg now r : (timestamp r <= now)%Z -> (0 <= age now r)%R.
Proof. intros H; unfold age; apply IZR_le; lia. Qed.

Lemma HALF_LIFE_pos : (0 < IZR HALF_LIFE)%R.
Proof. apply IZR_lt; reflexivity. Qed.

Lemma SCALE_pos : (0 < IZR SCALE)%R.
Proof. apply IZR_lt; reflexivity. Qed.

Lemma decay_score_bounds now r :
  (timestamp r <= now)%Z -> (0 < decay_score now r <= 1)%R.
Proof.
  intros H; unfold decay_score; split; [apply exp_pos|].
  pose proof (@age_nonneg now r H) as Ha. pose proof HALF_LIFE_pos as Hh.
  assert (Hx : (- age now r / IZR HALF_LIFE <= 0)%R).
  { unfold Rdiv. assert (0 < / IZR HALF_LIFE)%R by (apply Rinv_0_lt_compat; exact Hh). nra. }
  destruct Hx as [Hlt | Heq].
  - apply exp_increasing in Hlt. rewrite exp_0 in Hlt. lra.
  - rewrite Heq, exp_0. lra.
Qed.

Lemma temporal_weight_bounds now r :
  (timestamp r <= now)%Z -> (0 < temporal_weight now r <= 1)%R.
Proof.
  intros H; unfold temporal_weight.
  pose proof (@age_nonneg now r H) as Ha. pose proof SCALE_pos as Hs.
  assert (Hq : (0 <= age now r / IZR SCALE)%R).
  { unfold Rdiv. assert (0 < / IZR SCALE)%R by (apply Rinv_0_lt_compat; exact Hs). nra. }
  set (q := (age now r / IZR SCALE)%R) in *.
  assert (Hpos : (0 < 1 + q)%R) by lra.
  split.
  - apply Rdiv_lt_0_compat; lra.
  - apply (Rmult_le_reg_r (1 + q)); [exact Hpos|].
    unfold Rdiv. rewrite Rmult_assoc, Rinv_l by lra. lra.
Qed.

Lemma effective_weight_bounds now r :
  (timestamp r <= now)%Z -> (0 <= importance r <= 1)%R ->
  (0 <= effective_weight now r <= 1)%R.
Proof.
  intros Hr Hi.
  pose proof (@decay_score_bounds now r Hr) as Hd.
  pose proof (@temporal_weight_bounds now r Hr) as Hw.
  unfold effective_weight. split.
  - apply Rmult_le_pos; [apply Rmult_le_pos|]; lra.
  - assert (importance r * decay_score now r <= 1)%R by nra.
    assert (0 <= importance r * decay_score now r)%R by nra.
    nra.
Qed.

(** C9.  The constructor does not clamp every importance into [0,1]:
    handed NaN, [Math.max(0, Math.min(1, importance))] is NaN, and the
    effective weight of the record is then NaN at every clock, which is no
    number of [0,1].  Every other importance, the infinities included, is
    clamped into [0,1], a finite one to the value the record holds; and
    whenever the timestamp of the record is not later than the clock, also
    after the assignments the engine makes to its fields, its importance
    and its decay score lie in [0,1], its temporal weight lies in (0,1] and
    its effective weight lies in [0,1]. *)
Theorem nan_importance_escapes_the_clamp
    (fields : MemoryRecord) (ms : list Mutation) (now : Z) :
  (timestamp fields <= now)%Z ->
  let r := fold_left mutate ms (newMemoryRecord fields) in
  (constructedImportance NaN = NaN
   /\ effective_weight_of (constructedImportance NaN) now r = NaN
   /\ ~ inUnitInterval (effective_weight_of (constructedImportance NaN) now r))
  /\ (constructedImportance (Finite (importance fields))
      = Finite (importance (newMemoryRecord fields))
      /\ constructedImportance (Infinity false) = Finite 1
      /\ constructedImportance (Infinity true) = Finite 0
      /\ forall given, given <> NaN ->
           inUnitInterval (constructedImportance given))
  /\ (0 <= importance r <= 1)%R
  /\ (0 <= decay_score now r <= 1)%R
  /\ (0 < temporal_weight now r <= 1)%R
  /\ effective_weight_of (Finite (importance r)) now r
     = Finite (effective_weight now r)
  /\ inUnitInterval (effective_weight_of (Finite (importance r)) now r).
Proof.
  intros Hts r.
  assert (Hmax : Rmax 0 1 = 1%R) by (apply Rmax_right; lra).
  split; [repeat split; simpl; tauto|].
  split.
  { split; [reflexivity|].
    split; [unfold constructedImportance, Math_min, Math_max;
            rewrite Hmax; reflexivity|].
    split; [reflexivity|].
    intros [x|[|]|] Hn;
      unfold constructedImportance, Math_min, Math_max, inUnitInterval.
    - apply clamp01_bounds.
    - lra.
    - rewrite Hmax; lra.
    - congruence. }
  destruct (mutations_keep fields ms) as [Ht Hi]. fold r in Ht, Hi.
  assert (Hr : (timestamp r <= now)%Z) by (rewrite Ht; exact Hts).
  split; [exact Hi|].
  split; [pose proof (@decay_score_bounds now r Hr); lra|].
  split; [exact (@temporal_weight_bounds now r Hr)|].
  split; [reflexivity|].
  simpl. apply effective_weight_bounds; [exact Hr | exact Hi].
Qed.

(** ** Promotion *)

Lemma removeRow_absent {K V} (cmp : K -> K -> comparison) k (l : list (K * V)) :
  IndexedDBStore.lookupRow cmp k l = None ->
  IndexedDBStore.removeRow cmp k l = l.
Proof.
  unfold IndexedDBStore.lookupRow, IndexedDBStore.removeRow.
  induction l as [|[k' v'] rest IH]; simpl; [reflexivity|].
  destruct (IndexedDBStore.keqb cmp k k'); simpl; [discriminate|].
  intros H; rewrite IH by exact H; reflexivity.
Qed.

Lemma shouldPromote_iff now cfg record :
  shouldPromote now cfg record = true
  <-> (I_hot cfg <= effective_weight now record)%R
      \/ (U_hot cfg <= usage_count record)%Z.
Proof.
  unfold shouldPromote. rewrite orb_true_iff, Rleb_true, Z.leb_le. tauto.
Qed.

Lemma applyPromotion_declined now record simulate s :
  initialized s = true ->
  shouldPromote now (config s) record = false ->
  applyPromotion now record simulate s = (Ok (None, record), s).
Proof.
  destruct s as [cfg warm cold journal meta hot warmI sh sw ini slt jc rsc dsc
                 msl ls lc lp lk pend log].
  simpl. intros Hini Hp. subst ini.
  unfold applyPromotion. eng_unfold. rewrite Hp. reflexivity.
Qed.

Lemma applyPromotion_simulated now record s :
  initialized s = true ->
  shouldPromote now (config s) record = true ->
  applyPromotion now record true s = (Ok (Some HOT, record), s).
Proof.
  destruct s as [cfg warm cold journal meta hot warmI sh sw ini slt jc rsc dsc
                 msl ls lc lp lk pend log].
  simpl. intros Hini Hp. subst ini.
  unfold applyPromotion. eng_unfold. rewrite Hp. reflexivity.
Qed.

Lemma applyPromotion_applied now record s :
  initialized s = true ->
  IndexedDBStore.usable (warmStore s) ->
  IndexedDBStore.usable (coldStore s) ->
  shouldPromote now (config s) record = true ->
  let res := applyPromotion now record false s in
  let s' := snd res in
  fst res = Ok (Some HOT,
                setTier HOT (setHotId (Some (nextHandle (hnswHot s))) record))
  /\ rows (warmStore s')
     = IndexedDBStore.removeRow String.compare (id record) (rows (warmStore s))
  /\ rows (coldStore s')
     = IndexedDBStore.removeRow String.compare (id record) (rows (coldStore s))
  /\ hnswHot s'
     = snd (EdgeVec.insertWithMetadata (embedding record) (toJSON record)
              (hnswHot s))
  /\ hnswWarm s'
     = match hnswWarmId record with
       | Some h => EdgeVec.softDelete h (hnswWarm s)
       | None => hnswWarm s
       end
  /\ journalStore s' = journalStore s /\ metaStore s' = metaStore s
  /\ journalCounter s' = journalCounter s.
Proof.
  destruct s as [cfg warm cold journal meta hot warmI sh sw ini slt jc rsc dsc
                 msl ls lc lp lk pend log].
  simpl. intros Hini Hw Hc Hp. subst ini.
  concrete_store Hw. concrete_store Hc.
  unfold applyPromotion, applyPromotion_try. eng_unfold. rewrite Hp.
  eng_unfold.
  destruct record as [rid remb rtext rts rla rep rimp ruse rcl rih rtier reh
                      rmeta rhot rwarm]; simpl in *.
  destruct (IndexedDBStore.lookupRow String.compare rid rows0) eqn:Ew;
    eng_unfold;
    destruct (IndexedDBStore.lookupRow String.compare rid rows1) eqn:Ec;
    eng_unfold;
    destruct rwarm; eng_unfold; simpl;
    rewrite ?(removeRow_absent _ _ _ Ew), ?(removeRow_absent _ _ _ Ec);
    repeat split; reflexivity.
Qed.

Lemma In_removeRow {V} recordId k (v : V) l :
  In (k, v) (IndexedDBStore.removeRow String.compare recordId l)
  <-> In (k, v) l /\ k <> recordId.
Proof.
  unfold IndexedDBStore.removeRow. rewrite filter_In. cbn [fst].
  assert (Hk : IndexedDBStore.keqb String.compare recordId k
               = String.eqb recordId k).
  { unfold IndexedDBStore.keqb.
    destruct (String.eqb_spec recordId k) as [->|Hne].
    - assert (Hrefl : forall t, String.compare t t = Eq).
      { induction t as [|c t IH]; simpl; [reflexivity|].
        assert (Hc : Ascii.compare c c = Eq)
          by (unfold Ascii.compare; apply N.compare_refl).
        rewrite Hc. exact IH. }
      rewrite Hrefl. reflexivity.
    - destruct (String.compare recordId k) eqn:E; try reflexivity.
      apply String.compare_eq_iff in E. contradiction. }
  rewrite Hk. split.
  - intros [Hin Hne]. split; [exact Hin|].
    apply negb_true_iff, String.eqb_neq in Hne. congruence.
  - intros [Hin Hne]. split; [exact Hin|].
    apply negb_true_iff, String.eqb_neq. congruence.
Qed.

Lemma live_softDelete {Meta} h (idx : Index Meta) n :
  In n (EdgeVec.live (EdgeVec.softDelete h idx))
  <-> In n (EdgeVec.live idx) /\ n_handle n <> h.
Proof.
  unfold EdgeVec.live, EdgeVec.softDelete. cbn [nodes].
  rewrite !filter_In, in_map_iff. split.
  - intros [(n0 & Hf & Hin) Hlive].
    destruct (Nat.eqb (n_handle n0) h) eqn:E.
    + subst n. discriminate Hlive.
    + subst n. apply Nat.eqb_neq in E. tauto.
  - intros [[Hin Hlive] Hne]. split; [|exact Hlive].
    exists n. split; [|exact Hin].
    apply Nat.eqb_neq in Hne. rewrite Hne. reflexivity.
Qed.

(** C6.  [shouldPromote] holds exactly when the effective weight reaches
    [I_hot] or the usage count reaches [U_hot].  When it holds and the call
    is not a simulation, [applyPromotion] answers HOT and leaves the record
    with the tier HOT and with the handle under which it was inserted into
    the HOT index, every other field being as before; the WARM store and
    the COLD store hold the rows they held except those filed under the id
    of the record; the HOT index has one more node, with the embedding of
    the record and the fresh handle; and the live nodes of the WARM index
    are those that were live except the one with the WARM handle of the
    record.  A simulation answers HOT and changes nothing.  When the rule
    does not hold, [applyPromotion] answers null and changes nothing. *)
Theorem promotion_rule (now : Z) (record : MemoryRecord) (s : SCMP) :
  initialized s = true ->
  IndexedDBStore.usable (warmStore s) ->
  IndexedDBStore.usable (coldStore s) ->
  (shouldPromote now (config s) record = true
   <-> (I_hot (config s) <= effective_weight now record)%R
       \/ (U_hot (config s) <= usage_count record)%Z)
  /\ if shouldPromote now (config s) record
     then
       (let res := applyPromotion now record false s in
        let s' := snd res in
        exists promoted,
          fst res = Ok (Some HOT, promoted)
          /\ hnswHotId promoted = Some (nextHandle (hnswHot s))
          /\ currentTier promoted = HOT
          /\ (id promoted = id record
              /\ embedding promoted = embedding record
              /\ text promoted = text record
              /\ timestamp promoted = timestamp record
              /\ lastAccessed promoted = lastAccessed record
              /\ episodic promoted = episodic record
              /\ importance promoted = importance record
              /\ usage_count promoted = usage_count record
              /\ semantic_cluster_id promoted = semantic_cluster_id record
              /\ integrity_hash promoted = integrity_hash record
              /\ embeddingHash promoted = embeddingHash record
              /\ metadata promoted = metadata record
              /\ hnswWarmId promoted = hnswWarmId record)
          /\ (forall k v, In (k, v) (rows (warmStore s'))
                          <-> In (k, v) (rows (warmStore s)) /\ k <> id record)
          /\ (forall k v, In (k, v) (rows (coldStore s'))
                          <-> In (k, v) (rows (coldStore s)) /\ k <> id record)
          /\ nodes (hnswHot s')
             = nodes (hnswHot s)
               ++ [mkNode (nextHandle (hnswHot s)) (embedding record)
                          (toJSON record) false]
          /\ (nextHandle (hnswHot s) < nextHandle (hnswHot s'))%nat
          /\ (forall n, In n (EdgeVec.live (hnswWarm s'))
                        <-> In n (EdgeVec.live (hnswWarm s))
                            /\ hnswWarmId record <> Some (n_handle n))
          /\ journalStore s' = journalStore s /\ metaStore s' = metaStore s
          /\ journalCounter s' = journalCounter s)
       /\ applyPromotion now record true s = (Ok (Some HOT, record), s)
     else
       forall simulate,
         applyPromotion now record simulate s = (Ok (None, record), s).
Proof.
  intros Hini Hw Hc. split; [apply shouldPromote_iff|].
  destruct (shouldPromote now (config s) record) eqn:Hp.
  - split; [|apply applyPromotion_simulated; assumption].
    destruct (applyPromotion_applied now record s Hini Hw Hc Hp)
      as (Hres & Hwarm & Hcold & Hhot & Hwi & Hj & Hm & Hjc).
    cbv zeta in *.
    exists (setTier HOT (setHotId (Some (nextHandle (hnswHot s))) record)).
    split; [exact Hres|].
    split; [reflexivity|]. split; [reflexivity|].
    split; [repeat split; reflexivity|].
    split; [intros k v; rewrite Hwarm; apply In_removeRow|].
    split; [intros k v; rewrite Hcold; apply In_removeRow|].
    split; [rewrite Hhot; reflexivity|].
    split; [rewrite Hhot; simpl; lia|].
    split; [|tauto].
    intros n. rewrite Hwi. destruct (hnswWarmId record) as [h|].
    + rewrite live_softDelete. split; intros [H1 H2]; (split; [exact H1|]).
      * intros Heq. inversion Heq. congruence.
      * intros Heq. apply H2. congruence.
    + split; [intros H; split; [exact H | discriminate] | tauto].
  - intros simulate; apply applyPromotion_declined; assumption.
Qed.

(** ** Pruning *)

Lemma keqb_string_eq a b :
  IndexedDBStore.keqb String.compare a b = String.eqb a b.
Proof.
  unfold IndexedDBStore.keqb.
  destruct (String.eqb_spec a b) as [->|Hne].
  - rewrite String_compare_refl; reflexivity.
  - destruct (String.compare a b) eqn:E; try reflexivity.
    apply String.compare_eq_iff in E; contradiction.
Qed.

Lemma pruneLoop_run now recs : forall acc s,
  initialized s = true ->
  IndexedDBStore.usable (coldStore s) ->
  let ids := map (@id) (filter (prunable now (config s)) recs) in
  foldM (pruneStep now false) acc recs s =
  (Ok (acc ++ ids),
   set_ioLog (ioLog s ++ deleteEvents ids)
     (set_deletionsSinceCompaction
        (deletionsSinceCompaction s + Z.of_nat (length ids))
        (set_coldStore
           (mkStore true true (removeRows ids (rows (coldStore s)))) s))).
Proof.
  induction recs as [|r recs IH]; intros acc s Hini Hc;
    destruct s as [cfg warm cold journal meta hot warmI sh sw ini slt jc rsc
                   dsc msl ls lc lp lk pend log];
    simpl in Hini, Hc; subst ini; concrete_store Hc.
  - simpl. unfold ret. rewrite !app_nil_r, Z.add_0_r. reflexivity.
  - cbn [foldM]. unfold pruneStep. eng_unfold.
    cbn [filter].
    destruct (prunable now cfg r) eqn:Hp; eng_unfold.
    + rewrite IH by (simpl; auto; split; reflexivity).
      eng_unfold. unfold removeRows, deleteEvents. cbn [map fold_left length].
      f_equal; [rewrite <- app_assoc; reflexivity|].
      f_equal; [lia | rewrite <- app_assoc; reflexivity].
    + rewrite IH by (simpl; auto; split; reflexivity).
      reflexivity.
Qed.

Lemma removeRows_filter ids : forall l,
  removeRows ids l
  = filter (fun kv => negb (existsb (String.eqb (fst kv)) ids)) l.
Proof.
  unfold removeRows.
  induction ids as [|k ids IH]; intros l; simpl.
  - induction l as [|kv l IHl]; simpl; [reflexivity|]. rewrite <- IHl; reflexivity.
  - rewrite IH. unfold IndexedDBStore.removeRow.
    induction l as [|kv l IHl]; simpl; [reflexivity|].
    rewrite keqb_string_eq, (String.eqb_sym k (fst kv)).
    destruct (String.eqb (fst kv) k); simpl; rewrite IHl; reflexivity.
Qed.

Lemma filter_map_swap {A B} (f : B -> bool) (g : A -> B) (l : list A) :
  filter f (map g l) = map g (filter (fun a => f (g a)) l).
Proof.
  induction l as [|a l IH]; simpl; [reflexivity|].
  destruct (f (g a)); simpl; rewrite IH; reflexivity.
Qed.

Lemma keyed_unique {V} (l : list (string * V)) k v v' :
  NoDup (map fst l) -> In (k, v) l -> In (k, v') l -> v = v'.
Proof.
  induction l as [|[k0 v0] l IH]; simpl; intros Hnd H1 H2; [contradiction|].
  inversion Hnd as [|? ? Hnotin Hnd']; subst.
  destruct H1 as [H1|H1]; destruct H2 as [H2|H2].
  - congruence.
  - inversion H1; subst. exfalso; apply Hnotin.
    apply (in_map fst) in H2; exact H2.
  - inversion H2; subst. exfalso; apply Hnotin.
    apply (in_map fst) in H1; exact H1.
  - eapply IH; eauto.
Qed.

Lemma doomed_keys (st : Store string Row) (p : Row -> bool) :
  keyedById st ->
  forall kv, In kv (rows st) ->
    existsb (String.eqb (fst kv))
      (map (fun r => j_id (r_json r)) (filter p (map snd (rows st))))
    = p (snd kv).
Proof.
  intros [Hnd Hkey] [k v] Hin; simpl.
  destruct (p v) eqn:Hp.
  - apply existsb_exists. exists (j_id (r_json v)); split.
    + apply in_map_iff; exists v; split; [reflexivity|].
      apply filter_In; split; [|exact Hp].
      apply in_map_iff; exists (k, v); split; [reflexivity | exact Hin].
    + rewrite (Hkey k v Hin); apply String.eqb_refl.
  - apply not_true_is_false; intros Hex.
    apply existsb_exists in Hex; destruct Hex as (k' & Hk' & Heq).
    apply String.eqb_eq in Heq; subst k'.
    apply in_map_iff in Hk'; destruct Hk' as (v' & Hid & Hv').
    apply filter_In in Hv'; destruct Hv' as [Hv' Hp'].
    apply in_map_iff in Hv'; destruct Hv' as ([k2 v2] & Hsnd & Hin2).
    simpl in Hsnd; subst v2.
    assert (k2 = k) by (rewrite (Hkey k2 v' Hin2); exact Hid).
    subst k2.
    rewrite (keyed_unique _ _ _ _ Hnd Hin Hin2) in Hp; congruence.
Qed.

Lemma map_snd_filter {K V} (f : V -> bool) (l : list (K * V)) :
  map snd (filter (fun kv => f (snd kv)) l) = filter f (map snd l).
Proof.
  induction l as [|kv l IH]; simpl; [reflexivity|].
  destruct (f (snd kv)); simpl; rewrite IH; reflexivity.
Qed.

(** The rows that survive the deletion of every prunable row. *)
Lemma removeRows_doomed (st : Store string Row) (p : Row -> bool) :
  keyedById st ->
  map snd (removeRows (map (fun r => j_id (r_json r))
                         (filter p (map snd (rows st)))) (rows st))
  = filter (fun r => negb (p r)) (map snd (rows st)).
Proof.
  intros Hk. rewrite removeRows_filter.
  rewrite <- (map_snd_filter (fun r => negb (p r))). f_equal.
  apply filter_ext_in; intros kv Hin.
  rewrite (doomed_keys st p Hk kv Hin); reflexivity.
Qed.

Lemma live_compact {Meta} (idx : Index Meta) :
  EdgeVec.live (EdgeVec.compact idx) = EdgeVec.live idx.
Proof.
  unfold EdgeVec.compact, EdgeVec.live; simpl.
  induction (nodes idx) as [|n l IH]; simpl; [reflexivity|].
  destruct (n_deleted n) eqn:E; simpl; [exact IH|].
  rewrite E; simpl; rewrite IH; reflexivity.
Qed.

Lemma getAllMetadata_compact {Meta} (idx : Index Meta) :
  EdgeVec.getAllMetadata (EdgeVec.compact idx) = EdgeVec.getAllMetadata idx.
Proof. unfold EdgeVec.getAllMetadata; rewrite live_compact; reflexivity. Qed.

Lemma prunable_spec now cfg record :
  prunable now cfg record = true
  <-> (effective_weight now record < epsilon cfg)%R
      /\ usage_count record = 0%Z.
Proof.
  unfold prunable. rewrite andb_true_iff, Rltb_true, Z.eqb_eq. tauto.
Qed.

(** C5.  [prune] returns the ids of exactly the COLD rows whose effective
    weight is below [epsilon] and whose usage count is zero, in store
    order, and deletes exactly those rows: a row with a positive usage
    count or with a weight of at least [epsilon] stays and is not
    reported.  The WARM store, the journal, the meta store and the live
    entries of both indexes are untouched.  The deletion counter grows by
    one per deleted row; when at least one row was deleted and the counter
    has reached [compactionThreshold], both indexes are compacted and
    saved and the counter restarts at zero. *)
Theorem prune_exact (now : Z) (s : SCMP) :
  initialized s = true ->
  lock_prune s = false ->
  lock_compact s = false ->
  IndexedDBStore.usable (coldStore s) ->
  keyedById (coldStore s) ->
  let cold := map snd (rows (coldStore s)) in
  let doomed r := prunable now (config s) (coldRecordOf r) in
  let res := prune now false s in
  let s' := snd res in
  let d := (deletionsSinceCompaction s
            + Z.of_nat (length (filter doomed cold)))%Z in
  let compacts := Nat.ltb 0 (length (filter doomed cold))
                  && (compactionThreshold (config s) <=? d)%Z in
  (forall r, doomed r = true
             <-> (effective_weight now (coldRecordOf r) < epsilon (config s))%R
                 /\ j_usage_count (r_json r) = 0%Z)
  /\ fst res = Ok (map (fun r => j_id (r_json r)) (filter doomed cold))
  /\ map snd (rows (coldStore s')) = filter (fun r => negb (doomed r)) cold
  /\ (forall r, In r cold ->
        (0 < j_usage_count (r_json r))%Z
        \/ (epsilon (config s) <= effective_weight now (coldRecordOf r))%R ->
        In r (map snd (rows (coldStore s')))
        /\ ~ In (j_id (r_json r))
               (map (fun r => j_id (r_json r)) (filter doomed cold)))
  /\ warmStore s' = warmStore s
  /\ journalStore s' = journalStore s
  /\ metaStore s' = metaStore s
  /\ EdgeVec.getAllMetadata (hnswHot s') = EdgeVec.getAllMetadata (hnswHot s)
  /\ EdgeVec.getAllMetadata (hnswWarm s') = EdgeVec.getAllMetadata (hnswWarm s)
  /\ deletionsSinceCompaction s' = (if compacts then 0%Z else d)
  /\ (if compacts
      then hnswHot s' = EdgeVec.compact (hnswHot s)
           /\ hnswWarm s' = EdgeVec.compact (hnswWarm s)
           /\ savedHot s' = Some (EdgeVec.compact (hnswHot s))
           /\ savedWarm s' = Some (EdgeVec.compact (hnswWarm s))
      else hnswHot s' = hnswHot s /\ hnswWarm s' = hnswWarm s).
Proof.
  intros Hini Hlp Hlc Hc Hkey cold doomed res s' d compacts.
  assert (Hids : map (@id) (filter (prunable now (config s))
                              (map coldRecordOf cold))
                 = map (fun r => j_id (r_json r)) (filter doomed cold)).
  { rewrite filter_map_swap, map_map. reflexivity. }
  assert (Hrows := removeRows_doomed (coldStore s) doomed Hkey).
  fold cold in Hrows.
  assert (Hres : fst res
                 = Ok (map (fun r => j_id (r_json r)) (filter doomed cold))
            /\ rows (coldStore s')
               = removeRows (map (fun r => j_id (r_json r))
                               (filter doomed cold)) (rows (coldStore s))
            /\ warmStore s' = warmStore s
            /\ journalStore s' = journalStore s
            /\ metaStore s' = metaStore s
            /\ deletionsSinceCompaction s' = (if compacts then 0%Z else d)
            /\ (if compacts
                then hnswHot s' = EdgeVec.compact (hnswHot s)
                     /\ hnswWarm s' = EdgeVec.compact (hnswWarm s)
                     /\ savedHot s' = Some (EdgeVec.compact (hnswHot s))
                     /\ savedWarm s' = Some (EdgeVec.compact (hnswWarm s))
                else hnswHot s' = hnswHot s /\ hnswWarm s' = hnswWarm s)).
  { subst res s' compacts d. revert Hids. generalize (filter doomed cold).
    subst cold doomed. clear Hrows Hkey.
    destruct s as [cfg warm coldS journal meta hot warmI sh sw ini slt jc rsc
                   dsc msl ls lc lp lk pend log].
    simpl in *. subst ini lp lk. concrete_store Hc.
    intros l Hids. cbn [rows] in Hids.
    unfold prune, pruneBody. eng_unfold.
    rewrite pruneLoop_run by (try reflexivity; split; reflexivity).
    eng_unfold. rewrite Hids. rewrite length_map.
    destruct l as [|r0 l]; cbn [length Nat.ltb Nat.leb andb map app].
    - eng_unfold. repeat split; reflexivity.
    - unfold _compactHNSW, _trackMutation, save. eng_unfold.
      destruct (compactionThreshold cfg <=? _)%Z; eng_unfold;
        destruct (mutationBatchSize cfg <=? _)%Z; eng_unfold;
        repeat split; reflexivity. }
  destruct Hres as (R1 & R2 & R3 & R4 & R5 & R6 & R7).
  assert (Hsurv : map snd (rows (coldStore s'))
                  = filter (fun r => negb (doomed r)) cold).
  { rewrite R2. exact Hrows. }
  split; [intros r; unfold doomed; apply prunable_spec|].
  repeat split; try assumption.
  - rewrite Hsurv. apply filter_In; split; [assumption|].
    apply negb_true_iff, not_true_is_false. unfold doomed.
    rewrite prunable_spec. simpl. intros [Hw Hu].
    destruct H0 as [Hpos|Hge]; [lia|lra].
  - intros Hin. apply in_map_iff in Hin. destruct Hin as (r' & Hid & Hr').
    apply filter_In in Hr'. destruct Hr' as [Hr'in Hr'd].
    assert (r' = r).
    { unfold cold in H, Hr'in.
      apply in_map_iff in H. destruct H as ([k1 v1] & E1 & I1).
      apply in_map_iff in Hr'in. destruct Hr'in as ([k2 v2] & E2 & I2).
      simpl in E1, E2. subst v1 v2.
      destruct Hkey as [Hnd Hk].
      assert (k1 = k2).
      { rewrite (Hk _ _ I1), (Hk _ _ I2). symmetry; exact Hid. }
      subst k2. exact (keyed_unique _ _ _ _ Hnd I2 I1). }
    subst r'. unfold doomed in Hr'd. apply prunable_spec in Hr'd.
    simpl in Hr'd. destruct Hr'd as [Hw Hu].
    destruct H0 as [Hpos|Hge]; [lia|lra].
  - destruct compacts; [destruct R7 as (-> & _) | destruct R7 as (-> & _)];
      [apply getAllMetadata_compact | reflexivity].
  - destruct compacts; [destruct R7 as (_ & -> & _) | destruct R7 as (_ & ->)];
      [apply getAllMetadata_compact | reflexivity].
Qed.

(** ** The write path *)

(** C4.  When the journal store rejects its requests while the encoder,
    the WARM store and the meta store work, [createMemoryRecord] still
    returns a record: the rejected journal write is logged and dropped
    inside [appendJournal], no journal entry exists for the record, and
    the record is stored in the WARM store. *)
Theorem createMemoryRecord_survives_journal_failure
    (env : Env) (now : Z) (t : string) (options : CreateOptions)
    (emb : list R) (s : SCMP) :
  initialized s = true ->
  t <> ""%string ->
  fetchEmbedding env t = Ok emb ->
  IndexedDBStore.usable (warmStore s) ->
  IndexedDBStore.usable (metaStore s) ->
  isOpen (journalStore s) = true ->
  healthy (journalStore s) = false ->
  let res := createMemoryRecord env now t options s in
  let s' := snd res in
  exists record,
    fst res = Ok record
    /\ text record = t
    /\ journalStore s' = journalStore s
    /\ In (mkIO JournalDB OpPut false 0 (Some (journalCounter s + 1)%Z))
          (ioLog s')
    /\ IndexedDBStore.lookupRow String.compare (id record)
         (rows (warmStore s'))
       = Some (mkRow (toJSON record) (quantizeFloat16 env emb)).
Proof.
  destruct s as [cfg warm cold journal meta hot warmI sh sw ini slt jc rsc dsc
                 msl ls lc lp lk pend log].
  destruct journal as [jo jh jrows].
  simpl. intros Hini Ht Hemb Hw Hm Hjo Hjh. subst ini jo jh.
  concrete_store Hw. concrete_store Hm.
  apply String.eqb_neq in Ht.
  unfold createMemoryRecord, appendJournal, storeWarm, _incrementJournalCounter,
    _trackMutation, _hash, ollama_embed.
  eng_unfold. rewrite Ht. eng_unfold. rewrite ?Ht, Hemb. eng_unfold.
  destruct (mutationBatchSize cfg <=? _)%Z; eng_unfold;
    destruct (consolidationInterval cfg <=? _)%Z; eng_unfold;
    (eexists; split; [reflexivity|]);
    (split; [reflexivity|]); (split; [reflexivity|]);
    (split; [simpl; rewrite !in_app_iff; simpl; tauto|]);
    simpl; apply lookupRow_insertRow_same, String_compare_refl.
Qed.

(** ** Simulation *)

Lemma applyPromotion_simulate now record s :
  initialized s = true ->
  exists o, applyPromotion now record true s = (Ok (o, record), s).
Proof.
  intros Hini. destruct (shouldPromote now (config s) record) eqn:Hp.
  - exists (Some HOT). apply applyPromotion_simulated; assumption.
  - exists None. apply applyPromotion_declined; assumption.
Qed.

Lemma applyDemotion_simulate env now record s :
  initialized s = true ->
  exists o, applyDemotion env now record true s = (Ok (o, record), s).
Proof.
  destruct s as [cfg warm cold journal meta hot warmI sh sw ini slt jc rsc dsc
                 msl ls lc lp lk pend log].
  simpl. intros Hini. subst ini.
  unfold applyDemotion. eng_unfold.
  destruct (shouldDemote now cfg record); eng_unfold; eauto.
Qed.

Lemma bind_ok {S A B} (m : M S A) (k : A -> M S B) s a s' :
  m s = (Ok a, s') -> bind m k s = k a s'.
Proof. intros H; unfold bind; rewrite H; reflexivity. Qed.

Lemma linkMember_simulate env now clusterId r s :
  initialized s = true ->
  linkMember env now clusterId true r s
  = (Ok (toJSON (setImportance (importance r * (8 / 10))%R
                   (setCluster (Some clusterId) r))), s).
Proof.
  intros Hini. unfold linkMember. cbn [access].
  set (r3 := setImportance _ _).
  destruct (applyPromotion_simulate now r3 s Hini) as [o Ho].
  rewrite (bind_ok _ _ _ _ _ Ho). cbn [snd].
  destruct (applyDemotion_simulate env now r3 s Hini) as [o' Ho'].
  rewrite (bind_ok _ _ _ _ _ Ho'). reflexivity.
Qed.

Lemma mapM_frame {S A B} (f : A -> M S B) (g : A -> B) (l : list A) s :
  (forall x, f x s = (Ok (g x), s)) ->
  mapM f l s = (Ok (map g l), s).
Proof.
  intros Hf. induction l as [|x l IH]; simpl; [reflexivity|].
  rewrite (bind_ok _ _ _ _ _ (Hf x)).
  rewrite (bind_ok _ _ _ _ _ IH). reflexivity.
Qed.

(** A simulated [_processCluster] over a cluster of at least two records
    still appends the summary record to the journal: the counter advances,
    the new counter value is written to the meta store and the entry is
    written to the journal store.  Only the WARM write is skipped. *)
Lemma processCluster_simulate_journals
    (env : Env) (now : Z) (cluster : list MemoryRecord) (s : SCMP) :
  initialized s = true ->
  IndexedDBStore.usable (journalStore s) ->
  IndexedDBStore.usable (metaStore s) ->
  2 <= length cluster ->
  (forall prompt, isOk (generate env prompt) = true) ->
  let res := _processCluster env now cluster true s in
  let s' := snd res in
  let n := (journalCounter s + 1)%Z in
  isOk (fst res) = true
  /\ journalCounter s' = n
  /\ rows (metaStore s')
     = IndexedDBStore.insertRow String.compare "journal_counter"%string
         (MetaNumber n) (rows (metaStore s))
  /\ (exists summaryRecord,
        rows (journalStore s')
        = IndexedDBStore.insertRow Z.compare n
            (mkEntry n now summaryRecord) (rows (journalStore s)))
  /\ initialized s' = true
  /\ config s' = config s
  /\ warmStore s' = warmStore s /\ coldStore s' = coldStore s
  /\ hnswHot s' = hnswHot s /\ hnswWarm s' = hnswWarm s
  /\ recordsSinceConsolidation s' = recordsSinceConsolidation s
  /\ lock_consolidate s' = lock_consolidate s.
Proof.
  destruct s as [cfg warm cold journal meta hot warmI sh sw ini slt jc rsc dsc
                 msl ls lc lp lk pend log].
  simpl. intros Hini Hj Hm Hlen Hgen. subst ini.
  concrete_store Hj. concrete_store Hm.
  unfold _processCluster.
  assert (Hlt : Nat.ltb (length cluster) 2 = false)
    by (apply Nat.ltb_ge; exact Hlen).
  rewrite Hlt.
  match goal with
  | |- context [generate env ?p] =>
      specialize (Hgen p); destruct (generate env p) as [summary|] eqn:Eg;
      [clear Hgen | discriminate]
  end.
  unfold appendJournal, _incrementJournalCounter, _hash.
  eng_unfold.
  destruct (journalRotationSize cfg <=? _)%Z; eng_unfold;
    (erewrite mapM_frame
       by (intros x; apply linkMember_simulate; reflexivity));
    simpl; repeat split; try reflexivity; eexists; reflexivity.
Qed.

Lemma journalReady_inv s :
  journalReady s ->
  initialized s = true
  /\ (exists l, journalStore s = mkStore true true l)
  /\ (exists l, metaStore s = mkStore true true l).
Proof.
  intros (Hi & Hj & Hm); split; [exact Hi|].
  split; apply usable_inv; assumption.
Qed.

Lemma processCluster_simulate_step env now cluster s l s' :
  journalReady s ->
  _processCluster env now cluster true s = (Ok l, s') ->
  journalReady s' /\ journalAdvance [] l s s'.
Proof.
  intros Hr.
  destruct (journalReady_inv s Hr) as (Hini & [jl Hj] & [ml Hm]).
  destruct s as [cfg warm cold journal meta hot warmI sh sw ini slt jc rsc dsc
                 msl ls lc lp lk pend log].
  simpl in Hini, Hj, Hm. subst ini journal meta.
  unfold _processCluster.
  destruct (Nat.ltb (length cluster) 2).
  - unfold ret. intros H; inversion H; subst.
    split; [exact Hr | left; repeat split; reflexivity].
  - match goal with
    | |- context [generate env ?p] => destruct (generate env p) as [summary|e]
    end.
    2:{ eng_unfold. discriminate. }
    unfold appendJournal, _incrementJournalCounter, _hash.
    eng_unfold.
    destruct (journalRotationSize cfg <=? _)%Z; eng_unfold;
      (erewrite mapM_frame
         by (intros x; apply linkMember_simulate; reflexivity));
      intros H; inversion H; subst; clear H;
      (split; [repeat split; reflexivity|]);
      right; (split; [discriminate|]); simpl;
      (split; [lia|]);
      unfold persistedCounter; simpl;
      apply lookupRow_insertRow_same, String_compare_refl.
Qed.

Lemma journalAdvance_trans a b c s1 s2 s3 :
  journalAdvance a b s1 s2 -> journalAdvance b c s2 s3 ->
  journalAdvance a c s1 s3.
Proof.
  unfold journalAdvance, persistedCounter.
  intros [(-> & E1 & M1)|(N1 & L1 & P1)] [(-> & E2 & M2)|(N2 & L2 & P2)].
  - left; repeat split; congruence.
  - right; repeat split; [assumption | lia | assumption].
  - right; repeat split; [assumption | lia | rewrite E2, M2; assumption].
  - right; repeat split; [assumption | lia | assumption].
Qed.

Lemma journalAdvance_append acc l s s' :
  journalAdvance [] l s s' -> journalAdvance acc (acc ++ l) s s'.
Proof.
  intros [(-> & E & M)|(N & L & P)].
  - left; rewrite app_nil_r; auto.
  - right; repeat split; try assumption.
    intros H; apply app_eq_nil in H; tauto.
Qed.

Lemma foldM_journalAdvance {X}
    (f : list RecordJSON -> X -> Eng (list RecordJSON)) :
  (forall acc x s acc' s',
      journalReady s -> f acc x s = (Ok acc', s') ->
      journalReady s' /\ journalAdvance acc acc' s s') ->
  forall l acc s acc' s',
    journalReady s -> foldM f acc l s = (Ok acc', s') ->
    journalReady s' /\ journalAdvance acc acc' s s'.
Proof.
  intros Hstep. induction l as [|x l IH]; intros acc s acc' s' Hr; simpl.
  - unfold ret; intros H; inversion H; subst.
    split; [exact Hr | left; auto].
  - unfold bind at 1. destruct (f acc x s) as [[a|e] s1] eqn:E; [|discriminate].
    intros H. destruct (Hstep _ _ _ _ _ Hr E) as [Hr1 Ha1].
    destruct (IH _ _ _ _ Hr1 H) as [Hr2 Ha2].
    split; [exact Hr2 | eapply journalAdvance_trans; eassumption].
Qed.

Lemma consolidateChunk_simulate_step env now records s l s' :
  journalReady s ->
  _consolidateChunk env now records true s = (Ok l, s') ->
  journalReady s' /\ journalAdvance [] l s s'.
Proof.
  intros Hr. unfold _consolidateChunk.
  destruct (Nat.ltb (length records) 2).
  - unfold ret; intros H; inversion H; subst.
    split; [exact Hr | left; auto].
  - apply foldM_journalAdvance; [|exact Hr].
    clear. intros acc leaves s acc' s' Hr.
    destruct (Nat.ltb (length leaves) 2).
    { unfold ret; intros H; inversion H; subst.
      split; [exact Hr | left; auto]. }
    match goal with
    | |- (if ?c then _ else _) _ = _ -> _ => destruct c
    end.
    { unfold ret; intros H; inversion H; subst.
      split; [exact Hr | left; auto]. }
    unfold bind at 1.
    match goal with
    | |- context [_processCluster env now ?c true s] =>
        destruct (_processCluster env now c true s) as [[u|e] s1] eqn:E
    end; [|discriminate].
    unfold ret; intros H; inversion H; subst.
    destruct (processCluster_simulate_step _ _ _ _ _ _ Hr E) as [Hr1 Ha].
    split; [exact Hr1 | apply journalAdvance_append; exact Ha].
Qed.

Lemma journalReady_frame s s' :
  journalReady s ->
  initialized s' = initialized s ->
  journalStore s' = journalStore s ->
  metaStore s' = metaStore s ->
  journalReady s'.
Proof. unfold journalReady; intros H -> -> ->; exact H. Qed.

Lemma consolidateBody_simulate_step env now s l s' :
  journalReady s ->
  consolidateBody env now true s = (Ok l, s') ->
  journalAdvance [] l s s'.
Proof.
  intros Hr.
  destruct s as [cfg warm cold journal meta hot warmI sh sw ini slt jc rsc dsc
                 msl ls lc lp lk pend log].
  destruct warm as [wo wh wrows].
  unfold consolidateBody. eng_unfold.
  destruct wo; [|eng_unfold; discriminate].
  destruct wh; [|eng_unfold; discriminate].
  eng_unfold.
  destruct (Z.of_nat (length wrows) <? 2)%Z; eng_unfold.
  { intros H; inversion H; subst. left; auto. }
  match goal with
  | |- context [(if ?c then ?m1 else ?m2) ?st] =>
      set (loop := if c then m1 else m2); set (s0 := st)
  end.
  assert (Hr0 : journalReady s0).
  { eapply journalReady_frame; [exact Hr | reflexivity..]. }
  assert (Hloop : forall l1 s1, loop s0 = (Ok l1, s1) ->
                    journalReady s1 /\ journalAdvance [] l1 s0 s1).
  { subst loop. intros l1 s1.
    match goal with
    | |- (if ?c then _ else _) _ = _ -> _ => destruct c
    end.
    - apply foldM_journalAdvance; [|exact Hr0].
      clear. intros acc c s acc' s' Hr. cbv beta.
      destruct (_processCluster env now c true s) as [[u|e] s1] eqn:E;
        [|discriminate].
      intros H; inversion H; subst.
      destruct (processCluster_simulate_step _ _ _ _ _ _ Hr E) as [Hr1 Ha].
      split; [exact Hr1 | apply journalAdvance_append; exact Ha].
    - apply foldM_journalAdvance; [|exact Hr0].
      clear. intros acc c s acc' s' Hr. cbv beta.
      match goal with
      | |- context [_consolidateChunk env now ?r true s] =>
          destruct (_consolidateChunk env now r true s) as [[u|e] s1] eqn:E
      end; [|discriminate].
      intros H; inversion H; subst.
      destruct (consolidateChunk_simulate_step _ _ _ _ _ _ Hr E) as [Hr1 Ha].
      split; [exact Hr1 | apply journalAdvance_append; exact Ha]. }
  destruct (loop s0) as [[l1|e] s1] eqn:El; [|discriminate].
  destruct (Hloop _ _ eq_refl) as [Hr1 Ha]. clear Hloop.
  intros H; inversion H; subst; clear H.
  destruct Ha as [(-> & E & Mm)|(N & L & P)].
  - left. repeat split; destruct s1; simpl in *; assumption.
  - right. repeat split; [assumption | destruct s1; simpl in *; exact L |].
    unfold persistedCounter in *; destruct s1; simpl in *; exact P.
Qed.

(** C1.  A simulated consolidation is not free of side effects: whenever
    [consolidate] with [simulate = true] reports at least one updated
    record, the journal counter in memory has advanced and the counter row
    of the meta store holds the new value.  ([search] and [prune] with
    [simulate = true] leave the engine as it was; see
    [search_simulate_frame] and [prune_simulate_frame].) *)
Theorem consolidate_simulate_advances_journal
    (env : Env) (now : Z) (s : SCMP) (updated : list RecordJSON) :
  initialized s = true ->
  IndexedDBStore.usable (journalStore s) ->
  IndexedDBStore.usable (metaStore s) ->
  fst (consolidate env now true s) = Ok updated ->
  updated <> [] ->
  let s' := snd (consolidate env now true s) in
  (journalCounter s < journalCounter s')%Z
  /\ persistedCounter s' = Some (MetaNumber (journalCounter s')).
Proof.
  intros Hini Hj Hm.
  assert (Hr : journalReady s) by (unfold journalReady; tauto).
  destruct s as [cfg warm cold journal meta hot warmI sh sw ini slt jc rsc dsc
                 msl ls lc lp lk pend log].
  simpl in Hini. subst ini.
  unfold consolidate. eng_unfold.
  destruct lc; eng_unfold.
  { intros H; inversion H; subst. intros Hne; contradiction. }
  match goal with
  | |- context [consolidateBody env now true ?st] =>
      set (s0 := st);
      destruct (consolidateBody env now true s0) as [[l1|e] s1] eqn:E
  end; cbn [fst snd]; [|discriminate].
  intros H; inversion H; subst; clear H. intros Hne.
  assert (Hr0 : journalReady s0).
  { eapply journalReady_frame; [exact Hr | reflexivity..]. }
  destruct (consolidateBody_simulate_step _ _ _ _ _ Hr0 E)
    as [(-> & _)|(_ & L & P)]; [contradiction|].
  unfold persistedCounter in *. destruct s1; simpl in *. split; assumption.
Qed.

Example demoTwo_ready :
  initialized demoTwo = true /\ journalCounter demoTwo = 2%Z
  /\ length (rows (warmStore demoTwo)) = 2.
Proof. vm_compute. repeat split. Qed.

Lemma demo_consolidate_reports :
  exists l, fst (consolidate demoEnv 3000 true demoTwo) = Ok l /\ l <> [].
Proof.
  cbv -[linkMember Rmax Rmin Rmult Rplus Rinv IZR INR].
  rewrite linkMember_simulate by reflexivity.
  cbv -[linkMember Rmax Rmin Rmult Rplus Rinv IZR INR].
  rewrite linkMember_simulate by reflexivity.
  cbv -[linkMember Rmax Rmin Rmult Rplus Rinv IZR INR].
  eexists; split; [reflexivity | discriminate].
Qed.

(** ** The statements at work on the small installation *)

Lemma rotateJournal_discards_whole_log_witness :
  rows (journalStore (snd (rotateJournal demoRotating))) = []
  /\ journalCounter (snd (rotateJournal demoRotating)) = 2%Z.
Proof.
  destruct (rotateJournal_discards_whole_log demoRotating eq_refl
              (conj eq_refl eq_refl) (conj eq_refl eq_refl))
    as (_ & Hrows & Hcounter & _).
  split; [exact Hrows | exact Hcounter].
Defined.

Lemma nan_importance_escapes_the_clamp_witness :
  (timestamp popular <= 86400000)%Z
  /\ effective_weight_of (constructedImportance NaN) 86400000
       (fold_left mutate [MutAccess false 5000; MutAttenuate]
          (newMemoryRecord popular)) = NaN
  /\ inUnitInterval
       (effective_weight_of
          (Finite (importance
                     (fold_left mutate [MutAccess false 5000; MutAttenuate]
                        (newMemoryRecord popular))))
          86400000
          (fold_left mutate [MutAccess false 5000; MutAttenuate]
             (newMemoryRecord popular))).
Proof.
  assert (Hts : (timestamp popular <= 86400000)%Z) by (simpl; lia).
  split; [exact Hts|].
  destruct (nan_importance_escapes_the_clamp popular
              [MutAccess false 5000; MutAttenuate] 86400000 Hts)
    as ((_ & Hnan & _) & _ & _ & _ & _ & _ & Hin).
  split; [exact Hnan | exact Hin].
Defined.

Lemma demoShelved_rows :
  rows (warmStore demoShelved)
  = [("popular"%string,
      mkRow (toJSON popular) (quantizeFloat16 demoEnv (embedding popular)))]
  /\ rows (coldStore demoShelved)
     = [("popular"%string,
         mkRow (toJSON popular) (quantizeInt8 (embedding popular)))]
  /\ map (fun n => (n_handle n, j_id (n_meta n)))
         (EdgeVec.live (hnswWarm demoShelved))
     = [(0%nat, "popular"%string)].
Proof. repeat split; reflexivity. Qed.

Lemma promotion_rule_witness :
  (exists v, In ("popular"%string, v) (rows (warmStore demoShelved)))
  /\ (exists v, In ("popular"%string, v) (rows (coldStore demoShelved)))
  /\ map (fun n => (n_handle n, j_id (n_meta n)))
         (EdgeVec.live (hnswWarm demoShelved))
     = [(0%nat, "popular"%string)]
  /\ exists promoted,
       fst (applyPromotion 1000 popular false demoShelved)
       = Ok (Some HOT, promoted)
       /\ hnswHotId promoted = Some 0%nat
       /\ currentTier promoted = HOT
       /\ (forall v, ~ In ("popular"%string, v)
                       (rows (warmStore
                          (snd (applyPromotion 1000 popular false
                                  demoShelved)))))
       /\ (forall v, ~ In ("popular"%string, v)
                       (rows (coldStore
                          (snd (applyPromotion 1000 popular false
                                  demoShelved)))))
       /\ (forall n, In n (EdgeVec.live
                             (hnswWarm
                                (snd (applyPromotion 1000 popular false
                                        demoShelved)))) ->
                     n_handle n <> 0%nat)
       /\ applyPromotion 1000 popular true demoShelved
          = (Ok (Some HOT, popular), demoShelved).
Proof.
  destruct demoShelved_rows as (Hwr & Hcr & Hlive).
  split; [rewrite Hwr; eexists; left; reflexivity|].
  split; [rewrite Hcr; eexists; left; reflexivity|].
  split; [exact Hlive|].
  destruct (promotion_rule 1000 popular demoShelved eq_refl
              (conj eq_refl eq_refl) (conj eq_refl eq_refl)) as [Hiff Hrun].
  assert (Hp : shouldPromote 1000 (config demoShelved) popular = true).
  { apply Hiff. right.
    change (U_hot (config demoShelved)) with 10%Z.
    change (usage_count popular) with 10%Z. lia. }
  rewrite Hp in Hrun. destruct Hrun as [Hrun Hsim].
  cbv zeta in Hrun.
  destruct Hrun as (promoted & Hres & Hhot & Htier & _ & Hw & Hc & _ & _
                    & Hwl & _).
  exists promoted. split; [exact Hres|].
  split; [exact Hhot|]. split; [exact Htier|].
  split; [intros v Hin; apply Hw in Hin; destruct Hin as [_ Hne];
          apply Hne; reflexivity|].
  split; [intros v Hin; apply Hc in Hin; destruct Hin as [_ Hne];
          apply Hne; reflexivity|].
  split; [|exact Hsim].
  intros n Hin Hh. apply Hwl in Hin. destruct Hin as [_ Hne].
  apply Hne. rewrite Hh. reflexivity.
Defined.

Lemma createMemoryRecord_survives_journal_failure_witness :
  exists record,
    fst (createMemoryRecord demoEnv 1000 "alpha" demoOptions demoBrokenJournal)
    = Ok record
    /\ text record = "alpha"%string
    /\ journalStore
         (snd (createMemoryRecord demoEnv 1000 "alpha" demoOptions
                 demoBrokenJournal))
       = journalStore demoBrokenJournal.
Proof.
  destruct (createMemoryRecord_survives_journal_failure demoEnv 1000 "alpha"
              demoOptions [1%R; 0%R] demoBrokenJournal eq_refl
              ltac:(discriminate) eq_refl (conj eq_refl eq_refl)
              (conj eq_refl eq_refl) eq_refl eq_refl)
    as (record & Hok & Htext & Hjournal & _).
  exists record. repeat split; assumption.
Defined.

Lemma consolidate_simulate_advances_journal_witness :
  (journalCounter demoTwo
   < journalCounter (snd (consolidate demoEnv 3000 true demoTwo)))%Z.
Proof.
  destruct demo_consolidate_reports as (l & Hl & Hne).
  exact (proj1 (consolidate_simulate_advances_journal demoEnv 3000 demoTwo l
                  eq_refl (conj eq_refl eq_refl) (conj eq_refl eq_refl)
                  Hl Hne)).
Defined.

Lemma clamp01_fixed x : (0 <= x <= 1)%R -> clamp01 x = x.
Proof.
  intros H. unfold clamp01, Rmax, Rmin.
  destruct (Rle_dec 1 x); destruct (Rle_dec 0 _); lra.
Qed.

Lemma demoCold_rows :
  rows (coldStore demoCold)
  = [("forgotten"%string,
      mkRow (toJSON forgotten) (quantizeInt8 (embedding forgotten)));
     ("popular"%string,
      mkRow (toJSON popular) (quantizeInt8 (embedding popular)))].
Proof. reflexivity. Qed.

Lemma demoCold_keyed : keyedById (coldStore demoCold).
Proof.
  unfold keyedById. rewrite demoCold_rows. split.
  - repeat constructor; simpl; intuition discriminate.
  - intros k v [H|[H|[]]]; inversion H; reflexivity.
Qed.

Lemma prune_exact_witness :
  fst (prune 5000 false demoCold) = Ok ["forgotten"%string]
  /\ map (fun r => j_id (r_json r))
       (map snd (rows (coldStore (snd (prune 5000 false demoCold)))))
     = ["popular"%string].
Proof.
  destruct (prune_exact 5000 demoCold eq_refl eq_refl eq_refl
              (conj eq_refl eq_refl) demoCold_keyed)
    as (_ & Hres & Hrows & _).
  rewrite Hres, Hrows, demoCold_rows. cbn [map snd filter].
  assert (Hf : prunable 5000 (config demoCold)
                 (coldRecordOf (mkRow (toJSON forgotten)
                                  (quantizeInt8 (embedding forgotten))))
               = true).
  { apply prunable_spec. split; [|reflexivity].
    unfold effective_weight. cbn [importance coldRecordOf newMemoryRecord
      setImportance fieldsOfJSON r_json toJSON forgotten j_importance].
    rewrite !(clamp01_fixed 0) by lra.
    rewrite !Rmult_0_l. cbn [epsilon config demoCold]. 
    change (epsilon (config demoCold)) with (1 / 100)%R. lra. }
  assert (Hp : prunable 5000 (config demoCold)
                 (coldRecordOf (mkRow (toJSON popular)
                                  (quantizeInt8 (embedding popular))))
               = false).
  { unfold prunable. apply andb_false_intro2. reflexivity. }
  rewrite Hf, Hp. split; reflexivity.
Defined.

(** ** The COLD fallback of search *)

(** C2.  [_chunkedColdSearch] calls two methods of the COLD store, [count]
    and then [getAll], and [getAll] hands the engine every row of the store
    in one array; [iterateChunks] is not called.  The chunks that are
    scored one after the other are slices of that array. *)
Theorem chunkedColdSearch_reads_whole_store
    (now : Z) (queryVec : list R) (limit : nat) (simulate : bool) (s : SCMP) :
  IndexedDBStore.usable (coldStore s) ->
  let res := _chunkedColdSearch now queryVec limit simulate s in
  let allRecords := map snd (rows (coldStore s)) in
  ioLog (snd res)
  = ioLog s ++ [mkIO ColdDB OpCount true 0 None;
                mkIO ColdDB OpGetAll true (length (rows (coldStore s))) None]
  /\ (forall ev, In ev (ioLog (snd res)) ->
        io_op ev = OpIterateChunks -> In ev (ioLog s))
  /\ fst res
     = match scanColdChunks now simulate queryVec limit
               (chunks (coldSearchChunkSize (config s)) allRecords) [] with
       | Ok scored => Ok (firstn limit (sortByScore (@hit_score _) scored))
       | Err e => Err e
       end
  /\ coldStore (snd res) = coldStore s.
Proof.
  destruct s as [cfg warm cold journal meta hot warmI sh sw ini slt jc rsc dsc
                 msl ls lc lp lk pend log].
  simpl. intros Hc. concrete_store Hc.
  unfold _chunkedColdSearch. eng_unfold.
  destruct (scanColdChunks now simulate queryVec limit _ _) as [scored|e];
    eng_unfold; rewrite <- app_assoc, length_map; cbn [app];
    (split; [reflexivity|]); (split; [|split; reflexivity]);
    intros ev Hin Hop; apply in_app_or in Hin;
    (destruct Hin as [Hin|[Hin|[Hin|[]]]]; [exact Hin | | ]);
    subst ev; discriminate.
Qed.

Lemma chunkedColdSearch_reads_whole_store_witness :
  ioLog (snd (_chunkedColdSearch 5000 [1%R; 0%R] 1 true demoCold))
  = ioLog demoCold ++ [mkIO ColdDB OpCount true 0 None;
                       mkIO ColdDB OpGetAll true 2 None].
Proof.
  exact (proj1 (chunkedColdSearch_reads_whole_store 5000 [1%R; 0%R] 1 true
                  demoCold (conj eq_refl eq_refl))).
Defined.

(** ** Integrity *)

(** The metadata that [applyPromotion] hands to the HOT index is the
    snapshot [record.toJSON()] taken before [record.hnswHotId] is assigned:
    the index entry of a record promoted for the first time has no HOT
    handle. *)
Lemma applyPromotion_snapshot now record s :
  initialized s = true ->
  IndexedDBStore.usable (warmStore s) ->
  IndexedDBStore.usable (coldStore s) ->
  shouldPromote now (config s) record = true ->
  hnswHotId record = None ->
  EdgeVec.getAllMetadata (hnswHot (snd (applyPromotion now record false s)))
  = EdgeVec.getAllMetadata (hnswHot s) ++ [toJSON record]
  /\ j_hnswHotId (toJSON record) = None.
Proof.
  intros Hini Hw Hc Hp Hnone.
  destruct (applyPromotion_applied now record s Hini Hw Hc Hp)
    as (_ & _ & _ & Hhot & _).
  cbv zeta in Hhot. rewrite Hhot. split; [|exact Hnone].
  unfold EdgeVec.getAllMetadata, EdgeVec.live, EdgeVec.insertWithMetadata.
  cbn [snd nodes]. rewrite filter_app, map_app. reflexivity.
Qed.

Lemma verifyIntegrity_pass env m s :
  corruptedInHot env m s ->
  exists s', verifyIntegrity env s = (Ok [j_id m], s')
             /\ corruptedInHot env m s'.
Proof.
  destruct s as [cfg warm cold journal meta hot warmI sh sw ini slt jc rsc dsc
                 msl ls lc lp lk pend log].
  unfold corruptedInHot. simpl.
  intros (Hini & Hw & Hc & Hhot & Hwarm & Hcold & Hlook & Hnone & Hhash).
  subst ini.
  concrete_store Hw. concrete_store Hc. simpl in Hcold, Hlook. subst.
  assert (Hhash' := Hhash). apply String.eqb_neq in Hhash'.
  unfold verifyIntegrity, getAllRecords, verifyStep, quarantine, _hash.
  eng_unfold. rewrite Hhot, Hwarm. cbn [map app foldM fst].
  eng_unfold. cbn [j_text j_integrity_hash j_id withTier].
  rewrite Hhash'. eng_unfold. rewrite Hlook. eng_unfold.
  unfold IndexedDBStore.lookupRow at 1. cbn [find]. eng_unfold.
  rewrite Hhot. cbn [find]. rewrite Hnone. eng_unfold.
  rewrite andb_false_r. eng_unfold.
  destruct (compactionThreshold cfg <=? dsc + 1)%Z; eng_unfold;
    (eexists; split; [reflexivity|]);
    simpl; repeat split; try reflexivity; assumption.
Qed.

(** C7.  A corrupted record that lives in the HOT index under metadata
    without a HOT handle is reported by [verifyIntegrity] and survives its
    quarantine: a second call, made right after the first, reports the same
    id again. *)
Theorem verifyIntegrity_reports_twice (env : Env) (m : RecordJSON) (s : SCMP) :
  initialized s = true ->
  IndexedDBStore.usable (warmStore s) ->
  IndexedDBStore.usable (coldStore s) ->
  EdgeVec.getAllMetadata (hnswHot s) = [m] ->
  EdgeVec.getAllMetadata (hnswWarm s) = [] ->
  rows (coldStore s) = [] ->
  IndexedDBStore.lookupRow String.compare (j_id m) (rows (warmStore s)) = None ->
  j_hnswHotId m = None ->
  sha256 env (j_text m ++ salt s) <> j_integrity_hash m ->
  let first := verifyIntegrity env s in
  let second := verifyIntegrity env (snd first) in
  fst first = Ok [j_id m] /\ fst second = Ok [j_id m].
Proof.
  intros Hini Hw Hc Hhot Hwarm Hcold Hlook Hnone Hhash first second.
  assert (H : corruptedInHot env m s) by (unfold corruptedInHot; tauto).
  destruct (verifyIntegrity_pass env m s H) as (s1 & H1 & H').
  destruct (verifyIntegrity_pass env m s1 H') as (s2 & H2 & _).
  subst first second. rewrite H1. cbn [fst snd]. rewrite H2.
  split; reflexivity.
Qed.

Lemma applyPromotion_runs_try now record s :
  initialized s = true ->
  shouldPromote now (config s) record = true ->
  applyPromotion now record false s = applyPromotion_try record s.
Proof.
  destruct s as [cfg warm cold journal meta hot warmI sh sw ini slt jc rsc dsc
                 msl ls lc lp lk pend log].
  simpl. intros Hini Hp. subst ini.
  unfold applyPromotion. eng_unfold. rewrite Hp. reflexivity.
Qed.

(** [demoPromoted] is where [applyPromotion] leaves the installation. *)
Lemma demoPromoted_reached :
  snd (applyPromotion 1000 popular false demoStart) = demoPromoted.
Proof.
  rewrite applyPromotion_runs_try; [reflexivity | reflexivity |].
  apply shouldPromote_iff. right. vm_compute. discriminate.
Qed.

Lemma verifyIntegrity_reports_twice_witness :
  fst (verifyIntegrity demoEnv demoCorrupted) = Ok ["popular"%string]
  /\ fst (verifyIntegrity demoEnv (snd (verifyIntegrity demoEnv demoCorrupted)))
     = Ok ["popular"%string].
Proof.
  exact (verifyIntegrity_reports_twice demoEnv
           (rewriteText "forged" (toJSON popular)) demoCorrupted
           eq_refl (conj eq_refl eq_refl) (conj eq_refl eq_refl)
           eq_refl eq_refl eq_refl eq_refl eq_refl ltac:(discriminate)).
Defined.

(** ** Search filters *)

Lemma bind_inv {S A B} (m : M S A) (k : A -> M S B) s b s' :
  bind m k s = (Ok b, s') ->
  exists a s1, m s = (Ok a, s1) /\ k a s1 = (Ok b, s').
Proof.
  unfold bind. destruct (m s) as [[a|e] s1]; [eauto | discriminate].
Qed.

Lemma rescore_passes env now simulate filters res s e s' :
  rescore env now simulate filters res s = (Ok (Some e), s') ->
  exists record, sr_record e = toJSON record
                 /\ passesFilters filters record = true.
Proof.
  unfold rescore. intros H.
  apply bind_inv in H. destruct H as (emb & s1 & _ & H).
  apply bind_inv in H. destruct H as (tr & s2 & _ & H).
  destruct (passesFilters filters (snd tr)) eqn:Hp;
    unfold ret in H; inversion H; subst.
  exists (snd tr). split; [reflexivity | exact Hp].
Qed.

Lemma rescoreAll_pass env now simulate filters results : forall s out s',
  rescoreAll env now simulate filters results s = (Ok out, s') ->
  forall e, In e out ->
    exists record, sr_record e = toJSON record
                   /\ passesFilters filters record = true.
Proof.
  induction results as [|res rest IH]; intros s out s' H e Hin; simpl in H.
  - unfold ret in H; inversion H; subst. contradiction.
  - apply bind_inv in H. destruct H as (o & s1 & Ho & H).
    apply bind_inv in H. destruct H as (more & s2 & Hmore & H).
    unfold ret in H; inversion H; subst. clear H.
    destruct o as [e0|].
    + destruct Hin as [<-|Hin].
      * eapply rescore_passes; eassumption.
      * eapply IH; eassumption.
    + eapply IH; eassumption.
Qed.

Lemma In_insertByScore {A} (score : A -> R) x y l :
  In y (insertByScore score x l) <-> y = x \/ In y l.
Proof.
  induction l as [|z l IH]; simpl; [intuition|].
  destruct (Rleb (score z) (score x)); simpl; [intuition|].
  rewrite IH; intuition.
Qed.

Lemma In_sortByScore {A} (score : A -> R) y l :
  In y (sortByScore score l) <-> In y l.
Proof.
  induction l as [|x l IH]; simpl; [reflexivity|].
  rewrite In_insertByScore, IH; intuition.
Qed.

Lemma In_firstn {A} (k : nat) (y : A) l : In y (firstn k l) -> In y l.
Proof.
  revert l; induction k as [|k IH]; intros [|x l]; simpl; try tauto.
  intros [->|H]; [left; reflexivity | right; apply IH; exact H].
Qed.

Lemma searchBody_pass env now queryText k simulate filters s results s' :
  searchBody env now queryText k simulate filters s = (Ok results, s') ->
  forall e, In e results ->
    exists record, sr_record e = toJSON record
                   /\ passesFilters filters record = true.
Proof.
  unfold searchBody. intros H.
  apply bind_inv in H. destruct H as (queryVec & s1 & _ & H).
  apply bind_inv in H. destruct H as (hot & s2 & _ & H).
  apply bind_inv in H. destruct H as (results1 & s3 & _ & H).
  apply bind_inv in H. destruct H as (results2 & s4 & _ & H).
  apply bind_inv in H. destruct H as (rescored & s5 & Hres & H).
  apply bind_inv in H. destruct H as (u & s6 & _ & H).
  unfold ret in H; inversion H; subst. clear H.
  intros e Hin. apply In_firstn, In_sortByScore in Hin.
  eapply rescoreAll_pass; eassumption.
Qed.

Lemma search_pass env now queryText k simulate filters s results :
  fst (search env now queryText k simulate filters s) = Ok results ->
  forall e, In e results ->
    exists record, sr_record e = toJSON record
                   /\ passesFilters filters record = true.
Proof.
  unfold search. intros H.
  destruct (bind _ _ s) as [r sF] eqn:E. simpl in H. subst r.
  apply bind_inv in E. destruct E as (u1 & s1 & _ & E).
  apply bind_inv in E. destruct E as (held & s2 & _ & E).
  apply bind_inv in E. destruct E as (u2 & s3 & _ & E).
  apply bind_inv in E. destruct E as (u3 & s4 & _ & E).
  unfold tryFinally, tryCatch in E.
  destruct (searchBody env now queryText k simulate filters s4)
    as [[res|err] s5] eqn:Eb.
  - inversion E; subst. eapply searchBody_pass; eassumption.
  - unfold throw in E. inversion E.
Qed.

Lemma rescoreAll_others env now simulate e m o results : forall s,
  rescoreAll env now simulate (mkFilters e m o) results s
  = rescoreAll env now simulate (mkFilters e m []) results s.
Proof.
  induction results as [|res rest IH]; intros s; simpl; [reflexivity|].
  unfold bind.
  change (rescore env now simulate (mkFilters e m o) res s)
    with (rescore env now simulate (mkFilters e m []) res s).
  destruct (rescore env now simulate (mkFilters e m []) res s) as [[x|err] s1];
    [|reflexivity].
  rewrite IH. reflexivity.
Qed.

Lemma searchBody_others env now queryText k simulate e m o s :
  searchBody env now queryText k simulate (mkFilters e m o) s
  = searchBody env now queryText k simulate (mkFilters e m []) s.
Proof.
  unfold searchBody, bind.
  destruct (liftRes _ s) as [[queryVec|err] s1]; [|reflexivity].
  destruct (gets _ s1) as [[hot|err] s2]; [|reflexivity].
  match goal with
  | |- match ?c ?st with _ => _ end = _ =>
      destruct (c st) as [[results1|err] s3]; [|reflexivity]
  end.
  match goal with
  | |- match ?c ?st with _ => _ end = _ =>
      destruct (c st) as [[results2|err] s4]; [|reflexivity]
  end.
  rewrite rescoreAll_others. reflexivity.
Qed.

Lemma search_others env now queryText k simulate e m o s :
  search env now queryText k simulate (mkFilters e m o) s
  = search env now queryText k simulate (mkFilters e m []) s.
Proof.
  unfold search, bind, tryFinally, tryCatch.
  destruct (ensureInitialized s) as [[u|err] s1]; [|reflexivity].
  destruct (gets lock_search s1) as [[held|err] s2]; [|reflexivity].
  destruct (when _ _ s2) as [[u2|err] s3]; [|reflexivity].
  destruct (when _ _ s3) as [[u3|err] s4]; [|reflexivity].
  rewrite searchBody_others. reflexivity.
Qed.

(** C8.  Every result of [search] passes the [episodic] filter
    and the [minImportance] filter, and no other key of the filter object
    has any effect: the search without those keys answers the same and
    leaves the engine in the same state. *)
Theorem search_applies_named_filters_only
    (env : Env) (now : Z) (queryText : string) (k : nat) (simulate : bool)
    (filters : Filters) (s : SCMP) (results : list SearchResult) :
  fst (search env now queryText k simulate filters s) = Ok results ->
  honoursNamedFilters filters results
  /\ search env now queryText k simulate filters s
     = search env now queryText k simulate
         (mkFilters (f_episodic filters) (f_minImportance filters) []) s.
Proof.
  intros H. split.
  - intros e Hin.
    destruct (search_pass _ _ _ _ _ _ _ _ H e Hin) as (record & -> & Hp).
    unfold passesFilters in Hp. apply andb_true_iff in Hp.
    destruct Hp as [He Hm]. simpl. split.
    + intros b Hb. rewrite Hb in He. apply Bool.eqb_prop; exact He.
    + intros m Hsome Hnz. rewrite Hsome in Hm.
      apply negb_true_iff, andb_false_iff in Hm.
      destruct Hm as [Hz|Hlt].
      * apply negb_false_iff in Hz. unfold Reqb in Hz.
        destruct (Req_dec_T m 0); [contradiction | discriminate].
      * apply Rltb_false in Hlt. exact Hlt.
  - destruct filters as [e m o]. apply search_others.
Qed.

Lemma determineSimulatedTier_simulate env now record s :
  initialized s = true ->
  exists t, determineSimulatedTier env now record true s = (Ok (t, record), s).
Proof.
  intros Hini. unfold determineSimulatedTier.
  destruct (applyPromotion_simulate now record s Hini) as [o Ho].
  rewrite (bind_ok _ _ _ _ _ Ho). cbn [fst snd].
  destruct o as [t|]; [exists t; reflexivity|].
  destruct (applyDemotion_simulate env now record s Hini) as [o' Ho'].
  rewrite (bind_ok _ _ _ _ _ Ho'). cbn [fst snd].
  destruct o' as [t|]; eexists; reflexivity.
Qed.

(** What the search for facts answers on [demoTagged]: the note. *)
Lemma demo_search_result :
  exists e,
    fst (search demoEnv 3000 "alpha" 1 true factsOnly demoTagged) = Ok [e]
    /\ j_text (sr_record e) = "alpha"%string
    /\ j_metadata (sr_record e) = [("type"%string, JStr "note")].
Proof.
  cbv -[determineSimulatedTier Rmax Rmin Rmult Rplus Rinv Ropp IZR INR exp
        Rle_dec Rlt_dec Req_dec_T sqrt].
  match goal with
  | |- context [determineSimulatedTier ?e ?n ?r true ?s] =>
      destruct (determineSimulatedTier_simulate e n r s eq_refl) as [t Ht];
      rewrite Ht
  end.
  cbv -[Rmax Rmin Rmult Rplus Rinv Ropp IZR INR exp Rle_dec Rlt_dec
        Req_dec_T sqrt].
  eexists. split; [reflexivity|]. split; reflexivity.
Qed.

(** A search for facts on [demoTagged] answers with a record whose [type]
    is [note]: the equality on the [type] key was not applied. *)
Lemma search_applies_named_filters_only_counterexample :
  exists results,
    fst (search demoEnv 3000 "alpha" 1 true factsOnly demoTagged) = Ok results
    /\ ~ honoursMetadataFilters factsOnly results.
Proof.
  destruct demo_search_result as (e & He & _ & Hmeta).
  exists [e]. split; [exact He|].
  intros Hclaim.
  specialize (Hclaim e "type"%string (JStr "fact")
                (or_introl eq_refl) (or_introl eq_refl)).
  rewrite Hmeta in Hclaim. discriminate.
Qed.

Lemma search_applies_named_filters_only_witness :
  exists results,
    fst (search demoEnv 3000 "alpha" 1 true factsOnly demoTagged) = Ok results
    /\ honoursNamedFilters factsOnly results
    /\ search demoEnv 3000 "alpha" 1 true factsOnly demoTagged
       = search demoEnv 3000 "alpha" 1 true (mkFilters None None []) demoTagged.
Proof.
  destruct demo_search_result as (e & He & _).
  exists [e]. split; [exact He|].
  exact (search_applies_named_filters_only demoEnv 3000 "alpha" 1 true
           factsOnly demoTagged [e] He).
Defined.

(** ** Journal ids *)

Lemma journalPuts_app l1 l2 :
  journalPuts (l1 ++ l2) = journalPuts l1 ++ journalPuts l2.
Proof.
  induction l1 as [|ev l1 IH]; simpl; [reflexivity|].
  destruct (journalPut ev); simpl; rewrite IH; reflexivity.
Qed.

Lemma insertRow_twice {K V} (cmp : K -> K -> comparison) k (v1 v2 : V) l :
  cmp k k = Eq ->
  IndexedDBStore.insertRow cmp k v2 (IndexedDBStore.insertRow cmp k v1 l)
  = IndexedDBStore.insertRow cmp k v2 l.
Proof.
  intros Hrefl. induction l as [|[k0 v0] rest IH]; simpl.
  - rewrite Hrefl; reflexivity.
  - destruct (cmp k k0) eqn:E; simpl.
    + rewrite Hrefl; reflexivity.
    + rewrite Hrefl; reflexivity.
    + rewrite E, IH; reflexivity.
Qed.

Lemma createMemoryRecords_pair_run
    (env : Env) (now : Z) (t1 t2 : string) (options : CreateOptions)
    (e1 e2 : list R) (s : SCMP) :
  initialized s = true ->
  IndexedDBStore.usable (warmStore s) ->
  IndexedDBStore.usable (journalStore s) ->
  IndexedDBStore.usable (metaStore s) ->
  t1 <> ""%string -> t2 <> ""%string ->
  fetchEmbedding env t1 = Ok e1 -> fetchEmbedding env t2 = Ok e2 ->
  let n := (journalCounter s + 2)%Z in
  exists r1 r2 s',
    createMemoryRecords env now [t1; t2] options s = (Ok [r1; r2], s')
    /\ text r1 = t1 /\ text r2 = t2
    /\ journalPuts (ioLog s') = journalPuts (ioLog s) ++ [n; n]
    /\ (exists entry,
          rows (journalStore s')
          = IndexedDBStore.insertRow Z.compare n entry
              (rows (journalStore s)))
    /\ journalCounter s' = n.
Proof.
  destruct s as [cfg warm cold journal meta hot warmI sh sw ini slt jc rsc dsc
                 msl ls lc lp lk pend log].
  simpl. intros Hini Hw Hj Hm Ht1 Ht2 He1 He2. subst ini.
  concrete_store Hw. concrete_store Hj. concrete_store Hm.
  apply String.eqb_neq in Ht1. apply String.eqb_neq in Ht2.
  unfold createMemoryRecords, appendJournalAll, appendJournal_issue,
    appendJournal_resume, storeWarm, _trackMutation, _hash.
  cbn [embedBatch]. unfold ollama_embed. rewrite Ht1, Ht2, He1, He2.
  do 4 (eng_unfold; cbn [length seq combine mapM forEach]).
  replace (jc + 1 + 1)%Z with (jc + 2)%Z by lia.
  destruct (journalRotationSize cfg <=? _)%Z; eng_unfold;
    cbn [length seq combine mapM forEach]; eng_unfold;
    destruct (journalRotationSize cfg <=? _)%Z; eng_unfold;
    cbn [length seq combine mapM forEach]; eng_unfold;
    destruct (mutationBatchSize cfg <=? _)%Z; eng_unfold;
    (do 3 eexists; split; [reflexivity|]);
    (split; [reflexivity|]); (split; [reflexivity|]);
    cbn [ioLog journalStore rows journalCounter];
    (split; [rewrite !journalPuts_app; cbn; rewrite ?app_nil_r, <- ?app_assoc;
             reflexivity|]);
    (split; [|reflexivity]);
    eexists; apply insertRow_twice, Z.compare_refl.
Qed.

(** C3.  [createMemoryRecords] on two texts starts both [appendJournal]
    calls before either resumes, so both read the counter after it was
    incremented twice: the two journal writes carry the same id, the second
    overwrites the first, and the journal gains one entry for two
    records. *)
Theorem createMemoryRecords_journal_ids_collide
    (env : Env) (now : Z) (t1 t2 : string) (options : CreateOptions)
    (e1 e2 : list R) (s : SCMP) :
  initialized s = true ->
  IndexedDBStore.usable (warmStore s) ->
  IndexedDBStore.usable (journalStore s) ->
  IndexedDBStore.usable (metaStore s) ->
  t1 <> ""%string -> t2 <> ""%string ->
  fetchEmbedding env t1 = Ok e1 -> fetchEmbedding env t2 = Ok e2 ->
  let res := createMemoryRecords env now [t1; t2] options s in
  let n := (journalCounter s + 2)%Z in
  (exists r1 r2, fst res = Ok [r1; r2] /\ text r1 = t1 /\ text r2 = t2)
  /\ journalPuts (ioLog (snd res)) = journalPuts (ioLog s) ++ [n; n]
  /\ (exists entry,
        rows (journalStore (snd res))
        = IndexedDBStore.insertRow Z.compare n entry (rows (journalStore s)))
  /\ journalCounter (snd res) = n.
Proof.
  intros Hini Hw Hj Hm Ht1 Ht2 He1 He2 res n.
  destruct (createMemoryRecords_pair_run env now t1 t2 options e1 e2 s
              Hini Hw Hj Hm Ht1 Ht2 He1 He2)
    as (r1 & r2 & s' & Hrun & H1 & H2 & Hputs & Hrows & Hc).
  subst res. rewrite Hrun. cbn [fst snd].
  split; [exists r1, r2; auto|]. split; [exact Hputs|].
  split; [exact Hrows | exact Hc].
Qed.

(** For a single call the two-part reading of [appendJournal] and the
    method as written agree, whatever the state of the stores. *)
Lemma appendJournalAll_single now record s :
  appendJournalAll now [record] s = appendJournal now record s.
Proof.
  destruct s as [cfg warm cold journal meta hot warmI sh sw ini slt jc rsc dsc
                 msl ls lc lp lk pend log].
  destruct journal as [jo jh jrows]. destruct meta as [mo mh mrows].
  unfold appendJournalAll, appendJournal, appendJournal_issue,
    appendJournal_resume, _incrementJournalCounter.
  cbn [mapM forEach combine].
  destruct ini; eng_unfold; [|reflexivity].
  cbn [mapM forEach combine]; eng_unfold.
  destruct mo, mh; eng_unfold; cbn [mapM forEach combine]; eng_unfold;
    try reflexivity;
    destruct jo, jh; eng_unfold; try reflexivity;
    destruct (journalRotationSize cfg <=? _)%Z; eng_unfold; reflexivity.
Qed.

Lemma createMemoryRecords_journal_ids_collide_witness :
  journalPuts
    (ioLog (snd (createMemoryRecords demoEnv 1000 ["alpha"; "beta"]%string
                   demoOptions demoStart)))
  = [2%Z; 2%Z].
Proof.
  exact (proj1 (proj2
    (createMemoryRecords_journal_ids_collide demoEnv 1000 "alpha" "beta"
       demoOptions [1%R; 0%R] [1%R; 0%R] demoStart eq_refl
       (conj eq_refl eq_refl) (conj eq_refl eq_refl) (conj eq_refl eq_refl)
       ltac:(discriminate) ltac:(discriminate) eq_refl eq_refl))).
Defined.

(** *** Calls that are awaited one at a time *)

Lemma StronglySorted_snoc (l : list Z) (n : Z) :
  StronglySorted Z.lt l -> Forall (fun i => (i < n)%Z) l ->
  StronglySorted Z.lt (l ++ [n]).
Proof.
  induction l as [|x l IH]; intros Hs Hf; simpl.
  - constructor; constructor.
  - inversion Hs; subst. inversion Hf; subst.
    constructor; [apply IH; assumption|].
    apply Forall_app; split; [assumption | constructor; [assumption | constructor]].
Qed.

Lemma journalInvariant_intro s' s :
  journalPuts (ioLog s') = journalPuts (ioLog s) ->
  persistedValue s' = persistedValue s ->
  (initialized s' = true ->
   initialized s = true /\ (journalCounter s <= journalCounter s')%Z) ->
  journalInvariant s -> journalInvariant s'.
Proof.
  unfold journalInvariant. intros -> -> Hc (H1 & H2 & H3).
  split; [exact H1|]. split; [exact H2|].
  intros Hi. destruct (Hc Hi) as [Hi' Hle]. specialize (H3 Hi'). lia.
Qed.

Lemma appendJournal_invariant now record s :
  journalInvariant s -> journalInvariant (snd (appendJournal now record s)).
Proof.
  intros Hinv.
  destruct s as [cfg warm cold journal meta hot warmI sh sw ini slt jc rsc dsc
                 msl ls lc lp lk pend log].
  destruct journal as [jo jh jrows]. destruct meta as [mo mh mrows].
  unfold appendJournal, _incrementJournalCounter.
  destruct ini; eng_unfold; [|exact Hinv].
  assert (Hquiet : forall evs,
            journalPuts evs = [] ->
            journalInvariant
              (mkSCMP cfg warm cold (mkStore jo jh jrows)
                 (mkStore mo mh mrows) hot warmI sh sw true slt (jc + 1)%Z
                 rsc dsc msl ls lc lp lk pend (log ++ evs))).
  { intros evs Hevs. eapply journalInvariant_intro; [| | |exact Hinv].
    - simpl. rewrite journalPuts_app, Hevs, app_nil_r. reflexivity.
    - reflexivity.
    - simpl. intros _. split; [reflexivity | lia]. }
  destruct mo, mh; eng_unfold;
    try (apply (Hquiet [_]); reflexivity).
  destruct Hinv as (H1 & H2 & H3). unfold persistedValue, persistedCounter in *.
  simpl in H1, H2, H3. specialize (H3 eq_refl).
  destruct jo, jh; eng_unfold.
  - (* both requests succeed *)
    destruct (journalRotationSize cfg <=? _)%Z; eng_unfold;
      unfold journalInvariant, persistedValue, persistedCounter; simpl;
      rewrite lookupRow_insertRow_same by apply String_compare_refl; simpl;
      rewrite <- !app_assoc, journalPuts_app; simpl;
      (split; [apply StronglySorted_snoc; [exact H1|];
               eapply Forall_impl; [|exact H2]; simpl; intros; lia|]);
      (split; [|intros _; lia]);
      (apply Forall_app; split;
       [eapply Forall_impl; [|exact H2]; simpl; intros; lia
       | constructor; [lia | constructor]]).
  - (* the journal rejects the entry *)
    unfold journalInvariant, persistedValue, persistedCounter; simpl;
      rewrite lookupRow_insertRow_same by apply String_compare_refl; simpl;
      rewrite <- !app_assoc, journalPuts_app; simpl; rewrite app_nil_r;
      (split; [exact H1|]); (split; [|intros _; lia]);
      eapply Forall_impl; [|exact H2]; simpl; intros; lia.
  - unfold journalInvariant, persistedValue, persistedCounter; simpl;
      rewrite lookupRow_insertRow_same by apply String_compare_refl; simpl;
      rewrite <- !app_assoc, journalPuts_app; simpl; rewrite app_nil_r;
      (split; [exact H1|]); (split; [|intros _; lia]);
      eapply Forall_impl; [|exact H2]; simpl; intros; lia.
  - unfold journalInvariant, persistedValue, persistedCounter; simpl;
      rewrite lookupRow_insertRow_same by apply String_compare_refl; simpl;
      rewrite <- !app_assoc, journalPuts_app; simpl; rewrite app_nil_r;
      (split; [exact H1|]); (split; [|intros _; lia]);
      eapply Forall_impl; [|exact H2]; simpl; intros; lia.
Qed.

Lemma lookupRow_insertRow_other {V} k k' (v : V) l :
  k <> k' ->
  IndexedDBStore.lookupRow String.compare k
    (IndexedDBStore.insertRow String.compare k' v l)
  = IndexedDBStore.lookupRow String.compare k l.
Proof.
  intros Hne. unfold IndexedDBStore.lookupRow.
  assert (Hkk' : IndexedDBStore.keqb String.compare k k' = false).
  { rewrite keqb_string_eq. apply String.eqb_neq; exact Hne. }
  induction l as [|[k0 v0] rest IH]; simpl.
  - rewrite Hkk'. reflexivity.
  - destruct (String.compare k' k0) eqn:E; simpl.
    + apply String.compare_eq_iff in E. subst k0. rewrite Hkk'. reflexivity.
    + rewrite Hkk'. reflexivity.
    + destruct (IndexedDBStore.keqb String.compare k k0); [reflexivity|exact IH].
Qed.

Lemma quiet_ret {A} (a : A) : journalQuiet (ret a).
Proof. intros s; simpl; auto. Qed.

Lemma quiet_throw {A} e : journalQuiet (@throw SCMP A e).
Proof. intros s; simpl; auto. Qed.

Lemma quiet_bind {A B} (m : Eng A) (k : A -> Eng B) :
  journalQuiet m -> (forall a, journalQuiet (k a)) -> journalQuiet (bind m k).
Proof.
  intros Hm Hk s. unfold bind. specialize (Hm s).
  destruct (m s) as [[a|e] s1]; simpl in *; [|exact Hm].
  specialize (Hk a s1). destruct Hm as (E1 & E2 & E3 & E4).
  destruct Hk as (F1 & F2 & F3 & F4). repeat split; congruence.
Qed.

Lemma quiet_openStore_warm : journalQuiet (openStore warmStore set_warmStore).
Proof.
  intros s. unfold openStore. destruct (IndexedDBStore.open (warmStore s));
    destruct s; simpl; auto.
Qed.

Lemma quiet_openStore_cold : journalQuiet (openStore coldStore set_coldStore).
Proof.
  intros s. unfold openStore. destruct (IndexedDBStore.open (coldStore s));
    destruct s; simpl; auto.
Qed.

Lemma quiet_openStore_journal :
  journalQuiet (openStore journalStore set_journalStore).
Proof.
  intros s. unfold openStore. destruct (IndexedDBStore.open (journalStore s));
    destruct s; simpl; auto.
Qed.

Lemma quiet_openStore_meta : journalQuiet (openStore metaStore set_metaStore).
Proof.
  intros s. unfold openStore, IndexedDBStore.open, persistedCounter.
  destruct s as [cfg warm cold journal meta hot warmI sh sw ini slt jc rsc dsc
                 msl ls lc lp lk pend log].
  destruct meta as [mo mh mrows]. simpl.
  destruct mo; simpl; auto. destruct mh; simpl; auto.
Qed.

Lemma quiet_openAll : journalQuiet openAll.
Proof.
  unfold openAll.
  apply quiet_bind; [apply quiet_openStore_warm|]; intros w.
  apply quiet_bind; [apply quiet_openStore_cold|]; intros c.
  apply quiet_bind; [apply quiet_openStore_journal|]; intros j.
  apply quiet_bind; [apply quiet_openStore_meta|]; intros m.
  destruct (w && c && j && m); [apply quiet_ret | apply quiet_throw].
Qed.

Lemma quiet_meta_get k : journalQuiet (meta_get k).
Proof.
  intros s. unfold meta_get, readStore, persistedCounter.
  destruct (IndexedDBStore.get _ _ _); destruct s; simpl;
    rewrite journalPuts_app; simpl; rewrite app_nil_r; auto.
Qed.

Lemma quiet_meta_put k row :
  k <> "journal_counter"%string ->
  (forall v, row <> MetaNumber v) ->
  journalQuiet (meta_put k row).
Proof.
  intros Hk Hrow s. unfold meta_put, writeStore, persistedCounter.
  destruct s as [cfg warm cold journal meta hot warmI sh sw ini slt jc rsc dsc
                 msl ls lc lp lk pend log].
  destruct meta as [mo mh mrows].
  unfold IndexedDBStore.put, IndexedDBStore.request. simpl.
  destruct mo; simpl; [destruct mh; simpl|];
    rewrite journalPuts_app; simpl; rewrite app_nil_r;
    repeat split; try reflexivity.
  apply lookupRow_insertRow_other. congruence.
Qed.

Lemma quiet_set_salt v : journalQuiet (modify (set_salt v)).
Proof. intros s; destruct s; simpl; auto. Qed.

Lemma quiet_loadOrCreateKey env : journalQuiet (_loadOrCreateKey env).
Proof.
  unfold _loadOrCreateKey.
  apply quiet_bind; [apply quiet_meta_get|]; intros [row|].
  - apply quiet_ret.
  - apply quiet_meta_put; [discriminate | intros v; discriminate].
Qed.

Lemma quiet_loadOrCreateSalt env : journalQuiet (_loadOrCreateSalt env).
Proof.
  unfold _loadOrCreateSalt.
  apply quiet_bind; [apply quiet_meta_get|]; intros [[jwk|v|v]|];
    try apply quiet_set_salt.
  apply quiet_bind; [apply quiet_set_salt|]; intros _.
  apply quiet_meta_put; [discriminate | intros v; discriminate].
Qed.

(** [initialize] writes no journal entry and does not touch the counter
    row; when it succeeds on an engine that was not initialized, the
    counter in memory is the persisted one. *)
Lemma initialize_resumes_run env s r s' :
  initialize env s = (r, s') ->
  journalPuts (ioLog s') = journalPuts (ioLog s)
  /\ persistedCounter s' = persistedCounter s
  /\ (initialized s = true -> s' = s)
  /\ (initialized s = false -> initialized s' = true ->
      journalCounter s' = persistedValue s).
Proof.
  unfold initialize. unfold bind at 1. unfold gets at 1.
  destruct (initialized s) eqn:Hini.
  { unfold ret. intros H; inversion H; subst.
    split; [reflexivity|]. split; [reflexivity|].
    split; [reflexivity | intros H0; discriminate H0]. }
  unfold tryCatch.
  assert (Hpre : journalQuiet
            (openAll ;;; _loadOrCreateKey env ;;; _loadOrCreateSalt env)).
  { apply quiet_bind; [apply quiet_openAll|]; intros _.
    apply quiet_bind; [apply quiet_loadOrCreateKey|]; intros _.
    apply quiet_loadOrCreateSalt. }
  specialize (Hpre s). unfold bind in Hpre. unfold bind.
  assert (Hfail : forall s1,
            journalPuts (ioLog s1) = journalPuts (ioLog s)
            /\ persistedCounter s1 = persistedCounter s
            /\ initialized s1 = initialized s
            /\ journalCounter s1 = journalCounter s ->
            journalPuts (ioLog s1) = journalPuts (ioLog s)
            /\ persistedCounter s1 = persistedCounter s
            /\ (false = true -> s1 = s)
            /\ (false = false -> initialized s1 = true ->
                journalCounter s1 = persistedValue s)).
  { intros s1 (Hp & Hc & Hi & _).
    split; [exact Hp|]. split; [exact Hc|]. split; [discriminate|].
    intros _ Ht. congruence. }
  destruct (openAll s) as [[u|e] s1]; simpl in Hpre;
    [|unfold throw; intros H; inversion H; subst; apply Hfail; exact Hpre].
  destruct (_loadOrCreateKey env s1) as [[u1|e] s2]; simpl in Hpre;
    [|unfold throw; intros H; inversion H; subst; apply Hfail; exact Hpre].
  destruct (_loadOrCreateSalt env s2) as [[u2|e] s3]; simpl in Hpre;
    [|unfold throw; intros H; inversion H; subst; apply Hfail; exact Hpre].
  clear Hfail.
  destruct Hpre as (Hp & Hc & Hi & Hj). rewrite Hini in Hi.
  unfold _loadJournalCounter, bind.
  unfold persistedValue. rewrite <- Hc, <- Hp.
  destruct s3 as [cfg warm cold journal meta hot warmI sh sw ini slt jc rsc dsc
                  msl ls lc lp lk pend log].
  destruct meta as [mo mh mrows]. unfold persistedCounter in *.
  simpl in Hi. subst ini.
  unfold meta_get, readStore, IndexedDBStore.get, IndexedDBStore.request,
    modify, throw. simpl.
  destruct mo; simpl; [destruct mh; simpl|];
    intros H; inversion H; subst; clear H; simpl;
    rewrite journalPuts_app; simpl; rewrite app_nil_r;
    (split; [reflexivity|]); (split; [reflexivity|]);
    (split; [discriminate|]); intros _ Ht; try discriminate Ht; reflexivity.
Qed.

Lemma initialize_invariant env s :
  journalInvariant s -> journalInvariant (snd (initialize env s)).
Proof.
  intros Hinv. destruct (initialize env s) as [r s'] eqn:E. cbn [snd].
  destruct (initialize_resumes_run env s r s' E) as (Hp & Hc & Hsame & Hload).
  destruct (initialized s) eqn:Hini.
  - rewrite (Hsame eq_refl). exact Hinv.
  - destruct Hinv as (H1 & H2 & _).
    assert (Hv : persistedValue s' = persistedValue s)
      by (unfold persistedValue; rewrite Hc; reflexivity).
    unfold journalInvariant. rewrite Hp, Hv.
    split; [exact H1|]. split; [exact H2|].
    intros Hi. rewrite (Hload eq_refl Hi). lia.
Qed.

Lemma reopen_invariant s : journalInvariant s -> journalInvariant (reopen s).
Proof.
  intros (H1 & H2 & _). unfold journalInvariant, reopen, persistedValue,
    persistedCounter in *. simpl.
  split; [exact H1|]. split; [exact H2 | discriminate].
Qed.

Lemma setHealth_invariant db ok s :
  journalInvariant s -> journalInvariant (setHealth db ok s).
Proof.
  intros Hinv.
  apply (journalInvariant_intro _ s); [| | |exact Hinv];
    destruct db; destruct s; simpl;
    try reflexivity; intros Hi; (split; [exact Hi | lia]).
Qed.

Lemma newSCMP_invariant cfg : journalInvariant (newSCMP cfg).
Proof.
  unfold journalInvariant, newSCMP; simpl.
  split; [constructor|]. split; [constructor | discriminate].
Qed.

(** When every [appendJournal] is awaited before the next one starts, the
    ids of the journal entries increase strictly, through failing
    databases and through restarts: every id written is greater than all
    ids written before it. *)
Lemma awaited_appends_keep_ids_increasing env steps : forall s,
  journalInvariant s ->
  journalInvariant (run env steps s)
  /\ StronglySorted Z.lt (journalPuts (ioLog (run env steps s))).
Proof.
  unfold run.
  induction steps as [|st steps IH]; intros s Hinv; simpl.
  - split; [exact Hinv | apply Hinv].
  - apply IH. destruct st as [now record| | |db ok]; simpl.
    + apply appendJournal_invariant; exact Hinv.
    + unfold restart. apply initialize_invariant, reopen_invariant; exact Hinv.
    + apply initialize_invariant; exact Hinv.
    + apply setHealth_invariant; exact Hinv.
Qed.

(** After a restart that succeeds, the counter in memory is the value the
    meta store holds. *)
Lemma restart_resumes_counter env s :
  fst (restart env s) = Ok tt ->
  journalCounter (snd (restart env s)) = persistedValue s.
Proof.
  unfold restart. intros Hok.
  destruct (initialize env (reopen s)) as [r s'] eqn:E. simpl in Hok. subst r.
  destruct (initialize_resumes_run env _ _ _ E) as (_ & _ & _ & Hload).
  cbn [snd].
  assert (Hi : initialized s' = true).
  { clear Hload. revert E. unfold initialize, bind, gets, tryCatch. simpl.
    repeat match goal with
    | |- context [match ?m ?st with _ => _ end] =>
        match m with
        | openAll => destruct (openAll st) as [[?|?] ?]
        | _loadOrCreateKey env => destruct (_loadOrCreateKey env st) as [[?|?] ?]
        | _loadOrCreateSalt env => destruct (_loadOrCreateSalt env st) as [[?|?] ?]
        | _loadJournalCounter => destruct (_loadJournalCounter st) as [[?|?] ?]
        end
    end; unfold throw, modify; intros H; inversion H; subst; reflexivity. }
  rewrite (Hload eq_refl Hi).
  unfold persistedValue, persistedCounter, reopen. reflexivity.
Qed.

(** ** Simulated search and simulated pruning *)

Lemma readOnly_ret {A} (a : A) : readOnly (ret a).
Proof. intros s; reflexivity. Qed.

Lemma readOnly_throw {A} e : readOnly (@throw SCMP A e).
Proof. intros s; reflexivity. Qed.

Lemma readOnly_gets {A} (f : SCMP -> A) : readOnly (gets f).
Proof. intros s; reflexivity. Qed.

Lemma readOnly_liftRes {A} (r : Res A) : readOnly (liftRes r).
Proof. intros s; reflexivity. Qed.

Lemma readOnly_bind {A B} (m : Eng A) (k : A -> Eng B) :
  readOnly m -> (forall a, readOnly (k a)) -> readOnly (bind m k).
Proof.
  intros Hm Hk s. unfold bind. specialize (Hm s).
  destruct (m s) as [[a|e] s1]; simpl in *; [|exact Hm].
  rewrite (Hk a s1). exact Hm.
Qed.

Lemma readOnly_tryCatch {A} (m : Eng A) (h : string -> Eng A) :
  readOnly m -> (forall e, readOnly (h e)) -> readOnly (tryCatch m h).
Proof.
  intros Hm Hh s. unfold tryCatch. specialize (Hm s).
  destruct (m s) as [[a|e] s1]; simpl in *; [exact Hm|].
  rewrite (Hh e s1). exact Hm.
Qed.

Lemma readOnly_readStore {K V A} name op (proj : SCMP -> Store K V)
    (f : Store K V -> Res A) size :
  readOnly (readStore name op proj f size).
Proof.
  intros s. unfold readStore. destruct (f (proj s)); destruct s; reflexivity.
Qed.

Lemma readOnly_ensureInitialized : readOnly ensureInitialized.
Proof. intros s. unfold ensureInitialized. destruct (initialized s); reflexivity. Qed.

Lemma readOnly_mapM {A B} (f : A -> Eng B) l :
  (forall x, readOnly (f x)) -> readOnly (mapM f l).
Proof.
  intros Hf. induction l as [|x l IH]; simpl; [apply readOnly_ret|].
  apply readOnly_bind; [apply Hf|]; intros y.
  apply readOnly_bind; [exact IH|]; intros ys. apply readOnly_ret.
Qed.

Lemma readOnly_foldM {A B} (f : B -> A -> Eng B) l : forall acc,
  (forall b x, readOnly (f b x)) -> readOnly (foldM f acc l).
Proof.
  induction l as [|x l IH]; intros acc Hf; simpl; [apply readOnly_ret|].
  apply readOnly_bind; [apply Hf|]; intros b. apply IH; exact Hf.
Qed.

Lemma readOnly_applyPromotion now record :
  readOnly (applyPromotion now record true).
Proof.
  unfold applyPromotion.
  apply readOnly_bind; [apply readOnly_ensureInitialized|]; intros _.
  apply readOnly_bind; [apply readOnly_gets|]; intros cfg.
  destruct (negb (shouldPromote now cfg record)); apply readOnly_ret.
Qed.

Lemma readOnly_applyDemotion env now record :
  readOnly (applyDemotion env now record true).
Proof.
  unfold applyDemotion.
  apply readOnly_bind; [apply readOnly_ensureInitialized|]; intros _.
  apply readOnly_bind; [apply readOnly_gets|]; intros cfg.
  destruct (negb (shouldDemote now cfg record)); apply readOnly_ret.
Qed.

Lemma readOnly_determineSimulatedTier env now record :
  readOnly (determineSimulatedTier env now record true).
Proof.
  unfold determineSimulatedTier.
  apply readOnly_bind; [apply readOnly_applyPromotion|]; intros p.
  destruct (fst p); [apply readOnly_ret|].
  apply readOnly_bind; [apply readOnly_applyDemotion|]; intros d.
  destruct (fst d); apply readOnly_ret.
Qed.

Lemma readOnly_reconstructEmbedding env recordId tier :
  readOnly (_reconstructEmbedding env recordId tier).
Proof.
  unfold _reconstructEmbedding.
  apply readOnly_tryCatch; [|intros e; apply readOnly_throw].
  destruct tier as [[| | |]|]; try apply readOnly_throw;
    (apply readOnly_bind; [apply readOnly_readStore|]);
    intros [row|]; first [apply readOnly_ret | apply readOnly_throw].
Qed.

Lemma readOnly_rescore env now filters res :
  readOnly (rescore env now true filters res).
Proof.
  unfold rescore.
  apply readOnly_bind.
  - destruct (hit_embedding res) as [[|x v]|];
      first [apply readOnly_ret | apply readOnly_reconstructEmbedding].
  - intros emb.
    apply readOnly_bind; [apply readOnly_determineSimulatedTier|]; intros tr.
    destruct (passesFilters filters (snd tr)); apply readOnly_ret.
Qed.

Lemma readOnly_rescoreAll env now filters results :
  readOnly (rescoreAll env now true filters results).
Proof.
  induction results as [|res rest IH]; simpl; [apply readOnly_ret|].
  apply readOnly_bind; [apply readOnly_rescore|]; intros o.
  apply readOnly_bind; [exact IH|]; intros more. apply readOnly_ret.
Qed.

Lemma readOnly_chunkedColdSearch now queryVec limit simulate :
  readOnly (_chunkedColdSearch now queryVec limit simulate).
Proof.
  unfold _chunkedColdSearch.
  apply readOnly_bind; [apply readOnly_gets|]; intros chunkSize.
  apply readOnly_bind; [apply readOnly_readStore|]; intros _.
  apply readOnly_bind; [apply readOnly_readStore|]; intros allRecords.
  apply readOnly_bind; [apply readOnly_liftRes|]; intros scored.
  apply readOnly_ret.
Qed.

Lemma readOnly_searchBody env now queryText k filters :
  readOnly (searchBody env now queryText k true filters).
Proof.
  unfold searchBody.
  apply readOnly_bind; [apply readOnly_liftRes|]; intros queryVec.
  apply readOnly_bind; [apply readOnly_gets|]; intros hot.
  apply readOnly_bind.
  { destruct (Nat.ltb _ _); [|apply readOnly_ret].
    apply readOnly_bind; [apply readOnly_gets|]; intros w. apply readOnly_ret. }
  intros results1.
  apply readOnly_bind.
  { destruct (Nat.ltb _ _); [|apply readOnly_ret].
    apply readOnly_bind; [apply readOnly_chunkedColdSearch|]; intros c.
    apply readOnly_ret. }
  intros results2.
  apply readOnly_bind; [apply readOnly_rescoreAll|]; intros rescored.
  apply readOnly_bind; [apply readOnly_ret|]; intros _. apply readOnly_ret.
Qed.

(** A simulated search changes no store, no index, no counter and no lock:
    the engine it leaves differs from the engine it found in the record of
    store calls only.  The search lock plays no part in it: the call is the
    initialization guard followed by the body of the search. *)
Lemma search_simulate_frame env now queryText k filters s :
  forgetLog (snd (search env now queryText k true filters s)) = forgetLog s
  /\ search env now queryText k true filters s
     = (ensureInitialized ;;;
        tryCatch (searchBody env now queryText k true filters)
                 (fun e => throw ("Search failed: " ++ e))) s.
Proof.
  split.
  - revert s. change (readOnly (search env now queryText k true filters)).
    unfold search.
    apply readOnly_bind; [apply readOnly_ensureInitialized|]; intros _.
    apply readOnly_bind; [apply readOnly_gets|]; intros held.
    rewrite andb_false_r. cbn [negb when].
    apply readOnly_bind; [apply readOnly_ret|]; intros _.
    apply readOnly_bind; [apply readOnly_ret|]; intros _.
    intros s1. unfold tryFinally.
    pose proof (readOnly_tryCatch
                  (searchBody env now queryText k true filters)
                  (fun e => throw ("Search failed: " ++ e))
                  (readOnly_searchBody env now queryText k filters)
                  (fun e => readOnly_throw _) s1) as H.
    destruct (tryCatch _ _ s1) as [r s2]. exact H.
  - unfold search, bind, gets, tryFinally.
    destruct (ensureInitialized s) as [[u|e] s1]; [|reflexivity].
    rewrite andb_false_r. cbn [negb when ret].
    destruct (tryCatch _ _ s1) as [r s2]. reflexivity.
Qed.

Lemma readOnly_pruneStep now prunedIds record :
  readOnly (pruneStep now true prunedIds record).
Proof.
  unfold pruneStep.
  apply readOnly_bind; [apply readOnly_gets|]; intros cfg.
  destruct (prunable now cfg record); [|apply readOnly_ret].
  cbn [negb when].
  apply readOnly_bind; [apply readOnly_ret|]; intros _. apply readOnly_ret.
Qed.

Lemma readOnly_pruneBody now : readOnly (pruneBody now true).
Proof.
  unfold pruneBody.
  apply readOnly_bind; [apply readOnly_readStore|]; intros coldRaw.
  apply readOnly_bind.
  { apply readOnly_foldM. intros b x. apply readOnly_pruneStep. }
  intros prunedIds. cbn [negb andb when].
  apply readOnly_bind; [apply readOnly_ret|]; intros _. apply readOnly_ret.
Qed.

(** A simulated pruning deletes nothing and counts nothing: the engine it
    leaves differs from the engine it found in the record of store calls
    only. *)
Lemma prune_simulate_frame now s :
  forgetLog (snd (prune now true s)) = forgetLog s.
Proof.
  unfold prune, bind, gets, tryFinally, modify.
  pose proof (readOnly_ensureInitialized s) as Hi.
  destruct (ensureInitialized s) as [[u|e] s1]; simpl in Hi; [|exact Hi].
  destruct (lock_prune s1) eqn:Hlock; [exact Hi|].
  pose proof (readOnly_tryCatch (pruneBody now true)
                (fun e => throw ("Pruning failed: " ++ e))
                (readOnly_pruneBody now) (fun e => readOnly_throw _)
                (set_lock_prune true s1)) as H.
  destruct (tryCatch _ _ (set_lock_prune true s1)) as [r s2].
  cbn [snd] in *. rewrite <- Hi. clear Hi.
  destruct s1, s2. unfold forgetLog in *. simpl in *.
  inversion H; subst. reflexivity.
Qed.

(** ** The key order of a store *)

Lemma ascii_compare_lt_trans a b c :
  Ascii.compare a b = Lt -> Ascii.compare b c = Lt -> Ascii.compare a c = Lt.
Proof.
  unfold Ascii.compare. rewrite !N.compare_lt_iff. apply N.lt_trans.
Qed.

Lemma string_compare_lt_trans : forall a b c,
  String.compare a b = Lt -> String.compare b c = Lt ->
  String.compare a c = Lt.
Proof.
  induction a as [|x a IH]; intros [|y b] [|z c]; simpl; try congruence.
  destruct (Ascii.compare x y) eqn:Exy; try discriminate;
    destruct (Ascii.compare y z) eqn:Eyz; try discriminate; intros H1 H2.
  - apply Ascii.compare_eq_iff in Exy, Eyz. subst.
    assert (Hzz : Ascii.compare z z = Eq)
      by (unfold Ascii.compare; apply N.compare_refl).
    rewrite Hzz. eapply IH; eassumption.
  - apply Ascii.compare_eq_iff in Exy. subst. rewrite Eyz. reflexivity.
  - apply Ascii.compare_eq_iff in Eyz. subst. rewrite Exy. reflexivity.
  - rewrite (ascii_compare_lt_trans _ _ _ Exy Eyz). reflexivity.
Qed.

Lemma ascendingKeys_NoDup {V} (l : list (string * V)) :
  ascendingKeys l -> NoDup (map fst l).
Proof.
  unfold ascendingKeys. induction 1 as [|kv l Hs IH Hall]; simpl; constructor.
  - intros Hin. apply in_map_iff in Hin. destruct Hin as (kv' & Heq & Hin).
    rewrite Forall_forall in Hall. specialize (Hall kv' Hin).
    rewrite <- Heq, String_compare_refl in Hall. discriminate.
  - exact IH.
Qed.

Lemma insertRow_ascending {V} k (v : V) l :
  ascendingKeys l ->
  ascendingKeys (IndexedDBStore.insertRow String.compare k v l)
  /\ forall kv, In kv (IndexedDBStore.insertRow String.compare k v l) ->
       kv = (k, v) \/ In kv l.
Proof.
  unfold ascendingKeys. induction 1 as [|[k0 v0] l Hs IH Hall]; simpl.
  - split; [repeat constructor | intros kv [<-|[]]; left; reflexivity].
  - destruct (String.compare k k0) eqn:E.
    + apply String.compare_eq_iff in E. subst k0.
      split; [constructor; assumption|].
      intros kv [<-|Hin]; [left; reflexivity | right; right; exact Hin].
    + split.
      * constructor; [constructor; assumption|].
        constructor; [exact E|].
        eapply Forall_impl; [|exact Hall]. simpl. intros kv Hkv.
        eapply string_compare_lt_trans; eassumption.
      * intros kv [<-|Hin]; [left; reflexivity | right; exact Hin].
    + destruct IH as [IHs IHin]. split.
      * constructor; [exact IHs|].
        rewrite Forall_forall. intros kv Hin.
        destruct (IHin kv Hin) as [->|Hin'].
        -- simpl. rewrite String.compare_antisym, E. reflexivity.
        -- rewrite Forall_forall in Hall. apply Hall; exact Hin'.
      * intros kv [<-|Hin]; [right; left; reflexivity|].
        destruct (IHin kv Hin) as [->|Hin']; [left; reflexivity|].
        right; right; exact Hin'.
Qed.

Lemma removeRow_ascending {V} k (l : list (string * V)) :
  ascendingKeys l -> ascendingKeys (IndexedDBStore.removeRow String.compare k l).
Proof.
  unfold ascendingKeys, IndexedDBStore.removeRow.
  induction 1 as [|kv l Hs IH Hall]; simpl; [constructor|].
  destruct (negb _); [|exact IH].
  constructor; [exact IH|].
  rewrite Forall_forall in *. intros kv' Hin.
  apply filter_In in Hin. apply Hall, Hin.
Qed.

(** A store that was only ever written through [put] and [delete] is keyed
    by record id: [put] files every row under its id and keeps the keys in
    ascending order, [delete] keeps the order. *)
Lemma put_keeps_keyed (row : Row) (st st' : Store string Row) :
  ascendingKeys (rows st) ->
  (forall k v, In (k, v) (rows st) -> k = j_id (r_json v)) ->
  IndexedDBStore.put String.compare (j_id (r_json row)) row st = Ok st' ->
  ascendingKeys (rows st') /\ keyedById st'.
Proof.
  intros Hasc Hkey Hput.
  unfold IndexedDBStore.put, IndexedDBStore.request in Hput.
  destruct (negb (isOpen st)); [discriminate|].
  destruct (negb (healthy st)); [discriminate|].
  inversion Hput; subst; clear Hput. simpl.
  destruct (insertRow_ascending (j_id (r_json row)) row (rows st) Hasc)
    as [Hasc' Hin'].
  split; [exact Hasc'|]. split; [apply ascendingKeys_NoDup; exact Hasc'|].
  simpl. intros k v Hin. destruct (Hin' _ Hin) as [Heq|Hold].
  - inversion Heq; subst. reflexivity.
  - apply Hkey; exact Hold.
Qed.

(** * Further properties of the code *)

(** ** The int8 codec of the COLD tier *)

Lemma Math_round_near x :
  (x - / 2 < IZR (Math_round x) <= x + / 2)%R.
Proof.
  unfold Math_round. destruct (base_Int_part (x + / 2)) as [H1 H2]. lra.
Qed.

Lemma Math_round_IZR z : Math_round (IZR z) = z.
Proof.
  unfold Math_round. symmetry. apply Int_part_spec. lra.
Qed.

Lemma quantizeInt8_unit v :
  (-1 <= v <= 1)%R ->
  let q := Z.max (-128) (Z.min 127 (Math_round (v * 127))) in
  (-127 <= q <= 127)%Z /\ (Rabs (IZR q / 127 - v) <= 1 / 254)%R.
Proof.
  intros Hv. pose proof (Math_round_near (v * 127)) as Hr.
  set (z := Math_round (v * 127)) in *.
  assert (Hz : (-127 <= z <= 127)%Z).
  { assert (H1 : (IZR (-128) < IZR z)%R) by lra.
    assert (H2 : (IZR z < IZR 128)%R) by lra.
    apply lt_IZR in H1, H2. lia. }
  cbv zeta. rewrite Z.min_r, Z.max_r by lia.
  split; [exact Hz|].
  apply Rabs_le. lra.
Qed.

(** X1.  A vector whose components lie in [-1,1] is quantized to integers
    between -127 and 127, and dequantizing them gives every component
    back with an error of at most 1/250.  Quantizing the dequantized
    vector again gives the same integers. *)
Theorem quantizeInt8_round_trip (vec : list R) :
  Forall (fun v => (-1 <= v <= 1)%R) vec ->
  Forall (fun q => (-127 <= q <= 127)%Z) (quantizeInt8 vec)
  /\ Forall2 (fun v w => (Rabs (w - v) <= 1 / 250)%R)
       vec (dequantizeInt8 (quantizeInt8 vec))
  /\ quantizeInt8 (dequantizeInt8 (quantizeInt8 vec)) = quantizeInt8 vec.
Proof.
  induction 1 as [|v vec Hv Hvec IH]; simpl.
  - repeat split; constructor.
  - destruct IH as (IH1 & IH2 & IH3).
    destruct (quantizeInt8_unit v Hv) as [Hq Herr]. cbv zeta in Hq, Herr.
    split; [constructor; assumption|].
    split; [constructor; [lra | assumption]|].
    fold (quantizeInt8 vec). fold (dequantizeInt8 (quantizeInt8 vec)).
    fold (quantizeInt8 (dequantizeInt8 (quantizeInt8 vec))).
    rewrite IH3. f_equal.
    set (q := Z.max (-128) (Z.min 127 (Math_round (v * 127)))) in *.
    replace (IZR q / 127 * 127)%R with (IZR q) by (field; lra).
    rewrite Math_round_IZR. lia.
Qed.

Lemma quantizeInt8_round_trip_witness :
  Forall (fun q => (-127 <= q <= 127)%Z) (quantizeInt8 [1; - (1 / 2); 0]%R)
  /\ Forall2 (fun v w => (Rabs (w - v) <= 1 / 250)%R)
       [1; - (1 / 2); 0]%R
       (dequantizeInt8 (quantizeInt8 [1; - (1 / 2); 0]%R))
  /\ quantizeInt8 (dequantizeInt8 (quantizeInt8 [1; - (1 / 2); 0]%R))
     = quantizeInt8 [1; - (1 / 2); 0]%R.
Proof.
  apply (quantizeInt8_round_trip [1; - (1 / 2); 0]%R).
  repeat constructor; lra.
Defined.

(** ** Cosine similarity *)

Lemma cosineSums_swap : forall a b d na nb,
  length a = length b ->
  exists d' na' nb',
    cosineSums a b d na nb = (d', na', nb')
    /\ cosineSums b a d nb na = (d', nb', na').
Proof.
  induction a as [|x a IH]; intros [|y b] d na nb Hlen; try discriminate.
  - simpl. exists d, na, nb. split; reflexivity.
  - simpl in Hlen. injection Hlen as Hlen.
    destruct (IH b (d + x * y)%R (na + x * x)%R (nb + y * y)%R Hlen)
      as (d' & na' & nb' & H1 & H2).
    exists d', na', nb'. simpl. rewrite H1.
    replace (d + y * x)%R with (d + x * y)%R by ring. rewrite H2.
    split; reflexivity.
Qed.

Lemma cosineSums_null : forall a b d na nb,
  Forall (fun x => x = 0%R) a ->
  length a = length b ->
  exists nb', cosineSums a b d na nb = (d, na, nb').
Proof.
  induction a as [|x a IH]; intros [|y b] d na nb Hz Hlen; try discriminate.
  - simpl. exists nb. reflexivity.
  - simpl in Hlen. injection Hlen as Hlen.
    inversion Hz as [|x0 a0 Hx Ha]; subst.
    simpl.
    replace (d + 0 * y)%R with d by ring.
    replace (na + 0 * 0)%R with na by ring.
    apply IH; assumption.
Qed.

(** X2.  [cosineSimilarity] throws exactly when the two vectors differ in
    length.  Otherwise its result does not depend on the order of the two
    arguments, and it is 0 when every component of the first vector
    is 0. *)
Theorem cosineSimilarity_symmetric (a b : list R) :
  match cosineSimilarity a b with
  | Ok c => length a = length b
            /\ cosineSimilarity b a = Ok c
            /\ (Forall (fun x => x = 0%R) a -> c = 0%R)
  | Err _ => length a <> length b
  end.
Proof.
  unfold cosineSimilarity.
  destruct (Nat.eqb (length a) (length b)) eqn:E; simpl.
  2: { apply Nat.eqb_neq; exact E. }
  apply Nat.eqb_eq in E.
  assert (E' : Nat.eqb (length b) (length a) = true)
    by (apply Nat.eqb_eq; congruence).
  rewrite E'. simpl.
  destruct (cosineSums_swap a b 0 0 0 E) as (d & na & nb & H1 & H2).
  rewrite H1, H2.
  split; [exact E|].
  rewrite (Rmult_comm (sqrt nb) (sqrt na)).
  split; [reflexivity|].
  intros Hz.
  destruct (cosineSums_null a b 0 0 0 Hz E) as (nb' & H3).
  rewrite H3 in H1. inversion H1; subst.
  rewrite sqrt_0, Rmult_0_l.
  assert (Hd : Rltb (1 / 1000000000) 0 = false).
  { unfold Rltb. destruct (Rlt_dec (1 / 1000000000) 0); [lra | reflexivity]. }
  rewrite Hd. reflexivity.
Qed.

Lemma cosineSimilarity_symmetric_witness :
  exists c,
    cosineSimilarity [0; 0]%R [1; 0]%R = Ok c
    /\ cosineSimilarity [1; 0]%R [0; 0]%R = Ok c
    /\ c = 0%R.
Proof.
  generalize (cosineSimilarity_symmetric [0; 0]%R [1; 0]%R).
  destruct (cosineSimilarity [0; 0]%R [1; 0]%R) as [c|e].
  - intros (_ & Hs & Hz). exists c.
    split; [reflexivity|]. split; [exact Hs|].
    apply Hz. repeat constructor.
  - intros Hne. exfalso. apply Hne. reflexivity.
Defined.

(** ** Weights over time *)

(** X4.  The weights of a record only fade: at a later clock its decay
    score, its temporal weight and, when its importance is not negative,
    its effective weight are at most what they were at an earlier clock
    that is not before the record's timestamp. *)
Theorem weights_fade (r : MemoryRecord) (now1 now2 : Z) :
  (timestamp r <= now1)%Z -> (now1 <= now2)%Z -> (0 <= importance r)%R ->
  (decay_score now2 r <= decay_score now1 r)%R
  /\ (temporal_weight now2 r <= temporal_weight now1 r)%R
  /\ (effective_weight now2 r <= effective_weight now1 r)%R.
Proof.
  intros H1 H2 Hi.
  assert (Ha1 : (0 <= age now1 r)%R) by (apply age_nonneg; exact H1).
  assert (Ha : (age now1 r <= age now2 r)%R) by (unfold age; apply IZR_le; lia).
  pose proof HALF_LIFE_pos as Hh. pose proof SCALE_pos as Hs.
  assert (Hd : (decay_score now2 r <= decay_score now1 r)%R).
  { unfold decay_score.
    assert (Hx : (- age now2 r / IZR HALF_LIFE <= - age now1 r / IZR HALF_LIFE)%R).
    { unfold Rdiv. apply Rmult_le_compat_r; [|lra].
      left. apply Rinv_0_lt_compat. exact Hh. }
    destruct Hx as [Hlt|Heq]; [left; apply exp_increasing; exact Hlt|].
    rewrite Heq. right. reflexivity. }
  assert (Hw : (temporal_weight now2 r <= temporal_weight now1 r)%R).
  { unfold temporal_weight.
    assert (Hq : (age now1 r / IZR SCALE <= age now2 r / IZR SCALE)%R).
    { unfold Rdiv. apply Rmult_le_compat_r; [|exact Ha].
      left. apply Rinv_0_lt_compat. exact Hs. }
    assert (Hq1 : (0 <= age now1 r / IZR SCALE)%R).
    { unfold Rdiv. apply Rmult_le_pos; [exact Ha1|].
      left. apply Rinv_0_lt_compat. exact Hs. }
    unfold Rdiv. rewrite !Rmult_1_l.
    apply Rinv_le_contravar; lra. }
  split; [exact Hd|]. split; [exact Hw|].
  assert (Hn2 : (timestamp r <= now2)%Z) by lia.
  pose proof (decay_score_bounds now2 r Hn2) as Hb2.
  pose proof (temporal_weight_bounds now2 r Hn2) as Hc2.
  pose proof (decay_score_bounds now1 r H1) as Hb1.
  unfold effective_weight.
  apply Rmult_le_compat; try lra.
  - apply Rmult_le_pos; lra.
  - apply Rmult_le_compat_l; lra.
Qed.

Lemma weights_fade_witness :
  (decay_score 5000 popular <= decay_score 1000 popular)%R
  /\ (temporal_weight 5000 popular <= temporal_weight 1000 popular)%R
  /\ (effective_weight 5000 popular <= effective_weight 1000 popular)%R.
Proof.
  apply (weights_fade popular 1000 5000).
  - vm_compute. discriminate.
  - lia.
  - exact (proj1 (clamp01_bounds (1 / 2))).
Defined.

(** ** Promotion against demotion *)

Lemma applyPromotion_keeps_config now record s :
  initialized s = true ->
  IndexedDBStore.usable (warmStore s) ->
  IndexedDBStore.usable (coldStore s) ->
  shouldPromote now (config s) record = true ->
  let res := applyPromotion now record false s in
  fst res = Ok (Some HOT,
                setTier HOT (setHotId (Some (nextHandle (hnswHot s))) record))
  /\ config (snd res) = config s
  /\ initialized (snd res) = true.
Proof.
  destruct s as [cfg warm cold journal meta hot warmI sh sw ini slt jc rsc dsc
                 msl ls lc lp lk pend log].
  simpl. intros Hini Hw Hc Hp. subst ini.
  concrete_store Hw. concrete_store Hc.
  unfold applyPromotion, applyPromotion_try. eng_unfold. rewrite Hp.
  eng_unfold.
  destruct record as [rid remb rtext rts rla rep rimp ruse rcl rih rtier reh
                      rmeta rhot rwarm]; simpl in *.
  destruct (IndexedDBStore.lookupRow String.compare rid rows0) eqn:Ew;
    eng_unfold;
    destruct (IndexedDBStore.lookupRow String.compare rid rows1) eqn:Ec;
    eng_unfold;
    destruct rwarm; eng_unfold; simpl;
    repeat split; reflexivity.
Qed.

Lemma shouldPromote_excludes_shouldDemote now cfg record :
  (timestamp record <= now)%Z ->
  (0 <= importance record <= 1)%R ->
  (D_warm cfg <= I_hot cfg)%R ->
  (demotionUsageThreshold cfg <= U_hot cfg)%Z ->
  shouldPromote now cfg record = true ->
  shouldDemote now cfg record = false.
Proof.
  intros Hts Himp Hd Hu Hp. apply shouldPromote_iff in Hp.
  unfold shouldDemote. apply andb_false_iff.
  destruct Hp as [Hw|Hc].
  - left. apply Rltb_false.
    pose proof (decay_score_bounds now record Hts) as Hb.
    pose proof (temporal_weight_bounds now record Hts) as Ht.
    unfold effective_weight in Hw.
    assert (importance record * decay_score now record
            <= decay_score now record)%R by nra.
    assert (0 <= importance record * decay_score now record)%R by nra.
    assert (importance record * decay_score now record
              * temporal_weight now record
            <= decay_score now record)%R by nra.
    lra.
  - right. apply Z.ltb_ge. lia.
Qed.

(** X5.  On an initialized engine with working WARM and COLD stores whose
    demotion thresholds do not exceed the promotion thresholds, take a
    record whose timestamp is not later than the clock and whose importance
    lies in [0,1].  When [shouldPromote] accepts the record,
    [shouldDemote] rejects it, and the [applyDemotion] that follows the
    successful [applyPromotion] of the same record, as in
    [_processCluster], answers null and leaves the engine as the promotion
    left it. *)
Theorem promotion_excludes_demotion
    (env : Env) (now : Z) (record : MemoryRecord) (s : SCMP) :
  initialized s = true ->
  IndexedDBStore.usable (warmStore s) ->
  IndexedDBStore.usable (coldStore s) ->
  (timestamp record <= now)%Z ->
  (0 <= importance record <= 1)%R ->
  (D_warm (config s) <= I_hot (config s))%R ->
  (demotionUsageThreshold (config s) <= U_hot (config s))%Z ->
  shouldPromote now (config s) record = true ->
  shouldDemote now (config s) record = false
  /\ exists promoted s',
       applyPromotion now record false s = (Ok (Some HOT, promoted), s')
       /\ applyDemotion env now promoted false s' = (Ok (None, promoted), s').
Proof.
  intros Hini Hw Hc Hts Himp Hd Hu Hp.
  pose proof (shouldPromote_excludes_shouldDemote now (config s) record
                Hts Himp Hd Hu Hp) as Hnd.
  split; [exact Hnd|].
  destruct (applyPromotion_keeps_config now record s Hini Hw Hc Hp)
    as (Hres & Hcfg & Hini').
  destruct (applyPromotion now record false s) as [r s'] eqn:E.
  cbn [fst snd] in *. subst r.
  eexists. exists s'. split; [reflexivity|].
  unfold applyDemotion, bind, gets, ensureInitialized.
  rewrite Hini'. cbn [fst snd]. rewrite Hcfg.
  assert (Hsame : shouldDemote now (config s)
                    (setTier HOT
                       (setHotId (Some (nextHandle (hnswHot s))) record))
                  = shouldDemote now (config s) record) by reflexivity.
  rewrite Hsame, Hnd. reflexivity.
Qed.

Lemma promotion_excludes_demotion_witness :
  shouldDemote 1000 (config demoTwo) popular = false
  /\ exists promoted s',
       applyPromotion 1000 popular false demoTwo
       = (Ok (Some HOT, promoted), s')
       /\ applyDemotion demoEnv 1000 promoted false s'
          = (Ok (None, promoted), s').
Proof.
  apply (promotion_excludes_demotion demoEnv 1000 popular demoTwo).
  - reflexivity.
  - split; reflexivity.
  - split; reflexivity.
  - vm_compute. discriminate.
  - exact (clamp01_bounds (1 / 2)).
  - change (D_warm (config demoTwo)) with (1 / 10)%R.
    change (I_hot (config demoTwo)) with (8 / 10)%R. lra.
  - vm_compute. discriminate.
  - apply shouldPromote_iff. right. vm_compute. discriminate.
Defined.

(** ** Demotion *)

Lemma shouldDemote_iff now cfg record :
  shouldDemote now cfg record = true
  <-> (decay_score now record < D_warm cfg)%R
      /\ (usage_count record < demotionUsageThreshold cfg)%Z.
Proof.
  unfold shouldDemote. rewrite andb_true_iff, Rltb_true, Z.ltb_lt. tauto.
Qed.


Lemma old_record_decays cfg r :
  D_warm cfg = (1 / 10)%R ->
  demotionUsageThreshold cfg = 2%Z ->
  timestamp r = 0%Z ->
  usage_count r = 0%Z ->
  shouldDemote 10886400000 cfg r = true.
Proof.
  intros Hc Hu Hts Huse.
  apply shouldDemote_iff. split; [|rewrite Hu, Huse; reflexivity].
  rewrite Hc. unfold decay_score, age. rewrite Hts.
  replace (10886400000 - 0)%Z with (9 * HALF_LIFE)%Z by reflexivity.
  rewrite mult_IZR. pose proof HALF_LIFE_pos as Hh.
  replace (- (9 * IZR HALF_LIFE) / IZR HALF_LIFE)%R with (Ropp 9)
    by (field; lra).
  rewrite exp_Ropp.
  assert (H9 : (1 + 9 < exp 9)%R) by (apply exp_ineq1; lra).
  assert (Hpos : (0 < exp 9)%R) by apply exp_pos.
  apply (Rmult_lt_reg_r (exp 9)); [exact Hpos|].
  rewrite Rinv_l by lra. lra.
Qed.



(** X7.  A demotion is not undone when it fails.  When the WARM store
    rejects the write, [applyDemotion] throws the error of the store, but
    the HOT handle of the record is already soft-deleted and the record is
    already a node of the WARM index, while no store holds a row for it
    that was not there before. *)
Theorem demotion_failure_is_not_rolled_back
    (env : Env) (now : Z) (record : MemoryRecord) (h : nat) (s : SCMP) :
  initialized s = true ->
  isOpen (warmStore s) = true ->
  healthy (warmStore s) = false ->
  shouldDemote now (config s) record = true ->
  hnswHotId record = Some h ->
  let res := applyDemotion env now record false s in
  let s' := snd res in
  fst res = Err "Put failed"
  /\ hnswHot s' = EdgeVec.softDelete h (hnswHot s)
  /\ hnswWarm s'
     = snd (EdgeVec.insertWithMetadata (embedding record) (toJSON record)
              (hnswWarm s))
  /\ warmStore s' = warmStore s
  /\ coldStore s' = coldStore s.
Proof.
  destruct s as [cfg warm cold journal meta hot warmI sh sw ini slt jc rsc dsc
                 msl ls lc lp lk pend log].
  destruct warm as [wo wh wrows].
  simpl. intros Hini Ho Hh Hd Hhot. subst ini wo wh.
  unfold applyDemotion, storeWarm. eng_unfold. rewrite Hd. eng_unfold.
  rewrite Hhot. eng_unfold. simpl. repeat split; reflexivity.
Qed.

Lemma forgotten_decays_in_hot :
  shouldDemote 10886400000
    (config (set_warmStore (mkStore true false []) demoStart))
    (setHotId (Some 0) forgotten) = true.
Proof. apply old_record_decays; reflexivity. Qed.

Lemma demotion_failure_is_not_rolled_back_witness :
  fst (applyDemotion demoEnv 10886400000 (setHotId (Some 0) forgotten) false
         (set_warmStore (mkStore true false []) demoStart))
  = Err "Put failed".
Proof.
  exact (proj1 (demotion_failure_is_not_rolled_back demoEnv 10886400000
                  (setHotId (Some 0) forgotten) 0
                  (set_warmStore (mkStore true false []) demoStart)
                  eq_refl eq_refl eq_refl forgotten_decays_in_hot eq_refl)).
Defined.

(** ** The initialization guard *)

Lemma guarded {A} (m : Eng A) s :
  initialized s = false ->
  (ensureInitialized ;;; m) s = (Err notInitialized, s).
Proof.
  intros H. unfold bind, ensureInitialized. rewrite H. reflexivity.
Qed.

(** X8.  Before [initialize] has succeeded, every method that starts with
    [ensureInitialized] throws the same error, unwrapped, and leaves the
    engine exactly as it found it: nothing is embedded, journalled, stored,
    locked or scheduled. *)
Theorem uninitialized_engine_refuses
    (env : Env) (now : Z) (s : SCMP) (t : string) (texts : list string)
    (options : CreateOptions) (record : MemoryRecord) (data : RecordJSON)
    (k : nat) (simulate : bool) (filters : Filters) :
  initialized s = false ->
  createMemoryRecord env now t options s = (Err notInitialized, s)
  /\ createMemoryRecords env now texts options s = (Err notInitialized, s)
  /\ appendJournal now record s = (Err notInitialized, s)
  /\ rotateJournal s = (Err notInitialized, s)
  /\ storeWarm env record s = (Err notInitialized, s)
  /\ storeCold record s = (Err notInitialized, s)
  /\ applyPromotion now record simulate s = (Err notInitialized, s)
  /\ applyDemotion env now record simulate s = (Err notInitialized, s)
  /\ search env now t k simulate filters s = (Err notInitialized, s)
  /\ _updateRecord data s = (Err notInitialized, s)
  /\ consolidate env now simulate s = (Err notInitialized, s)
  /\ prune now simulate s = (Err notInitialized, s)
  /\ verifyIntegrity env s = (Err notInitialized, s)
  /\ quarantine t s = (Err notInitialized, s)
  /\ getAllRecords s = (Err notInitialized, s)
  /\ save s = (Err notInitialized, s)
  /\ clear s = (Err notInitialized, s).
Proof.
  intros H.
  repeat split;
    match goal with
    | |- ?m s = _ =>
        let h := eval hnf in m in
        change m with h
    end; apply guarded; exact H.
Qed.

Lemma uninitialized_engine_refuses_witness :
  search demoEnv 0 "alpha" 3 false (mkFilters None None [])
    (newSCMP defaultConfig)
  = (Err notInitialized, newSCMP defaultConfig).
Proof.
  destruct (uninitialized_engine_refuses demoEnv 0 (newSCMP defaultConfig)
              "alpha" [] demoOptions popular (toJSON popular) 3 false
              (mkFilters None None []) eq_refl)
    as (_ & _ & _ & _ & _ & _ & _ & _ & H & _).
  exact H.
Defined.

(** ** Errors that are logged and dropped *)

Lemma tryCatch_swallows (m : Eng unit) s :
  fst (tryCatch m (fun _ => ret tt) s) = Ok tt.
Proof.
  unfold tryCatch. destruct (m s) as [[[]|e] s']; reflexivity.
Qed.

Lemma guarded_ok {A} (m : Eng A) s :
  initialized s = true -> (ensureInitialized ;;; m) s = m s.
Proof.
  intros H. unfold bind, ensureInitialized. rewrite H. reflexivity.
Qed.

(** X9.  On an initialized engine [appendJournal], [rotateJournal],
    [_updateRecord] and [quarantine] never throw, whatever the stores
    answer: every error raised inside them is logged and dropped.
    [_compactHNSW] and the two memory-pressure handlers never throw on any
    engine. *)
Theorem maintenance_never_throws
    (env : Env) (now : Z) (record : MemoryRecord) (data : RecordJSON)
    (recordId : string) (s : SCMP) :
  initialized s = true ->
  fst (appendJournal now record s) = Ok tt
  /\ fst (rotateJournal s) = Ok tt
  /\ fst (_updateRecord data s) = Ok tt
  /\ fst (quarantine recordId s) = Ok tt
  /\ (forall s0, fst (_compactHNSW s0) = Ok tt)
  /\ (forall s0, fst (_handleCriticalMemoryPressure env now s0) = Ok tt)
  /\ (forall s0, fst (_handleWarningMemoryPressure now s0) = Ok tt).
Proof.
  intros H.
  split; [unfold appendJournal; rewrite guarded_ok by exact H;
          apply tryCatch_swallows|].
  split; [unfold rotateJournal; rewrite guarded_ok by exact H;
          apply tryCatch_swallows|].
  split; [unfold _updateRecord; rewrite guarded_ok by exact H;
          apply tryCatch_swallows|].
  split; [unfold quarantine; rewrite guarded_ok by exact H;
          apply tryCatch_swallows|].
  split; [|split; intros s0; apply tryCatch_swallows].
  intros s0. unfold _compactHNSW, bind, gets, modify, tryFinally.
  destruct (lock_compact s0); [reflexivity|]. cbn [fst snd].
  pose proof (tryCatch_swallows
    (modify (fun s1 => set_hnswWarm (EdgeVec.compact (hnswWarm s1))
                         (set_hnswHot (EdgeVec.compact (hnswHot s1)) s1)) ;;;
     modify (set_deletionsSinceCompaction 0) ;;; save)
    (set_lock_compact true s0)) as Hs.
  unfold bind, modify in Hs.
  destruct (tryCatch _ _ (set_lock_compact true s0)) as [r s1].
  exact Hs.
Qed.

Lemma maintenance_never_throws_witness :
  fst (appendJournal 1000 popular demoBrokenJournal) = Ok tt.
Proof.
  exact (proj1 (maintenance_never_throws demoEnv 1000 popular (toJSON popular)
                  "popular" demoBrokenJournal eq_refl)).
Defined.

(** ** Locks *)

(** X10.  [prune], [consolidate], [search] and [_compactHNSW] release
    their lock on every exit: when the lock is free at the call it is free
    when the call has returned or thrown.  When the lock is held at the
    call, [prune] and [consolidate] return the empty list and
    [_compactHNSW] returns, without touching the engine. *)
Theorem locks_are_released
    (env : Env) (now : Z) (queryText : string) (k : nat) (simulate : bool)
    (filters : Filters) (s : SCMP) :
  initialized s = true ->
  (if lock_prune s then prune now simulate s = (Ok [], s)
   else lock_prune (snd (prune now simulate s)) = false)
  /\ (if lock_consolidate s then consolidate env now simulate s = (Ok [], s)
      else lock_consolidate (snd (consolidate env now simulate s)) = false)
  /\ (if lock_compact s then _compactHNSW s = (Ok tt, s)
      else lock_compact (snd (_compactHNSW s)) = false)
  /\ (lock_search s = false ->
      lock_search (snd (search env now queryText k simulate filters s))
      = false).
Proof.
  intros Hini.
  split; [|split; [|split]].
  - unfold prune. rewrite guarded_ok by exact Hini.
    unfold bind, gets, modify, tryFinally.
    destruct (lock_prune s); [reflexivity|]. cbn [fst snd].
    destruct (tryCatch _ _ (set_lock_prune true s)) as [r s1].
    destruct s1; reflexivity.
  - unfold consolidate. rewrite guarded_ok by exact Hini.
    unfold bind, gets, modify, tryFinally.
    destruct (lock_consolidate s); [reflexivity|]. cbn [fst snd].
    destruct (tryCatch _ _ (set_lock_consolidate true s)) as [r s1].
    destruct s1; reflexivity.
  - unfold _compactHNSW, bind, gets, modify, tryFinally.
    destruct (lock_compact s); [reflexivity|]. cbn [fst snd].
    destruct (tryCatch _ _ (set_lock_compact true s)) as [r s1].
    destruct s1; reflexivity.
  - intros Hfree. destruct simulate.
    + destruct (search_simulate_frame env now queryText k filters s)
        as [Hframe _].
      assert (Hl : lock_search (forgetLog
                     (snd (search env now queryText k true filters s)))
                   = lock_search (forgetLog s)) by (rewrite Hframe; reflexivity).
      destruct (snd (search env now queryText k true filters s)), s.
      simpl in *. congruence.
    + unfold search. rewrite guarded_ok by exact Hini.
      unfold bind, gets, modify, tryFinally, when, ret. rewrite Hfree.
      cbn [andb negb fst snd].
      destruct (tryCatch _ _ (set_lock_search true s)) as [r s1].
      destruct s1; reflexivity.
Qed.

Lemma locks_are_released_witness :
  lock_prune (snd (prune 5000 false demoCold)) = false.
Proof.
  exact (proj1 (locks_are_released demoEnv 5000 "alpha" 1 false
                  (mkFilters None None []) demoCold eq_refl)).
Defined.

(** ** Creating records *)

(** X11.  A successful [createMemoryRecord] returns a WARM record with the
    text, its embedding, usage count 0, the clamped importance and the
    salted hash of the text.  It advances the journal counter by one and
    files under the new counter value a journal entry that holds the
    record as it was before it had a WARM handle; it inserts the record
    into the WARM index, records the handle on the record and files the
    record under its id in the WARM store with the float16 embedding; and
    it counts one record since consolidation and one mutation. *)
Theorem createMemoryRecord_journals_then_stores
    (env : Env) (now : Z) (t : string) (options : CreateOptions)
    (emb : list R) (s : SCMP) :
  initialized s = true ->
  t <> ""%string ->
  fetchEmbedding env t = Ok emb ->
  IndexedDBStore.usable (warmStore s) ->
  IndexedDBStore.usable (journalStore s) ->
  IndexedDBStore.usable (metaStore s) ->
  let res := createMemoryRecord env now t options s in
  let s' := snd res in
  let n := (journalCounter s + 1)%Z in
  exists record,
    fst res = Ok record
    /\ (text record = t /\ embedding record = emb
        /\ currentTier record = WARM /\ usage_count record = 0%Z
        /\ timestamp record = now
        /\ importance record
           = clamp01 (orDefault (o_importance options) (/ 2)%R)
        /\ integrity_hash record = sha256 env (t ++ salt s)
        /\ hnswWarmId record = Some (nextHandle (hnswWarm s)))
    /\ journalCounter s' = n
    /\ IndexedDBStore.lookupRow Z.compare n (rows (journalStore s'))
       = Some (mkEntry n now (toJSON (setWarmId None record)))
    /\ hnswWarm s'
       = snd (EdgeVec.insertWithMetadata emb
                (toJSON (setWarmId None record)) (hnswWarm s))
    /\ IndexedDBStore.lookupRow String.compare (id record)
         (rows (warmStore s'))
       = Some (mkRow (toJSON record) (quantizeFloat16 env emb))
    /\ recordsSinceConsolidation s' = (recordsSinceConsolidation s + 1)%Z
    /\ mutationsSinceLastSave s' = (mutationsSinceLastSave s + 1)%Z
    /\ coldStore s' = coldStore s /\ hnswHot s' = hnswHot s.
Proof.
  destruct s as [cfg warm cold journal meta hot warmI sh sw ini slt jc rsc dsc
                 msl ls lc lp lk pend log].
  simpl. intros Hini Ht Hemb Hw Hj Hm. subst ini.
  concrete_store Hw. concrete_store Hj. concrete_store Hm.
  apply String.eqb_neq in Ht.
  unfold createMemoryRecord, appendJournal, storeWarm, _incrementJournalCounter,
    _trackMutation, _hash, ollama_embed.
  eng_unfold. rewrite Ht. eng_unfold. rewrite ?Ht, Hemb. eng_unfold.
  destruct (journalRotationSize cfg <=? _)%Z; eng_unfold;
    destruct (mutationBatchSize cfg <=? _)%Z; eng_unfold;
    destruct (consolidationInterval cfg <=? _)%Z; eng_unfold;
    (eexists; split; [reflexivity|]);
    (split; [repeat split; reflexivity|]);
    (split; [reflexivity|]);
    (split; [simpl; apply lookupRow_insertRow_same, Z.compare_refl|]);
    (split; [reflexivity|]);
    (split; [simpl; apply lookupRow_insertRow_same, String_compare_refl|]);
    repeat split; reflexivity.
Qed.

Lemma createMemoryRecord_journals_then_stores_witness :
  exists record,
    fst (createMemoryRecord demoEnv 1000 "alpha" demoOptions demoStart)
    = Ok record
    /\ IndexedDBStore.lookupRow Z.compare 1%Z
         (rows (journalStore
            (snd (createMemoryRecord demoEnv 1000 "alpha" demoOptions
                    demoStart))))
       = Some (mkEntry 1%Z 1000 (toJSON (setWarmId None record))).
Proof.
  destruct (createMemoryRecord_journals_then_stores demoEnv 1000 "alpha"
              demoOptions [1%R; 0%R] demoStart eq_refl ltac:(discriminate)
              eq_refl (conj eq_refl eq_refl) (conj eq_refl eq_refl)
              (conj eq_refl eq_refl))
    as (record & Hres & _ & _ & Hj & _).
  exists record. split; [exact Hres | exact Hj].
Defined.

Lemma embedBatch_fails env texts :
  (exists t, In t texts /\ exists e, ollama_embed env t = Err e) ->
  exists t e, In t texts /\ ollama_embed env t = Err e
              /\ embedBatch env texts = Err e.
Proof.
  induction texts as [|t0 rest IH]; intros (t & Hin & e & He).
  - destruct Hin.
  - cbn [embedBatch].
    destruct (ollama_embed env t0) as [v|e0] eqn:E0.
    + destruct Hin as [->|Hin]; [congruence|].
      destruct IH as (t' & e' & Hin' & He' & Hb'); [exists t; eauto|].
      exists t', e'. split; [right; exact Hin'|]. split; [exact He'|].
      rewrite Hb'. reflexivity.
    + exists t0, e0. split; [left; reflexivity|]. split; [exact E0|reflexivity].
Qed.

(** X12.  A record that cannot be embedded leaves no trace.  On an
    initialized engine, when the text is empty, or when the embedding
    request fails, [createMemoryRecord] throws and the engine is exactly as
    before: the journal counter has not moved and no store has been
    called.  When one of the texts handed to [createMemoryRecords] cannot
    be embedded, the call throws the error of a text that cannot be
    embedded, prefixed with [Batch memory creation failed], and the engine
    is exactly as before. *)
Theorem failed_embedding_leaves_no_trace
    (env : Env) (now : Z) (t : string) (texts : list string)
    (options : CreateOptions) (s : SCMP) :
  initialized s = true ->
  (t = ""%string ->
   createMemoryRecord env now t options s
   = (Err "Invalid text for memory record", s))
  /\ (forall e, t <> ""%string -> fetchEmbedding env t = Err e ->
      createMemoryRecord env now t options s
      = (Err ("Memory creation failed: " ++ e), s))
  /\ ((exists t', In t' texts /\ exists e, ollama_embed env t' = Err e) ->
      exists t' e,
        In t' texts /\ ollama_embed env t' = Err e
        /\ createMemoryRecords env now texts options s
           = (Err ("Batch memory creation failed: " ++ e), s)).
Proof.
  intros Hini. split; [|split].
  - intros ->. unfold createMemoryRecord. rewrite guarded_ok by exact Hini.
    reflexivity.
  - intros e Ht He. apply String.eqb_neq in Ht.
    unfold createMemoryRecord. rewrite guarded_ok by exact Hini.
    rewrite Ht. unfold tryCatch, bind, _hash, gets, liftRes, ollama_embed.
    rewrite Ht, He. reflexivity.
  - intros Hfail.
    destruct (embedBatch_fails env texts Hfail) as (t' & e & Hin & He & Hb).
    exists t', e. split; [exact Hin|]. split; [exact He|].
    unfold createMemoryRecords. rewrite guarded_ok by exact Hini.
    unfold tryCatch, bind, liftRes. rewrite Hb. reflexivity.
Qed.

Lemma failed_embedding_leaves_no_trace_witness :
  createMemoryRecord deafEnv 1000 "" demoOptions demoStart
  = (Err "Invalid text for memory record", demoStart)
  /\ exists t' e,
       In t' ["alpha"%string; ""%string]
       /\ ollama_embed deafEnv t' = Err e
       /\ createMemoryRecords deafEnv 1000 ["alpha"%string; ""%string]
            demoOptions demoStart
          = (Err ("Batch memory creation failed: " ++ e), demoStart).
Proof.
  destruct (failed_embedding_leaves_no_trace deafEnv 1000 ""
              ["alpha"%string; ""%string] demoOptions demoStart eq_refl)
    as (H1 & _ & H3).
  split; [exact (H1 eq_refl)|].
  apply H3. exists ""%string. split; [right; left; reflexivity|].
  eexists. reflexivity.
Defined.

(** ** Embeddings read back from the stores *)

(** X13.  What [storeCold] and [storeWarm] file, [_reconstructEmbedding]
    reads back: after a successful [storeCold] the embedding reconstructed
    for tier COLD is the int8 round trip of the embedding of the record,
    and after a successful [storeWarm] the embedding reconstructed for tier
    WARM is its float16 round trip. *)
Theorem stored_embedding_is_reconstructed
    (env : Env) (record : MemoryRecord) (s : SCMP) :
  initialized s = true ->
  IndexedDBStore.usable (warmStore s) ->
  IndexedDBStore.usable (coldStore s) ->
  (fst (storeCold record s) = Ok tt
   /\ fst (_reconstructEmbedding env (id record) (Some COLD)
             (snd (storeCold record s)))
      = Ok (dequantizeInt8 (quantizeInt8 (embedding record))))
  /\ (fst (storeWarm env record s)
      = Ok (setWarmId (Some (nextHandle (hnswWarm s))) record)
      /\ fst (_reconstructEmbedding env (id record) (Some WARM)
                (snd (storeWarm env record s)))
         = Ok (dequantizeFloat16 env
                 (quantizeFloat16 env (embedding record)))).
Proof.
  destruct s as [cfg warm cold journal meta hot warmI sh sw ini slt jc rsc dsc
                 msl ls lc lp lk pend log].
  simpl. intros Hini Hw Hc. subst ini.
  concrete_store Hw. concrete_store Hc.
  destruct record as [rid remb rtext rts rla rep rimp ruse rcl rih rtier reh
                      rmeta rhot rwarm].
  split; split.
  - reflexivity.
  - unfold storeCold, _reconstructEmbedding. eng_unfold. simpl.
    rewrite lookupRow_insertRow_same by apply String_compare_refl.
    reflexivity.
  - reflexivity.
  - unfold storeWarm, _reconstructEmbedding. eng_unfold. simpl.
    rewrite lookupRow_insertRow_same by apply String_compare_refl.
    reflexivity.
Qed.

Lemma stored_embedding_is_reconstructed_witness :
  fst (_reconstructEmbedding demoEnv (id popular) (Some COLD)
         (snd (storeCold popular demoStart)))
  = Ok (dequantizeInt8 (quantizeInt8 (embedding popular))).
Proof.
  exact (proj2 (proj1 (stored_embedding_is_reconstructed demoEnv popular
                         demoStart eq_refl (conj eq_refl eq_refl)
                         (conj eq_refl eq_refl)))).
Defined.

Lemma reconstruct_fails env recordId tier s :
  IndexedDBStore.lookupRow String.compare recordId (rows (warmStore s)) = None ->
  IndexedDBStore.lookupRow String.compare recordId (rows (coldStore s)) = None ->
  exists e s', _reconstructEmbedding env recordId tier s = (Err e, s')
               /\ forgetLog s' = forgetLog s.
Proof.
  destruct s as [cfg warm cold journal meta hot warmI sh sw ini slt jc rsc dsc
                 msl ls lc lp lk pend log].
  destruct warm as [wo wh wrows]. destruct cold as [co ch crows].
  simpl. intros Hw Hc.
  unfold _reconstructEmbedding.
  destruct tier as [[| | |]|]; eng_unfold;
    try (do 2 eexists; split; reflexivity).
  - destruct wo, wh; simpl; rewrite ?Hw; do 2 eexists; split; reflexivity.
  - destruct co, ch; simpl; rewrite ?Hc; do 2 eexists; split; reflexivity.
Qed.

Lemma forgetLog_stores s s' :
  forgetLog s' = forgetLog s ->
  warmStore s' = warmStore s /\ coldStore s' = coldStore s.
Proof.
  destruct s, s'. unfold forgetLog. simpl. intros H. inversion H. tauto.
Qed.

Lemma searchBQ_bare {Meta} rank (idx : Index Meta) q k h :
  In h (EdgeVec.searchBQ rank false idx q k) -> hit_embedding h = None.
Proof.
  unfold EdgeVec.searchBQ. intros H. apply In_firstn in H.
  apply in_flat_map in H. destruct H as (hs & _ & H).
  destruct (EdgeVec.nodeOf idx (fst hs)); simpl in H; [|contradiction].
  destruct H as [<-|[]]. reflexivity.
Qed.

Lemma bind_err {S A B} (m : M S A) (k : A -> M S B) s e s' :
  m s = (Err e, s') -> bind m k s = (Err e, s').
Proof. intros H; unfold bind; rewrite H; reflexivity. Qed.

Lemma rescoreAll_fails env now simulate filters h rest s :
  hit_embedding h = None ->
  IndexedDBStore.lookupRow String.compare (j_id (hit_metadata h))
    (rows (warmStore s)) = None ->
  IndexedDBStore.lookupRow String.compare (j_id (hit_metadata h))
    (rows (coldStore s)) = None ->
  exists e s', rescoreAll env now simulate filters (h :: rest) s = (Err e, s').
Proof.
  intros Hemb Hw Hc.
  destruct (reconstruct_fails env (j_id (hit_metadata h))
              (j_currentTier (hit_metadata h)) s Hw Hc) as (e & s' & H & _).
  exists e, s'. cbn [rescoreAll]. apply bind_err.
  unfold rescore. apply bind_err. rewrite Hemb. exact H.
Qed.

Lemma bind_fails {S A B} (m : M S A) (k : A -> M S B) s :
  (forall a s1, m s = (Ok a, s1) -> exists e s', k a s1 = (Err e, s')) ->
  exists e s', bind m k s = (Err e, s').
Proof.
  intros H. unfold bind. destruct (m s) as [[a|e] s1]; [|eauto].
  apply H. reflexivity.
Qed.

Lemma searchBody_fails env now queryText k simulate filters queryVec h rest s :
  ollama_embed env queryText = Ok queryVec ->
  hitsCarryVectors env = false ->
  EdgeVec.searchBQ (ann env) false (hnswHot s) queryVec (k * 2) = h :: rest ->
  IndexedDBStore.lookupRow String.compare (j_id (hit_metadata h))
    (rows (warmStore s)) = None ->
  IndexedDBStore.lookupRow String.compare (j_id (hit_metadata h))
    (rows (coldStore s)) = None ->
  exists e s', searchBody env now queryText k simulate filters s = (Err e, s').
Proof.
  intros Hq Hcarry Hhot Hw Hc.
  assert (Hemb : hit_embedding h = None).
  { apply (searchBQ_bare (ann env) (hnswHot s) queryVec (k * 2)).
    rewrite Hhot. left. reflexivity. }
  unfold searchBody. rewrite Hcarry.
  apply bind_fails. intros qv s1 H1.
  unfold liftRes in H1. rewrite Hq in H1. inversion H1; subst qv s1. clear H1.
  apply bind_fails. intros hot s1 H1.
  unfold gets in H1. rewrite Hhot in H1. inversion H1; subst hot s1. clear H1.
  apply bind_fails. intros results1 s1 H1.
  assert (G1 : s1 = s /\ exists xs, results1 = h :: xs).
  { destruct (Nat.ltb (length (h :: rest)) (k * 2));
      unfold bind, gets, ret in H1; inversion H1; subst;
      (split; [reflexivity|]); eexists; cbn [app]; reflexivity. }
  destruct G1 as [-> [xs ->]]. clear H1.
  apply bind_fails. intros results2 s2 H2.
  assert (G2 : forgetLog s2 = forgetLog s /\ exists ys, results2 = h :: ys).
  { destruct (Nat.ltb (length (h :: xs)) (k * 2)).
    - apply bind_inv in H2. destruct H2 as (c & s3 & Hcold & Hret).
      unfold ret in Hret. inversion Hret; subst. clear Hret.
      pose proof (readOnly_chunkedColdSearch now queryVec
                    (k * 2 - length (h :: xs)) simulate s) as Hro.
      rewrite Hcold in Hro. cbn [snd] in Hro.
      split; [exact Hro|]. eexists. cbn [app]. reflexivity.
    - unfold ret in H2. inversion H2; subst.
      split; [reflexivity|]. eexists. reflexivity. }
  destruct G2 as [Hro [ys ->]]. clear H2.
  destruct (forgetLog_stores _ _ Hro) as [Hws Hcs].
  rewrite <- Hws in Hw. rewrite <- Hcs in Hc.
  destruct (rescoreAll_fails env now simulate filters h ys s2 Hemb Hw Hc)
    as (e & s3 & Hr).
  exists e, s3. apply bind_err. exact Hr.
Qed.

(** X14.  [_reconstructEmbedding] reads the WARM and the COLD store only.
    When the hits of the HOT index carry no embedding and the search
    ranks a HOT hit whose record has no row in the WARM store and none in
    the COLD store, as is the case once [applyPromotion] has moved the
    record, [search] throws: no result is returned for the query. *)
Theorem search_fails_on_bare_hot_hit
    (env : Env) (now : Z) (queryText : string) (k : nat) (simulate : bool)
    (filters : Filters) (queryVec : list R)
    (h : Hit RecordJSON) (rest : list (Hit RecordJSON)) (s : SCMP) :
  initialized s = true ->
  lock_search s = false ->
  ollama_embed env queryText = Ok queryVec ->
  hitsCarryVectors env = false ->
  EdgeVec.searchBQ (ann env) false (hnswHot s) queryVec (k * 2) = h :: rest ->
  IndexedDBStore.lookupRow String.compare (j_id (hit_metadata h))
    (rows (warmStore s)) = None ->
  IndexedDBStore.lookupRow String.compare (j_id (hit_metadata h))
    (rows (coldStore s)) = None ->
  exists e,
    fst (search env now queryText k simulate filters s)
    = Err ("Search failed: " ++ e).
Proof.
  intros Hini Hfree Hq Hcarry Hhot Hw Hc.
  unfold search. rewrite guarded_ok by exact Hini.
  unfold bind at 1. unfold gets at 1. rewrite Hfree. cbn [andb].
  unfold bind at 1. unfold when at 1. unfold ret at 1.
  unfold bind at 1.
  destruct simulate; cbn [negb when].
  - unfold ret at 1. unfold tryFinally, tryCatch.
    destruct (searchBody_fails env now queryText k true filters queryVec h rest
                s Hq Hcarry Hhot Hw Hc) as (e & s' & H).
    rewrite H. exists e. reflexivity.
  - unfold modify at 1. unfold tryFinally, tryCatch.
    assert (Hhot' : EdgeVec.searchBQ (ann env) false
                      (hnswHot (set_lock_search true s)) queryVec (k * 2)
                    = h :: rest) by (destruct s; exact Hhot).
    assert (Hw' : IndexedDBStore.lookupRow String.compare
                    (j_id (hit_metadata h))
                    (rows (warmStore (set_lock_search true s))) = None)
      by (destruct s; exact Hw).
    assert (Hc' : IndexedDBStore.lookupRow String.compare
                    (j_id (hit_metadata h))
                    (rows (coldStore (set_lock_search true s))) = None)
      by (destruct s; exact Hc).
    destruct (searchBody_fails env now queryText k false filters queryVec h
                rest (set_lock_search true s) Hq Hcarry Hhot' Hw' Hc')
      as (e & s' & H).
    rewrite H. exists e. reflexivity.
Qed.

Lemma search_fails_on_bare_hot_hit_witness :
  exists e,
    fst (search bareEnv 3000 "alpha" 1 true (mkFilters None None [])
           demoPromoted)
    = Err ("Search failed: " ++ e).
Proof.
  eapply (search_fails_on_bare_hot_hit bareEnv 3000 "alpha" 1 true
            (mkFilters None None []) [1%R; 0%R] _ _ demoPromoted
            eq_refl eq_refl eq_refl eq_refl).
  - cbv -[Rmax Rmin Rmult Rplus Rinv Ropp IZR INR exp Rle_dec Rlt_dec
          Req_dec_T sqrt]. reflexivity.
  - reflexivity.
  - reflexivity.
Defined.

(** ** Ranking *)










Lemma chunksFrom_concat {A} size : forall fuel (l : list A),
  (1 <= size)%nat -> (length l <= fuel)%nat ->
  concat (chunksFrom fuel size l) = l.
Proof.
  induction fuel as [|fuel IH]; intros l Hsize Hlen.
  - destruct l; [reflexivity | simpl in Hlen; lia].
  - destruct l as [|y l]; [reflexivity|].
    cbn [chunksFrom concat]. rewrite IH.
    + apply firstn_skipn.
    + exact Hsize.
    + rewrite length_skipn. cbn [length] in *. lia.
Qed.









(** ** The Ollama client *)

Lemma embedRequest_fails showZ text o rest req sl msg :
  failureOf showZ o = Some msg ->
  OllamaBrowserSafe.embedRequest showZ text (mkNet (o :: rest) req sl)
  = (Err msg, mkNet rest (req ++ [text]) sl).
Proof.
  destruct o as [[|] status [[v|]|e]| |m]; simpl; intros H; inversion H;
    reflexivity.
Qed.

Lemma embedRequest_answers showZ text status v rest req sl :
  OllamaBrowserSafe.embedRequest showZ text
    (mkNet (Answered true status (Ok (Some v)) :: rest) req sl)
  = (Ok v, mkNet rest (req ++ [text]) sl).
Proof. reflexivity. Qed.

Lemma retryLoop_succeeds showZ text retries status v rest :
  forall bad remaining lastError req sl,
    Forall (fun o => failureOf showZ o <> None) bad ->
    (length bad < remaining)%nat -> (remaining <= retries)%nat ->
    OllamaBrowserSafe.retryLoop showZ
      (OllamaBrowserSafe.embedRequest showZ text) retries remaining lastError
      (mkNet (bad ++ Answered true status (Ok (Some v)) :: rest) req sl)
    = (Ok v,
       mkNet rest (req ++ repeat text (S (length bad)))
             (sl ++ backoff (retries - remaining) (length bad))).
Proof.
  induction bad as [|o bad IH]; intros remaining lastError req sl Hbad Hlt Hle.
  - destruct remaining as [|rem]; [simpl in Hlt; lia|].
    cbn [OllamaBrowserSafe.retryLoop app]. unfold tryCatch.
    rewrite embedRequest_answers. cbn [length repeat backoff seq map].
    unfold backoff. cbn [seq map]. rewrite app_nil_r. reflexivity.
  - destruct remaining as [|rem]; [simpl in Hlt; lia|].
    inversion Hbad as [|? ? Ho Hbad']; subst.
    destruct (failureOf showZ o) as [msg|] eqn:Hf; [|contradiction].
    cbn [OllamaBrowserSafe.retryLoop app]. unfold tryCatch.
    rewrite (embedRequest_fails showZ text o _ req sl msg Hf).
    cbn [length] in Hlt.
    assert (Hsleep : Nat.ltb (retries - S rem) (retries - 1) = true)
      by (apply Nat.ltb_lt; lia).
    rewrite Hsleep. cbn [when].
    unfold bind at 1. unfold OllamaBrowserSafe.sleep, modify.
    cbn [outcomes requested slept].
    rewrite IH by (try assumption; lia).
    f_equal. f_equal.
    + rewrite <- app_assoc. reflexivity.
    + rewrite <- app_assoc. f_equal. unfold backoff. cbn [length seq map].
      replace (retries - rem)%nat with (S (retries - S rem)) by lia.
      reflexivity.
Qed.

Lemma last_cons_default {A} (l : list A) : forall x d d',
  last (x :: l) d = last (x :: l) d'.
Proof.
  induction l as [|y l IH]; intros x d d'; [reflexivity|].
  change (last (y :: l) d = last (y :: l) d'). apply IH.
Qed.

Lemma retryLoop_gives_up showZ text retries rest :
  forall bad lastError req sl,
    Forall (fun o => failureOf showZ o <> None) bad ->
    (length bad <= retries)%nat ->
    OllamaBrowserSafe.retryLoop showZ
      (OllamaBrowserSafe.embedRequest showZ text) retries (length bad)
      lastError (mkNet (bad ++ rest) req sl)
    = (match last (map (failureOf showZ) bad) lastError with
       | Some msg =>
           Err ("Request failed after " ++ showZ (Z.of_nat retries)
                  ++ " attempts: " ++ msg)
       | None => Err "Cannot read properties of undefined"
       end,
       mkNet rest (req ++ repeat text (length bad))
             (sl ++ backoff (retries - length bad) (length bad - 1))).
Proof.
  induction bad as [|o bad IH]; intros lastError req sl Hbad Hle.
  - cbn [OllamaBrowserSafe.retryLoop length app repeat map last].
    unfold backoff. cbn [seq map Nat.sub]. rewrite !app_nil_r.
    destruct lastError; reflexivity.
  - inversion Hbad as [|? ? Ho Hbad']; subst.
    destruct (failureOf showZ o) as [msg|] eqn:Hf; [|contradiction].
    cbn [length] in Hle.
    cbn [OllamaBrowserSafe.retryLoop app length]. unfold tryCatch.
    rewrite (embedRequest_fails showZ text o _ req sl msg Hf).
    unfold bind at 1.
    destruct bad as [|o' bad'].
    + assert (Hno : Nat.ltb (retries - 1) (retries - 1) = false)
        by apply Nat.ltb_irrefl.
      cbn [length]. rewrite Hno. cbn [when ret].
      cbn [OllamaBrowserSafe.retryLoop app repeat map last].
      rewrite Hf. unfold backoff. cbn [seq map Nat.sub]. rewrite !app_nil_r.
      reflexivity.
    + assert (Hsleep : Nat.ltb (retries - S (length (o' :: bad')))
                               (retries - 1) = true)
        by (apply Nat.ltb_lt; cbn [length] in *; lia).
      rewrite Hsleep. cbn [when].
      unfold OllamaBrowserSafe.sleep, modify. cbn [outcomes requested slept].
      rewrite IH by (try assumption; lia).
      f_equal.
      * cbn [map].
        rewrite (last_cons_default (map (failureOf showZ) bad')
                   (failureOf showZ o') (Some msg) lastError).
        reflexivity.
      * f_equal.
        -- rewrite <- app_assoc. reflexivity.
        -- rewrite <- app_assoc. f_equal. unfold backoff.
           cbn [length] in *.
           replace (S (S (length bad')) - 1)%nat with (S (length bad')) by lia.
           replace (S (length bad') - 1)%nat with (length bad') by lia.
           cbn [seq map].
           replace (retries - S (length bad'))%nat
             with (S (retries - S (S (length bad')))) by lia.
           reflexivity.
Qed.

(** X17.  [embed] returns the embedding of the first response that is
    well formed, when it comes within three attempts: the requests before
    it failed, whatever the failure was (a refused connection, a timeout,
    an HTTP error status, a body without an embedding), each failure was
    followed by a sleep of 1000 ms doubled per attempt, and no request is
    made after the successful one. *)
Theorem embed_returns_first_success
    (showZ : Z -> string) (text status : string) (v : list R)
    (bad rest : list FetchOutcome) (req : list string) (sl : list Z) :
  text <> ""%string ->
  Forall (fun o => failureOf showZ o <> None) bad ->
  (length bad < 3)%nat ->
  OllamaBrowserSafe.embed showZ text
    (mkNet (bad ++ Answered true status (Ok (Some v)) :: rest) req sl)
  = (Ok v,
     mkNet rest (req ++ repeat text (S (length bad)))
           (sl ++ firstn (length bad) [1000; 2000]%Z)).
Proof.
  intros Ht Hbad Hlen. apply String.eqb_neq in Ht.
  unfold OllamaBrowserSafe.embed. rewrite Ht.
  unfold OllamaBrowserSafe._retryableRequest, OllamaBrowserSafe.MAX_RETRIES.
  rewrite retryLoop_succeeds by (try assumption; lia).
  do 3 f_equal.
  destruct bad as [|o1 [|o2 [|o3 bad]]]; try reflexivity.
  simpl in Hlen. lia.
Qed.

Lemma embed_returns_first_success_witness :
  OllamaBrowserSafe.embed (fun _ => "30000"%string) "alpha"
    (mkNet [Aborted; Answered false "503" (Ok None);
            Answered true "200" (Ok (Some [1%R; 0%R]));
            Failed "unused"] [] [])
  = (Ok [1%R; 0%R],
     mkNet [Failed "unused"] ["alpha"; "alpha"; "alpha"]%string
           [1000; 2000]%Z).
Proof.
  apply (embed_returns_first_success (fun _ => "30000"%string) "alpha" "200"
           [1%R; 0%R] [Aborted; Answered false "503" (Ok None)]
           [Failed "unused"] [] []).
  - discriminate.
  - repeat constructor; discriminate.
  - simpl. lia.
Defined.

(** X18.  [embed] gives up after three failed attempts: it throws
    'Request failed after 3 attempts: ' followed by the message of the
    third failure, it has slept 1000 ms and 2000 ms, not after the third
    failure, and it makes no fourth request.  An empty text is rejected
    before any request is made. *)
Theorem embed_gives_up_after_three_attempts
    (showZ : Z -> string) (text msg : string) (o1 o2 o3 : FetchOutcome)
    (rest : list FetchOutcome) (req : list string) (sl : list Z) :
  text <> ""%string ->
  failureOf showZ o1 <> None ->
  failureOf showZ o2 <> None ->
  failureOf showZ o3 = Some msg ->
  OllamaBrowserSafe.embed showZ text (mkNet (o1 :: o2 :: o3 :: rest) req sl)
  = (Err ("Request failed after " ++ showZ 3%Z ++ " attempts: " ++ msg),
     mkNet rest (req ++ [text; text; text]) (sl ++ [1000; 2000]%Z))
  /\ forall n, OllamaBrowserSafe.embed showZ "" n
               = (Err "Invalid text for embedding", n).
Proof.
  intros Ht H1 H2 H3. split; [|reflexivity].
  apply String.eqb_neq in Ht.
  unfold OllamaBrowserSafe.embed. rewrite Ht.
  unfold OllamaBrowserSafe._retryableRequest, OllamaBrowserSafe.MAX_RETRIES.
  pose proof (retryLoop_gives_up showZ text 3 rest [o1; o2; o3] None req sl)
    as H.
  cbn [length app map last] in H. rewrite H3 in H.
  rewrite H; [reflexivity| |lia].
  repeat constructor; try assumption. rewrite H3. discriminate.
Qed.

Lemma embed_gives_up_after_three_attempts_witness :
  OllamaBrowserSafe.embed (fun _ => "3"%string) "alpha"
    (mkNet [Failed "Failed to fetch"; Aborted; Answered false "503" (Ok None);
            Answered true "200" (Ok (Some [1%R; 0%R]))] [] [])
  = (Err "Request failed after 3 attempts: Ollama embed failed: 503",
     mkNet [Answered true "200" (Ok (Some [1%R; 0%R]))]
           ["alpha"; "alpha"; "alpha"]%string [1000; 2000]%Z).
Proof.
  apply (embed_gives_up_after_three_attempts (fun _ => "3"%string) "alpha"
           "Ollama embed failed: 503" (Failed "Failed to fetch") Aborted
           (Answered false "503" (Ok None))
           [Answered true "200" (Ok (Some [1%R; 0%R]))] [] []);
    first [discriminate | reflexivity].
Defined.

(** ** Reset *)

(** X19.  [clear] empties the WARM, COLD and journal stores, replaces both
    indexes by empty ones and resets the four counters; the journal
    counter is reset in the meta store as well, so the next journal entry
    is stored under id 1 again.  The salt and the saved copies of the
    indexes are left as they were, and since no mutation is counted a
    [shutdown] that follows saves nothing. *)
Theorem clear_resets_engine
    (now : Z) (record : MemoryRecord) (s : SCMP) :
  initialized s = true ->
  IndexedDBStore.usable (warmStore s) ->
  IndexedDBStore.usable (coldStore s) ->
  IndexedDBStore.usable (journalStore s) ->
  IndexedDBStore.usable (metaStore s) ->
  let s' := snd (clear s) in
  fst (clear s) = Ok tt
  /\ rows (warmStore s') = [] /\ rows (coldStore s') = []
  /\ rows (journalStore s') = []
  /\ EdgeVec.getAllMetadata (hnswHot s') = []
  /\ EdgeVec.getAllMetadata (hnswWarm s') = []
  /\ (journalCounter s' = 0 /\ recordsSinceConsolidation s' = 0
      /\ deletionsSinceCompaction s' = 0 /\ mutationsSinceLastSave s' = 0)%Z
  /\ persistedCounter s' = Some (MetaNumber 0)
  /\ salt s' = salt s
  /\ savedHot s' = savedHot s /\ savedWarm s' = savedWarm s
  /\ shutdown s' = (Ok tt, s')
  /\ rows (journalStore (snd (appendJournal now record s')))
     = [(1%Z, mkEntry 1 now (toJSON record))].
Proof.
  destruct s as [cfg warm cold journal meta hot warmI sh sw ini slt jc rsc dsc
                 msl ls lc lp lk pend log].
  simpl. intros Hini Hw Hc Hj Hm. subst ini.
  concrete_store Hw. concrete_store Hc. concrete_store Hj. concrete_store Hm.
  set (next := fun st => rows (journalStore (snd (appendJournal now record st)))).
  change (rows (journalStore (snd (appendJournal now record ?st))))
    with (next st).
  unfold clear, warm_clear, cold_clear. eng_unfold.
  split; [reflexivity|]. do 5 (split; [reflexivity|]).
  split; [repeat split; reflexivity|].
  split; [unfold persistedCounter; simpl;
          apply lookupRow_insertRow_same, String_compare_refl|].
  do 3 (split; [reflexivity|]).
  split; [reflexivity|].
  subst next. cbv beta.
  match goal with
  | |- rows (journalStore (snd (appendJournal now record ?st))) = _ =>
      destruct (appendJournal_run now record st eq_refl
                  (conj eq_refl eq_refl) (conj eq_refl eq_refl))
        as (_ & _ & Hrows & _)
  end.
  cbv zeta in Hrows. rewrite Hrows. reflexivity.
Qed.

Lemma clear_resets_engine_witness :
  rows (journalStore
          (snd (appendJournal 5000 popular (snd (clear demoTwo)))))
  = [(1%Z, mkEntry 1 5000 (toJSON popular))].
Proof.
  destruct (clear_resets_engine 5000 popular demoTwo eq_refl
              (conj eq_refl eq_refl) (conj eq_refl eq_refl)
              (conj eq_refl eq_refl) (conj eq_refl eq_refl))
    as (_ & _ & _ & _ & _ & _ & _ & _ & _ & _ & _ & _ & H).
  exact H.
Defined.

(** ** Memory pressure *)

Lemma keepsHot_ret {A} (a : A) : keepsHot (ret a).
Proof. intros s; reflexivity. Qed.

Lemma keepsHot_throw {A} e : keepsHot (@throw SCMP A e).
Proof. intros s; reflexivity. Qed.

Lemma keepsHot_gets {A} (f : SCMP -> A) : keepsHot (gets f).
Proof. intros s; reflexivity. Qed.

Lemma keepsHot_bind {A B} (m : Eng A) (k : A -> Eng B) :
  keepsHot m -> (forall a, keepsHot (k a)) -> keepsHot (bind m k).
Proof.
  intros Hm Hk s. unfold bind. specialize (Hm s).
  destruct (m s) as [[a|e] s1]; simpl in *; [|exact Hm].
  rewrite (Hk a s1). exact Hm.
Qed.

Lemma keepsHot_tryCatch {A} (m : Eng A) (h : string -> Eng A) :
  keepsHot m -> (forall e, keepsHot (h e)) -> keepsHot (tryCatch m h).
Proof.
  intros Hm Hh s. unfold tryCatch. specialize (Hm s).
  destruct (m s) as [[a|e] s1]; simpl in *; [exact Hm|].
  rewrite (Hh e s1). exact Hm.
Qed.

Lemma keepsHot_when b (m : Eng unit) : keepsHot m -> keepsHot (when b m).
Proof. intros H. destruct b; [exact H | apply keepsHot_ret]. Qed.

Lemma keepsHot_foldM {A B} (f : B -> A -> Eng B) l : forall acc,
  (forall b x, keepsHot (f b x)) -> keepsHot (foldM f acc l).
Proof.
  induction l as [|x l IH]; intros acc Hf; simpl; [apply keepsHot_ret|].
  apply keepsHot_bind; [apply Hf|]; intros b. apply IH; exact Hf.
Qed.

Lemma keepsHot_modify (f : SCMP -> SCMP) :
  (forall s, hnswHot (f s) = hnswHot s) -> keepsHot (modify f).
Proof. intros H s. unfold modify. simpl. rewrite H. reflexivity. Qed.

Lemma keepsHot_compactHNSW : keepsHot _compactHNSW.
Proof.
  intros s. unfold _compactHNSW, bind, gets, modify, tryFinally, tryCatch,
    save, ensureInitialized, ret.
  destruct s as [cfg warm cold journal meta hot warmI sh sw ini slt jc rsc dsc
                 msl ls lc lp lk pend log].
  simpl. destruct lk; [reflexivity|]. simpl.
  destruct ini; simpl; apply getAllMetadata_compact.
Qed.

Lemma keepsHot_trackMutation : keepsHot _trackMutation.
Proof.
  intros s. unfold _trackMutation, bind, gets, modify, when, schedule, ret.
  destruct s; simpl. destruct (_ <=? _)%Z; reflexivity.
Qed.

Lemma keepsHot_pruneStep now simulate prunedIds record :
  keepsHot (pruneStep now simulate prunedIds record).
Proof.
  intros s. unfold pruneStep, bind, gets, when, ret, modify, cold_delete,
    writeStore, logIO.
  destruct s as [cfg warm cold journal meta hot warmI sh sw ini slt jc rsc dsc
                 msl ls lc lp lk pend log].
  simpl. destruct (prunable now cfg record); [|reflexivity].
  destruct simulate; simpl; [reflexivity|].
  destruct (IndexedDBStore.delete _ _ _); reflexivity.
Qed.

Lemma keepsHot_prune now simulate : keepsHot (prune now simulate).
Proof.
  intros s. unfold prune. unfold bind at 1.
  unfold ensureInitialized. destruct (initialized s) eqn:Hini; [|reflexivity].
  unfold bind at 1. unfold gets at 1.
  destruct (lock_prune s) eqn:Hl; [reflexivity|].
  unfold bind at 1. unfold modify at 1. unfold tryFinally.
  assert (Hb : keepsHot (tryCatch (pruneBody now simulate)
                           (fun e => throw ("Pruning failed: " ++ e)))).
  { apply keepsHot_tryCatch; [|intros e; apply keepsHot_throw].
    unfold pruneBody.
    apply keepsHot_bind.
    { intros s0. unfold cold_getAll, readStore, logIO.
      destruct (IndexedDBStore.getAll _); destruct s0; reflexivity. }
    intros coldRaw.
    apply keepsHot_bind.
    { apply keepsHot_foldM. intros b x. apply keepsHot_pruneStep. }
    intros prunedIds.
    apply keepsHot_bind; [|intros u; apply keepsHot_ret].
    apply keepsHot_when.
    apply keepsHot_bind; [apply keepsHot_gets|]; intros d.
    apply keepsHot_bind; [apply keepsHot_gets|]; intros threshold.
    apply keepsHot_bind; [|intros u; apply keepsHot_trackMutation].
    apply keepsHot_when. apply keepsHot_compactHNSW. }
  specialize (Hb (set_lock_prune true s)).
  destruct (tryCatch _ _ (set_lock_prune true s)) as [r s1].
  cbn [snd] in *. destruct s, s1. simpl in *. exact Hb.
Qed.

Lemma forEach_demoteIdle_fails env now l s :
  (exists m, In m l /\ (j_usage_count m < 5)%Z) ->
  exists e, forEach (demoteIdle env now) l s = (Err e, s).
Proof.
  induction l as [|x l IH]; intros (m & Hin & Hidle); [contradiction|].
  cbn [forEach]. unfold bind. unfold demoteIdle at 1.
  destruct (j_usage_count x <? 5)%Z eqn:Ex.
  - unfold bind, _reconstructEmbedding, tryCatch, throw. eexists. reflexivity.
  - unfold ret. destruct Hin as [->|Hin].
    + apply Z.ltb_ge in Ex. lia.
    + apply IH. exists m. split; assumption.
Qed.

(** X20.  The emergency cleanup cannot demote: [_reconstructEmbedding] has
    no case for tier HOT.  Whenever the HOT index holds a live entry with a
    usage count below 5, [_handleCriticalMemoryPressure] ends right after
    its pruning step, with the engine as [prune] left it: no record is
    demoted, and the compaction and the journal rotation that follow the
    demotion loop in the source are not reached. *)
Theorem critical_cleanup_stops_at_idle_hot_record
    (env : Env) (now : Z) (m : RecordJSON) (s : SCMP) :
  In m (EdgeVec.getAllMetadata (hnswHot s)) ->
  (j_usage_count m < 5)%Z ->
  _handleCriticalMemoryPressure env now s = (Ok tt, snd (prune now false s)).
Proof.
  intros Hin Hidle. unfold _handleCriticalMemoryPressure, tryCatch.
  unfold bind at 1.
  pose proof (keepsHot_prune now false s) as Hk.
  destruct (prune now false s) as [[pruned|e] s1]; [|reflexivity].
  cbn [snd] in *. unfold bind at 1. unfold gets at 1.
  destruct (forEach_demoteIdle_fails env now
              (EdgeVec.getAllMetadata (hnswHot s1)) s1) as [e He].
  { exists m. rewrite Hk. split; assumption. }
  unfold bind at 1. rewrite He. reflexivity.
Qed.

Lemma critical_cleanup_stops_at_idle_hot_record_witness :
  _handleCriticalMemoryPressure demoEnv 5000 demoIdleHot
  = (Ok tt, snd (prune 5000 false demoIdleHot)).
Proof.
  apply (critical_cleanup_stops_at_idle_hot_record demoEnv 5000
           (toJSON forgotten) demoIdleHot).
  - left. reflexivity.
  - vm_compute. reflexivity.
Defined.

(** ** The journal when every call is awaited *)

(** X21.  On an installation that starts from nothing and goes through any
    sequence of awaited [appendJournal] calls, page reloads followed by
    [initialize], further [initialize] calls and databases that start or
    stop rejecting requests, the ids of the journal entries written
    increase strictly, and none of them exceeds the counter that the meta
    store holds. *)
Theorem awaited_journal_ids_increase
    (env : Env) (cfg : Config) (steps : list Step) :
  let s := run env steps (newSCMP cfg) in
  StronglySorted Z.lt (journalPuts (ioLog s))
  /\ Forall (fun i => (i <= persistedValue s)%Z) (journalPuts (ioLog s)).
Proof.
  destruct (awaited_appends_keep_ids_increasing env steps (newSCMP cfg)
              (newSCMP_invariant cfg)) as [Hinv Hsorted].
  split; [exact Hsorted | apply Hinv].
Qed.

(** X22.  After a page reload, a successful [initialize] resumes the
    journal counter from the value the meta store holds. *)
Theorem restart_resumes_persisted_counter (env : Env) (s : SCMP) :
  fst (restart env s) = Ok tt ->
  journalCounter (snd (restart env s)) = persistedValue s
  /\ initialized (snd (restart env s)) = true.
Proof.
  intros Hok. split; [apply restart_resumes_counter; exact Hok|].
  unfold restart in *.
  destruct (initialize env (reopen s)) as [r s'] eqn:E. simpl in Hok. subst r.
  cbn [snd]. revert E. unfold initialize, bind, gets, tryCatch. simpl.
  repeat match goal with
  | |- context [match ?m ?st with _ => _ end] =>
      match m with
      | openAll => destruct (openAll st) as [[?|?] ?]
      | _loadOrCreateKey env => destruct (_loadOrCreateKey env st) as [[?|?] ?]
      | _loadOrCreateSalt env => destruct (_loadOrCreateSalt env st) as [[?|?] ?]
      | _loadJournalCounter => destruct (_loadJournalCounter st) as [[?|?] ?]
      end
  end; unfold throw, modify; intros H; inversion H; subst; reflexivity.
Qed.

Lemma restart_resumes_persisted_counter_witness :
  journalCounter (snd (restart demoEnv demoTwo)) = persistedValue demoTwo.
Proof.
  exact (proj1 (restart_resumes_persisted_counter demoEnv demoTwo eq_refl)).
Defined.

(** ** Dry runs *)

(** X23.  A simulated [search] changes no store, no index, no counter, no
    lock and no scheduled task: apart from the record of the store calls it
    made, the engine after the call is the engine before it, whether the
    call returns or throws. *)
Theorem simulated_search_changes_nothing
    (env : Env) (now : Z) (queryText : string) (k : nat) (filters : Filters)
    (s : SCMP) :
  forgetLog (snd (search env now queryText k true filters s)) = forgetLog s.
Proof. exact (proj1 (search_simulate_frame env now queryText k filters s)). Qed.

(** X24.  A simulated [prune] deletes nothing and counts nothing: apart
    from the record of the store calls it made, the engine after the call
    is the engine before it, whether the call returns or throws. *)
Theorem simulated_prune_changes_nothing (now : Z) (s : SCMP) :
  forgetLog (snd (prune now true s)) = forgetLog s.
Proof. exact (prune_simulate_frame now s). Qed.

(** ** Consolidation of a small store *)

(** X25.  With fewer than two rows in the WARM store [consolidate] returns
    the empty list after a single [count] request: nothing is clustered,
    summarized, journalled or stored, the counter of records since the
    last consolidation is not reset, and the lock is free again. *)
Theorem consolidate_needs_two_records
    (env : Env) (now : Z) (simulate : bool) (s : SCMP) :
  initialized s = true ->
  lock_consolidate s = false ->
  IndexedDBStore.usable (warmStore s) ->
  (length (rows (warmStore s)) < 2)%nat ->
  consolidate env now simulate s
  = (Ok [], logIO (mkIO WarmDB OpCount true 0 None) s).
Proof.
  destruct s as [cfg warm cold journal meta hot warmI sh sw ini slt jc rsc dsc
                 msl ls lc lp lk pend log].
  simpl. intros Hini Hlock Hw Hlen. subst ini lc. concrete_store Hw.
  simpl in Hlen.
  assert (Hc : (Z.of_nat (length rows0) <? 2)%Z = true)
    by (apply Z.ltb_lt; lia).
  unfold consolidate, consolidateBody, logIO. eng_unfold. rewrite Hc.
  reflexivity.
Qed.

Lemma consolidate_needs_two_records_witness :
  consolidate demoEnv 3000 false demoStart
  = (Ok [], logIO (mkIO WarmDB OpCount true 0 None) demoStart).
Proof.
  apply (consolidate_needs_two_records demoEnv 3000 false demoStart).
  - reflexivity.
  - reflexivity.
  - split; reflexivity.
  - simpl. lia.
Defined.

(** ** The float16 codec of the WARM tier *)

Section Float16Facts.
Local Open Scope Z_scope.

Lemma lor_shiftl_add a b n :
  0 <= n -> 0 <= b < 2 ^ n -> Z.lor (Z.shiftl a n) b = a * 2 ^ n + b.
Proof.
  intros Hn Hb.
  rewrite <- Z.shiftl_mul_pow2 by exact Hn.
  rewrite <- Z.lxor_lor, <- Z.add_nocarry_lxor; try reflexivity.
  all: apply Z.bits_inj'; intros i Hi; rewrite Z.land_spec, Z.bits_0;
    destruct (Z.lt_ge_cases i n) as [Hlt|Hge];
    [ rewrite Z.shiftl_spec_low by exact Hlt; reflexivity
    | rewrite <- (Z.mod_small b (2 ^ n)) by exact Hb;
      rewrite Z.mod_pow2_bits_high by lia; apply andb_false_r ].
Qed.

Lemma fields32 sign E F :
  0 <= sign <= 1 -> 0 <= E < 256 -> 0 <= F < 8388608 ->
  let bits := sign * 2147483648 + E * 8388608 + F in
  Z.land (Z.shiftr bits 31) 1 = sign
  /\ Z.land (Z.shiftr bits 23) 255 = E
  /\ Z.land bits 8388607 = F.
Proof.
  intros Hs HE HF bits. subst bits.
  rewrite !Z.shiftr_div_pow2 by lia.
  change 1 with (Z.ones 1) at 1. change 255 with (Z.ones 8).
  change 8388607 with (Z.ones 23).
  rewrite !Z.land_ones by lia.
  change (2 ^ 31) with 2147483648. change (2 ^ 23) with 8388608.
  change (2 ^ 8) with 256. change (2 ^ 1) with 2.
  repeat split.
  - assert ((sign * 2147483648 + E * 8388608 + F) / 2147483648 = sign)
      by (symmetry; apply (Z.div_unique _ _ _ (E * 8388608 + F)); lia).
    rewrite H. apply Z.mod_small. lia.
  - assert ((sign * 2147483648 + E * 8388608 + F) / 8388608 = sign * 256 + E)
      by (symmetry; apply (Z.div_unique _ _ _ F); lia).
    rewrite H. symmetry. apply (Z.mod_unique _ _ sign); lia.
  - symmetry. apply (Z.mod_unique _ _ (sign * 256 + E)); lia.
Qed.

Lemma quantizeBits_normal sign E F :
  0 <= sign <= 1 -> 113 <= E <= 142 -> 0 <= F < 8388608 ->
  Float16.quantizeBits (sign * 2147483648 + E * 8388608 + F)
  = sign * 32768 + (E - 112) * 1024 + F / 8192.
Proof.
  intros Hs HE HF.
  destruct (fields32 sign E F Hs ltac:(lia) HF) as (H1 & H2 & H3).
  cbv zeta in H1, H2, H3.
  unfold Float16.quantizeBits. cbv zeta. rewrite H1, H2, H3.
  assert (Hq : 0 <= F / 8192 < 1024).
  { split; [apply Z.div_pos; lia|]. apply Z.div_lt_upper_bound; lia. }
  replace (E =? 255) with false by (symmetry; apply Z.eqb_neq; lia).
  replace (E =? 0) with false by (symmetry; apply Z.eqb_neq; lia).
  replace (31 <=? E - 127 + 15) with false by (symmetry; apply Z.leb_gt; lia).
  replace (E - 127 + 15 <=? 0) with false by (symmetry; apply Z.leb_gt; lia).
  rewrite (Z.shiftr_div_pow2 F 13) by lia. change (2 ^ 13) with 8192.
  rewrite (Z.shiftl_mul_pow2 (E - 127 + 15) 10) by lia.
  rewrite (lor_shiftl_add sign ((E - 127 + 15) * 2 ^ 10) 15) by lia.
  change (2 ^ 15) with 32768. change (2 ^ 10) with 1024.
  replace (sign * 32768 + (E - 127 + 15) * 1024)
    with (Z.shiftl (sign * 32 + (E - 127 + 15)) 10)
    by (rewrite Z.shiftl_mul_pow2 by lia; change (2 ^ 10) with 1024; lia).
  rewrite (lor_shiftl_add _ (F / 8192) 10) by (change (2 ^ 10) with 1024; lia).
  change (2 ^ 10) with 1024.
  unfold Float16.toUint16. rewrite Z.mod_small by lia. lia.
Qed.

Lemma land_pow2_small b n :
  0 <= n -> 0 <= b < 2 ^ n -> Z.land b (2 ^ n) = 0.
Proof.
  intros Hn Hb. apply Z.bits_inj'. intros i Hi.
  rewrite Z.land_spec, Z.bits_0, Z.pow2_bits_eqb by exact Hn.
  destruct (Z.eqb_spec n i) as [<-|Hne]; [|apply andb_false_r].
  rewrite <- (Z.mod_small b (2 ^ n)) by exact Hb.
  rewrite Z.mod_pow2_bits_high by lia. reflexivity.
Qed.

Lemma fields16 sign e m :
  0 <= sign <= 1 -> 0 <= e < 32 -> 0 <= m < 1024 ->
  let h := sign * 32768 + e * 1024 + m in
  (Z.land h 32768 =? 0) = (sign =? 0)
  /\ Z.land (Z.shiftr h 10) 31 = e
  /\ Z.land h 1023 = m.
Proof.
  intros Hs He Hm h. subst h. split; [|split].
  - assert (Hcase : sign = 0 \/ sign = 1) by lia.
    destruct Hcase as [-> | ->].
    + change 32768 with (2 ^ 15) at 2.
      rewrite land_pow2_small by (change (2 ^ 15) with 32768; lia).
      reflexivity.
    + replace (1 * 32768 + e * 1024 + m)
        with (Z.lor (Z.shiftl 1 15) (e * 1024 + m))
        by (rewrite lor_shiftl_add by (change (2 ^ 15) with 32768; lia);
            change (2 ^ 15) with 32768; lia).
      rewrite Z.land_lor_distr_l.
      change (Z.shiftl 1 15) with 32768. rewrite Z.land_diag.
      change 32768 with (2 ^ 15) at 2.
      rewrite land_pow2_small by (change (2 ^ 15) with 32768; lia).
      reflexivity.
  - rewrite Z.shiftr_div_pow2 by lia. change 31 with (Z.ones 5).
    rewrite Z.land_ones by lia. change (2 ^ 10) with 1024.
    change (2 ^ 5) with 32.
    assert ((sign * 32768 + e * 1024 + m) / 1024 = sign * 32 + e)
      by (symmetry; apply (Z.div_unique _ _ _ m); lia).
    rewrite H. symmetry. apply (Z.mod_unique _ _ sign); lia.
  - change 1023 with (Z.ones 10). rewrite Z.land_ones by lia.
    change (2 ^ 10) with 1024.
    symmetry. apply (Z.mod_unique _ _ (sign * 32 + e)); lia.
Qed.

Lemma dequantizeHalf_fields sign e m :
  0 <= sign <= 1 -> 0 <= e < 32 -> 0 <= m < 1024 ->
  Float16.dequantizeHalf (sign * 32768 + e * 1024 + m)
  = let sg := if sign =? 0 then 1 else (-1) in
    if e =? 0 then Finite (IZR sg * powerRZ 2 (-14) * (IZR m / 1024))
    else if e =? 31 then (if m =? 0 then Infinity (sg <? 0) else NaN)
    else Finite (IZR sg * powerRZ 2 (e - 15) * (1 + IZR m / 1024)).
Proof.
  intros Hs He Hm.
  destruct (fields16 sign e m Hs He Hm) as (H1 & H2 & H3).
  cbv zeta in H1, H2, H3.
  unfold Float16.dequantizeHalf. cbv zeta. rewrite H1, H2, H3. reflexivity.
Qed.

(** X26.  [quantizeFloat16] truncates: for a single-precision value of
    sign bit [sign], exponent field [E] between 113 and 142 (a magnitude
    from 2^-14 up to, but not including, 65536) and fraction field [F],
    that is the value (-1)^sign * 2^(E-127) * (1 + F / 2^23), the half
    that is stored dequantizes to the value of the same sign and exponent
    whose fraction is [F] cut to its ten leading bits.  The fraction loses
    less than 2^-10, and nothing when its thirteen low bits are zero. *)
Theorem float16_truncates_the_mantissa (sign E F : Z) :
  0 <= sign <= 1 -> 113 <= E <= 142 -> 0 <= F < 8388608 ->
  Float16.dequantizeHalf
    (Float16.quantizeBits (sign * 2147483648 + E * 8388608 + F))
  = Finite (IZR (if sign =? 0 then 1 else (-1)) * powerRZ 2 (E - 127)
            * (1 + IZR (F / 8192) / 1024))
  /\ (0 <= IZR F / 8388608 - IZR (F / 8192) / 1024 < 1 / 1024)%R
  /\ (F mod 8192 = 0 -> (IZR (F / 8192) / 1024 = IZR F / 8388608)%R).
Proof.
  intros Hs HE HF.
  assert (Hq : 0 <= F / 8192 < 1024).
  { split; [apply Z.div_pos; lia|]. apply Z.div_lt_upper_bound; lia. }
  pose proof (Z.div_mod F 8192 ltac:(lia)) as Hdm.
  pose proof (Z.mod_pos_bound F 8192 ltac:(lia)) as Hr.
  assert (HR : (IZR F = 8192 * IZR (F / 8192) + IZR (F mod 8192))%R).
  { rewrite Hdm at 1. rewrite plus_IZR, mult_IZR. reflexivity. }
  assert (Hr0 : (0 <= IZR (F mod 8192))%R) by (apply IZR_le; lia).
  assert (Hr1 : (IZR (F mod 8192) < 8192)%R) by (apply IZR_lt; lia).
  split; [|split].
  - rewrite quantizeBits_normal by assumption.
    rewrite dequantizeHalf_fields by lia. cbv zeta.
    replace (E - 112 =? 0) with false by (symmetry; apply Z.eqb_neq; lia).
    replace (E - 112 =? 31) with false by (symmetry; apply Z.eqb_neq; lia).
    replace (E - 112 - 15) with (E - 127) by lia. reflexivity.
  - rewrite HR. lra.
  - intros H0. rewrite HR, H0. lra.
Qed.

Lemma float16_truncates_the_mantissa_witness :
  Float16.dequantizeHalf
    (Float16.quantizeBits (0 * 2147483648 + 127 * 8388608 + 4194304))
  = Finite (IZR (if 0 =? 0 then 1 else (-1)) * powerRZ 2 (127 - 127)
            * (1 + IZR (4194304 / 8192) / 1024)).
Proof.
  apply (float16_truncates_the_mantissa 0 127 4194304); lia.
Defined.

(** X27.  [quantizeFloat16] at the ends of the range.  A single-precision
    value whose exponent field is 143 or more, that is a magnitude of
    65536 or more or an infinity, is stored as the half-precision
    infinity of its sign and dequantizes to that infinity; a NaN is stored
    as a NaN; and a value whose exponent field is 101 or less, that is a
    magnitude below 2^-25, is stored as a zero. *)
Theorem float16_special_values (sign E F : Z) :
  0 <= sign <= 1 -> 0 <= E < 256 -> 0 <= F < 8388608 ->
  let h := Float16.quantizeBits (sign * 2147483648 + E * 8388608 + F) in
  (143 <= E -> (E < 255 \/ F = 0) ->
   h = sign * 32768 + 31744
   /\ Float16.dequantizeHalf h = Infinity (sign =? 1))
  /\ (E = 255 -> F <> 0 ->
      h = sign * 32768 + 32256 /\ Float16.dequantizeHalf h = NaN)
  /\ (E <= 101 ->
      h = sign * 32768
      /\ exists x, Float16.dequantizeHalf h = Finite x /\ x = 0%R).
Proof.
  intros Hs HE HF h. subst h.
  destruct (fields32 sign E F Hs HE HF) as (H1 & H2 & H3).
  cbv zeta in H1, H2, H3.
  assert (Hinf : Float16.toUint16 (Z.lor (Z.shiftl sign 15) 31744)
                 = sign * 32768 + 31 * 1024 + 0).
  { rewrite lor_shiftl_add by (change (2 ^ 15) with 32768; lia).
    change (2 ^ 15) with 32768. unfold Float16.toUint16.
    rewrite Z.mod_small by lia. lia. }
  assert (Hzero : Float16.toUint16 (Z.shiftl sign 15)
                  = sign * 32768 + 0 * 1024 + 0).
  { rewrite Z.shiftl_mul_pow2 by lia. change (2 ^ 15) with 32768.
    unfold Float16.toUint16. rewrite Z.mod_small by lia. lia. }
  assert (Hsg : forall b : bool,
            ((if sign =? 0 then 1 else -1) <? 0) = (sign =? 1)).
  { intros _. assert (Hcase : sign = 0 \/ sign = 1) by lia.
    destruct Hcase as [-> | ->]; reflexivity. }
  unfold Float16.quantizeBits. cbv zeta. rewrite H1, H2, H3.
  split; [|split].
  - intros HEhi Hcase.
    assert (G : Float16.toUint16
                  (if E =? 255
                   then Z.lor (Z.lor (Z.shiftl sign 15) 31744)
                              (if F =? 0 then 0 else 512)
                   else if E =? 0 then Z.shiftl sign 15
                   else if 31 <=? E - 127 + 15
                        then Z.lor (Z.shiftl sign 15) 31744
                        else if E - 127 + 15 <=? 0
                             then if E - 127 + 15 <? -10
                                  then Z.shiftl sign 15
                                  else Z.lor (Z.shiftl sign 15)
                                         (Z.shiftr
                                            (Z.shiftr (Z.lor F 8388608)
                                               (1 - (E - 127 + 15))) 13)
                             else Z.lor
                                    (Z.lor (Z.shiftl sign 15)
                                       (Z.shiftl (E - 127 + 15) 10))
                                    (Z.shiftr F 13))
                = sign * 32768 + 31 * 1024 + 0).
    { destruct (E =? 255) eqn:E255.
      - apply Z.eqb_eq in E255. destruct Hcase as [Hlt | ->]; [lia|].
        change (0 =? 0) with true. cbv iota. rewrite Z.lor_0_r. exact Hinf.
      - replace (E =? 0) with false by (symmetry; apply Z.eqb_neq; lia).
        replace (31 <=? E - 127 + 15) with true
          by (symmetry; apply Z.leb_le; lia).
        exact Hinf. }
    rewrite G. split; [lia|].
    rewrite dequantizeHalf_fields by lia. cbv zeta.
    change (31 =? 0) with false. change (31 =? 31) with true.
    change (0 =? 0) with true. cbv iota. rewrite (Hsg true). reflexivity.
  - intros -> HF0.
    change (255 =? 255) with true. cbv iota.
    replace (F =? 0) with false by (symmetry; apply Z.eqb_neq; exact HF0).
    assert (G : Float16.toUint16 (Z.lor (Z.lor (Z.shiftl sign 15) 31744) 512)
                = sign * 32768 + 31 * 1024 + 512).
    { rewrite lor_shiftl_add by (change (2 ^ 15) with 32768; lia).
      change (2 ^ 15) with 32768.
      replace (sign * 32768 + 31744) with (Z.shiftl (sign * 32 + 31) 10)
        by (rewrite Z.shiftl_mul_pow2 by lia; change (2 ^ 10) with 1024; lia).
      rewrite lor_shiftl_add by (change (2 ^ 10) with 1024; lia).
      change (2 ^ 10) with 1024. unfold Float16.toUint16.
      rewrite Z.mod_small by lia. lia. }
    rewrite G. split; [lia|].
    rewrite dequantizeHalf_fields by lia. reflexivity.
  - intros HElo.
    assert (G : Float16.toUint16
                  (if E =? 255
                   then Z.lor (Z.lor (Z.shiftl sign 15) 31744)
                              (if F =? 0 then 0 else 512)
                   else if E =? 0 then Z.shiftl sign 15
                   else if 31 <=? E - 127 + 15
                        then Z.lor (Z.shiftl sign 15) 31744
                        else if E - 127 + 15 <=? 0
                             then if E - 127 + 15 <? -10
                                  then Z.shiftl sign 15
                                  else Z.lor (Z.shiftl sign 15)
                                         (Z.shiftr
                                            (Z.shiftr (Z.lor F 8388608)
                                               (1 - (E - 127 + 15))) 13)
                             else Z.lor
                                    (Z.lor (Z.shiftl sign 15)
                                       (Z.shiftl (E - 127 + 15) 10))
                                    (Z.shiftr F 13))
                = sign * 32768 + 0 * 1024 + 0).
    { replace (E =? 255) with false by (symmetry; apply Z.eqb_neq; lia).
      destruct (E =? 0) eqn:E0; [exact Hzero|]. apply Z.eqb_neq in E0.
      replace (31 <=? E - 127 + 15) with false
        by (symmetry; apply Z.leb_gt; lia).
      replace (E - 127 + 15 <=? 0) with true
        by (symmetry; apply Z.leb_le; lia).
      replace (E - 127 + 15 <? -10) with true
        by (symmetry; apply Z.ltb_lt; lia).
      exact Hzero. }
    rewrite G. split; [lia|].
    rewrite dequantizeHalf_fields by lia. cbv zeta.
    change (0 =? 0) with true. cbv iota.
    eexists. split; [reflexivity|]. unfold Rdiv. rewrite !Rmult_0_l, Rmult_0_r.
    reflexivity.
Qed.

Lemma float16_special_values_witness :
  Float16.quantizeBits (0 * 2147483648 + 143 * 8388608 + 0)
  = 0 * 32768 + 31744
  /\ Float16.dequantizeHalf
       (Float16.quantizeBits (0 * 2147483648 + 143 * 8388608 + 0))
     = Infinity (0 =? 1).
Proof.
  destruct (float16_special_values 0 143 0 ltac:(lia) ltac:(lia) ltac:(lia))
    as (H & _).
  apply H; lia.
Defined.

End Float16Facts.

